(** * The b2 Writer: chunked upload engine (src/b2/writer.go)

    A shallow embedding of the Writer of package b2 and the properties its
    specification asserts about it.

    Modelling conventions.
    - Go [int], [int64] and [time.Duration] are 64-bit: values live in [Z]
      and every addition, subtraction and multiplication of the source is
      wrapped by [wrap].
    - A Go [error] is [option error]; [None] is the nil error.
    - Collaborators that the package reaches through interfaces (the backend,
      the context, the retry classifier, the hash of a buffer) are gathered
      in [Env]: the n-th call of a collaborator answers with the n-th entry of
      its script, so that every behaviour of the environment is some [Env].
    - Every collaborator call, sleep, channel operation and cancellation is
      recorded in [events], most recent first.
    - Loops that the source leaves unbounded ([goto redo], the pagination
      loop, the recursion of [Write]) take fuel; running out of it is the
      outcome [Abort OutOfFuel], never a result.
    - Goroutines: a goroutine started by [thread] either runs up to its
      first receive on [w.ready] before the caller goes on, or is still in
      its call of [getUploadPartURL] then, as [late] of the environment has
      it; it then completes that call in a later step [straggle], which
      can come between any two calls on the Writer.  A chunk sent on
      [w.ready] is a rendezvous, and the goroutine that receives it runs
      its loop body before the sender resumes; a send that finds no
      goroutine waiting is the outcome [Abort Blocked].
    - Logging ([glog]) and the diagnostic counter [gid] have no effect on the
      Writer and are left out. *)

From Stdlib Require Import ZArith List Lia Bool.
From stdpp Require Import base option list gmap strings pretty.
Import ListNotations.
Local Open Scope Z_scope.

Module b2.

(** ** Machine integers *)

Definition wrap (z : Z) : Z := (z + 2 ^ 63) mod 2 ^ 64 - 2 ^ 63.
Definition max_int : Z := 2 ^ 63 - 1.
Definition int_add (a b : Z) : Z := wrap (a + b).
Definition int_sub (a b : Z) : Z := wrap (a - b).
Definition int_mul (a b : Z) : Z := wrap (a * b).

(** time.Duration counts nanoseconds. *)
Definition Millisecond : Z := 1000000.
Definition Second : Z := 1000000000.

(** ** Data *)

Definition error := string.
Definition endpoint := nat.
Definition fileHandle := nat.
Definition loc := nat.
Abbreviation attrmap := (gmap string string).

(** Modelled from the spec: the Accumulator, [writeBuffer] as made by
    [newMemoryBuffer] (the buffer's source is not part of src/): the bytes
    written so far, appended to without failure. *)
Definition writeBuffer := list Byte.byte.

Definition newMemoryBuffer : writeBuffer := [].
Definition wb_Len (b : writeBuffer) : Z := Z.of_nat (length b).
Definition wb_Write (b : writeBuffer) (p : list Byte.byte)
  : Z * option error * writeBuffer :=
  (Z.of_nat (length p), None, b ++ p).
Definition wb_Reader (b : writeBuffer) : list Byte.byte * option error :=
  (b, None).

Record chunk := { id : Z; buf : writeBuffer }.

Record Object := { obj_name : string; obj_f : fileHandle }.
Record part := { p_number : Z; p_sha1 : string; p_size : Z }.

(** [beLargeFileInterface]: a session either started afresh or compiled
    from the parts of an interrupted one ([compileParts]). *)
Inductive largeFile :=
| StartedLargeFile (h : nat)
| CompiledParts (fi : fileHandle) (size : Z) (seen : gmap Z string).

Inductive chan := ChanNil | ChanOpen | ChanClosed.

Record Time := { IsZero : bool; UnixNano : Z }.
Record Attrs := { ContentType : string; Info : option loc; LastModified : Time }.

Inductive event :=
| EGetUploadURL
| EUploadFile (ue : endpoint) (body : list Byte.byte) (len : Z)
    (nm ctype sha : string) (meta : attrmap)
| EStartLargeFile (nm ctype : string) (meta : attrmap)
| EListObjects (nm : string)
| EListParts (fi : fileHandle) (next : Z)
| EGetUploadPartURL
| EUploadPart (fc : endpoint) (body : list Byte.byte) (sha : string)
    (len : Z) (n : Z)
| ESleep (d : Z)
| ESend (c : chunk)
| ECloseReady
| EWait
| EFinishLargeFile
| ECancel.

(** ** The environment *)

Record Env := {
  reupload : option error → bool;
  Hash : list Byte.byte → string;
  getUploadURL : nat → error + endpoint;
  uploadFile : nat → error + fileHandle;
  startLargeFile : nat → error + nat;
  ListObjects : nat → error + list Object;
  listParts : nat → error + (list part * Z);
  getUploadPartURL : nat → error + endpoint;
  uploadPart : nat → Z → Z * option error;
  finishLargeFile : nat → error + fileHandle;
  (** [Err()] of the caller's context after that many events *)
  ctxParent : nat → option error;
  (** the choice of [select] when both of its cases can proceed *)
  selectDone : nat → bool;
  (** whether the i-th goroutine of the pool is still in its call of
      [getUploadPartURL] when the loop that starts the pool goes on *)
  late : nat → bool
}.

(** An environment in which every collaborator succeeds at once. *)
Definition okEnv : Env :=
  {| reupload := λ _, false;
     Hash := String.string_of_list_byte;
     getUploadURL := λ n, inr n;
     uploadFile := λ n, inr n;
     startLargeFile := λ n, inr n;
     ListObjects := λ _, inr [];
     listParts := λ _, inr ([], 0);
     getUploadPartURL := λ n, inr n;
     uploadPart := λ _ len, (len, None);
     finishLargeFile := λ n, inr n;
     ctxParent := λ _, None;
     selectDone := λ _, false;
     late := λ _, false |}.

(** Every upload of a part fails, the classifier has every failure retried,
    and no endpoint can be had after the first. *)
Definition stuckEnv : Env :=
  {| reupload := λ _, true;
     Hash := String.string_of_list_byte;
     getUploadURL := λ n, inr n;
     uploadFile := λ n, inr n;
     startLargeFile := λ n, inr n;
     ListObjects := λ _, inr [];
     listParts := λ _, inr ([], 0);
     getUploadPartURL := λ n, match n with O => inr O | _ => inl "no endpoint"%string end;
     uploadPart := λ _ _, (0, Some "503"%string);
     finishLargeFile := λ n, inr n;
     ctxParent := λ _, None;
     selectDone := λ _, false;
     late := λ _, false |}.

(** The first upload, of a file or of a part, fails retryably; all else
    succeeds. *)
Definition flakyEnv : Env :=
  {| reupload := λ _, true;
     Hash := String.string_of_list_byte;
     getUploadURL := λ n, inr n;
     uploadFile := λ n, match n with O => inl "503"%string | _ => inr n end;
     startLargeFile := λ n, inr n;
     ListObjects := λ _, inr [];
     listParts := λ _, inr ([], 0);
     getUploadPartURL := λ n, inr n;
     uploadPart := λ n len, match n with O => (0, Some "503"%string) | _ => (len, None) end;
     finishLargeFile := λ n, inr n;
     ctxParent := λ _, None;
     selectDone := λ _, false;
     late := λ _, false |}.

(** The large file cannot be started; all else succeeds. *)
Definition noStartEnv : Env :=
  {| reupload := λ _, false;
     Hash := String.string_of_list_byte;
     getUploadURL := λ n, inr n;
     uploadFile := λ n, inr n;
     startLargeFile := λ _, inl "start failed"%string;
     ListObjects := λ _, inr [];
     listParts := λ _, inr ([], 0);
     getUploadPartURL := λ n, inr n;
     uploadPart := λ _ len, (len, None);
     finishLargeFile := λ n, inr n;
     ctxParent := λ _, None;
     selectDone := λ _, false;
     late := λ _, false |}.

(** [n] bytes. *)
Definition bytes (n : nat) : list Byte.byte := repeat Byte.x61 n.

(** An interrupted upload of "f" is found with part 1 stored, listed on
    the first of two pages; all else succeeds. *)
Definition resumeEnv : Env :=
  {| reupload := λ _, false;
     Hash := String.string_of_list_byte;
     getUploadURL := λ n, inr n;
     uploadFile := λ n, inr n;
     startLargeFile := λ n, inr n;
     ListObjects := λ _, inr [{| obj_name := "f"; obj_f := 7%nat |}];
     listParts := λ n,
       match n with
       | O => inr ([{| p_number := 1; p_sha1 := "aaa"; p_size := 3 |}], 2)
       | _ => inr ([], 0)
       end;
     getUploadPartURL := λ n, inr n;
     uploadPart := λ _ len, (len, None);
     finishLargeFile := λ n, inr n;
     ctxParent := λ _, None;
     selectDone := λ _, false;
     late := λ _, false |}.

(** An environment in which every part upload falls one byte short
    without reporting an error; all else succeeds. *)
Definition shortEnv : Env :=
  {| reupload := λ _, false;
     Hash := String.string_of_list_byte;
     getUploadURL := λ n, inr n;
     uploadFile := λ n, inr n;
     startLargeFile := λ n, inr n;
     ListObjects := λ _, inr [];
     listParts := λ _, inr ([], 0);
     getUploadPartURL := λ n, inr n;
     uploadPart := λ _ len, (len - 1, None);
     finishLargeFile := λ n, inr n;
     ctxParent := λ _, None;
     selectDone := λ _, false;
     late := λ _, false |}.

(** Two goroutines are started.  The first has its endpoint at once; the
    second is still asking for one when the pool is started, and is
    refused.  All else succeeds. *)
Definition lateEnv : Env :=
  {| reupload := λ _, false;
     Hash := String.string_of_list_byte;
     getUploadURL := λ n, inr n;
     uploadFile := λ n, inr n;
     startLargeFile := λ n, inr n;
     ListObjects := λ _, inr [];
     listParts := λ _, inr ([], 0);
     getUploadPartURL := λ n, match n with O => inr O | _ => inl "no endpoint"%string end;
     uploadPart := λ _ len, (len, None);
     finishLargeFile := λ n, inr n;
     ctxParent := λ _, None;
     selectDone := λ _, false;
     late := λ i, Nat.eqb i 1 |}.

(** ** The Writer *)

Record Writer := {
  ConcurrentUploads : Z;
  Resume : bool;
  ChunkSize : Z;
  contentType : string;
  (** a map is a reference into [heap]; [None] is the nil map *)
  info : option loc;
  csize : Z;
  ready : chan;
  (** a [sync.Once] is [true] once its [Do] has run *)
  start : bool;
  once : bool;
  done : bool;
  file : option largeFile;
  seen : gmap Z string;
  (** [w.o.f] *)
  o_f : option fileHandle;
  name : string;
  cidx : Z;
  (** [None] is the nil interface value *)
  w : option writeBuffer;
  err : option error;
  (** the goroutines parked on [<-w.ready], each with its endpoint [fc] *)
  workers : list endpoint;
  (** how many goroutines are still in their call of [getUploadPartURL],
      before their [w.wg.Add(1)] *)
  starting : nat;
  (** the map objects of the program *)
  heap : list attrmap;
  events : list event
}.

Definition set_ConcurrentUploads v (s : Writer) : Writer :=
  {| ConcurrentUploads := v; Resume := Resume s; ChunkSize := ChunkSize s;
     contentType := contentType s; info := info s; csize := csize s;
     ready := ready s; start := start s; once := once s; done := done s;
     file := file s; seen := seen s; o_f := o_f s; name := name s;
     cidx := cidx s; w := w s; err := err s; workers := workers s;
     starting := starting s; heap := heap s; events := events s |}.
Definition set_Resume v (s : Writer) : Writer :=
  {| ConcurrentUploads := ConcurrentUploads s; Resume := v;
     ChunkSize := ChunkSize s; contentType := contentType s; info := info s;
     csize := csize s; ready := ready s; start := start s; once := once s;
     done := done s; file := file s; seen := seen s; o_f := o_f s;
     name := name s; cidx := cidx s; w := w s; err := err s;
     workers := workers s; starting := starting s; heap := heap s;
     events := events s |}.
Definition set_contentType v (s : Writer) : Writer :=
  {| ConcurrentUploads := ConcurrentUploads s; Resume := Resume s;
     ChunkSize := ChunkSize s; contentType := v; info := info s;
     csize := csize s; ready := ready s; start := start s; once := once s;
     done := done s; file := file s; seen := seen s; o_f := o_f s;
     name := name s; cidx := cidx s; w := w s; err := err s;
     workers := workers s; starting := starting s; heap := heap s;
     events := events s |}.
Definition set_info v (s : Writer) : Writer :=
  {| ConcurrentUploads := ConcurrentUploads s; Resume := Resume s;
     ChunkSize := ChunkSize s; contentType := contentType s; info := v;
     csize := csize s; ready := ready s; start := start s; once := once s;
     done := done s; file := file s; seen := seen s; o_f := o_f s;
     name := name s; cidx := cidx s; w := w s; err := err s;
     workers := workers s; starting := starting s; heap := heap s;
     events := events s |}.
Definition set_csize v (s : Writer) : Writer :=
  {| ConcurrentUploads := ConcurrentUploads s; Resume := Resume s;
     ChunkSize := ChunkSize s; contentType := contentType s; info := info s;
     csize := v; ready := ready s; start := start s; once := once s;
     done := done s; file := file s; seen := seen s; o_f := o_f s;
     name := name s; cidx := cidx s; w := w s; err := err s;
     workers := workers s; starting := starting s; heap := heap s;
     events := events s |}.
Definition set_ready v (s : Writer) : Writer :=
  {| ConcurrentUploads := ConcurrentUploads s; Resume := Resume s;
     ChunkSize := ChunkSize s; contentType := contentType s; info := info s;
     csize := csize s; ready := v; start := start s; once := once s;
     done := done s; file := file s; seen := seen s; o_f := o_f s;
     name := name s; cidx := cidx s; w := w s; err := err s;
     workers := workers s; starting := starting s; heap := heap s;
     events := events s |}.
Definition set_start v (s : Writer) : Writer :=
  {| ConcurrentUploads := ConcurrentUploads s; Resume := Resume s;
     ChunkSize := ChunkSize s; contentType := contentType s; info := info s;
     csize := csize s; ready := ready s; start := v; once := once s;
     done := done s; file := file s; seen := seen s; o_f := o_f s;
     name := name s; cidx := cidx s; w := w s; err := err s;
     workers := workers s; starting := starting s; heap := heap s;
     events := events s |}.
Definition set_once v (s : Writer) : Writer :=
  {| ConcurrentUploads := ConcurrentUploads s; Resume := Resume s;
     ChunkSize := ChunkSize s; contentType := contentType s; info := info s;
     csize := csize s; ready := ready s; start := start s; once := v;
     done := done s; file := file s; seen := seen s; o_f := o_f s;
     name := name s; cidx := cidx s; w := w s; err := err s;
     workers := workers s; starting := starting s; heap := heap s;
     events := events s |}.
Definition set_done v (s : Writer) : Writer :=
  {| ConcurrentUploads := ConcurrentUploads s; Resume := Resume s;
     ChunkSize := ChunkSize s; contentType := contentType s; info := info s;
     csize := csize s; ready := ready s; start := start s; once := once s;
     done := v; file := file s; seen := seen s; o_f := o_f s; name := name s;
     cidx := cidx s; w := w s; err := err s; workers := workers s;
     starting := starting s; heap := heap s; events := events s |}.
Definition set_file v (s : Writer) : Writer :=
  {| ConcurrentUploads := ConcurrentUploads s; Resume := Resume s;
     ChunkSize := ChunkSize s; contentType := contentType s; info := info s;
     csize := csize s; ready := ready s; start := start s; once := once s;
     done := done s; file := v; seen := seen s; o_f := o_f s; name := name s;
     cidx := cidx s; w := w s; err := err s; workers := workers s;
     starting := starting s; heap := heap s; events := events s |}.
Definition set_seen v (s : Writer) : Writer :=
  {| ConcurrentUploads := ConcurrentUploads s; Resume := Resume s;
     ChunkSize := ChunkSize s; contentType := contentType s; info := info s;
     csize := csize s; ready := ready s; start := start s; once := once s;
     done := done s; file := file s; seen := v; o_f := o_f s; name := name s;
     cidx := cidx s; w := w s; err := err s; workers := workers s;
     starting := starting s; heap := heap s; events := events s |}.
Definition set_o_f v (s : Writer) : Writer :=
  {| ConcurrentUploads := ConcurrentUploads s; Resume := Resume s;
     ChunkSize := ChunkSize s; contentType := contentType s; info := info s;
     csize := csize s; ready := ready s; start := start s; once := once s;
     done := done s; file := file s; seen := seen s; o_f := v;
     name := name s; cidx := cidx s; w := w s; err := err s;
     workers := workers s; starting := starting s; heap := heap s;
     events := events s |}.
Definition set_cidx v (s : Writer) : Writer :=
  {| ConcurrentUploads := ConcurrentUploads s; Resume := Resume s;
     ChunkSize := ChunkSize s; contentType := contentType s; info := info s;
     csize := csize s; ready := ready s; start := start s; once := once s;
     done := done s; file := file s; seen := seen s; o_f := o_f s;
     name := name s; cidx := v; w := w s; err := err s; workers := workers s;
     starting := starting s; heap := heap s; events := events s |}.
Definition set_w v (s : Writer) : Writer :=
  {| ConcurrentUploads := ConcurrentUploads s; Resume := Resume s;
     ChunkSize := ChunkSize s; contentType := contentType s; info := info s;
     csize := csize s; ready := ready s; start := start s; once := once s;
     done := done s; file := file s; seen := seen s; o_f := o_f s;
     name := name s; cidx := cidx s; w := v; err := err s;
     workers := workers s; starting := starting s; heap := heap s;
     events := events s |}.
Definition set_err v (s : Writer) : Writer :=
  {| ConcurrentUploads := ConcurrentUploads s; Resume := Resume s;
     ChunkSize := ChunkSize s; contentType := contentType s; info := info s;
     csize := csize s; ready := ready s; start := start s; once := once s;
     done := done s; file := file s; seen := seen s; o_f := o_f s;
     name := name s; cidx := cidx s; w := w s; err := v;
     workers := workers s; starting := starting s; heap := heap s;
     events := events s |}.
Definition set_workers v (s : Writer) : Writer :=
  {| ConcurrentUploads := ConcurrentUploads s; Resume := Resume s;
     ChunkSize := ChunkSize s; contentType := contentType s; info := info s;
     csize := csize s; ready := ready s; start := start s; once := once s;
     done := done s; file := file s; seen := seen s; o_f := o_f s;
     name := name s; cidx := cidx s; w := w s; err := err s; workers := v;
     starting := starting s; heap := heap s; events := events s |}.
Definition set_starting v (s : Writer) : Writer :=
  {| ConcurrentUploads := ConcurrentUploads s; Resume := Resume s;
     ChunkSize := ChunkSize s; contentType := contentType s; info := info s;
     csize := csize s; ready := ready s; start := start s; once := once s;
     done := done s; file := file s; seen := seen s; o_f := o_f s;
     name := name s; cidx := cidx s; w := w s; err := err s;
     workers := workers s; starting := v; heap := heap s;
     events := events s |}.
Definition set_heap v (s : Writer) : Writer :=
  {| ConcurrentUploads := ConcurrentUploads s; Resume := Resume s;
     ChunkSize := ChunkSize s; contentType := contentType s; info := info s;
     csize := csize s; ready := ready s; start := start s; once := once s;
     done := done s; file := file s; seen := seen s; o_f := o_f s;
     name := name s; cidx := cidx s; w := w s; err := err s;
     workers := workers s; starting := starting s; heap := v;
     events := events s |}.
Definition set_events v (s : Writer) : Writer :=
  {| ConcurrentUploads := ConcurrentUploads s; Resume := Resume s;
     ChunkSize := ChunkSize s; contentType := contentType s; info := info s;
     csize := csize s; ready := ready s; start := start s; once := once s;
     done := done s; file := file s; seen := seen s; o_f := o_f s;
     name := name s; cidx := cidx s; w := w s; err := err s;
     workers := workers s; starting := starting s; heap := heap s;
     events := v |}.

Definition log (e : event) (s : Writer) : Writer := set_events (e :: events s) s.

(** The Writer before its first [Write]: the configuration as the caller
    set it, every unexported field at its Go zero value.  (In this file only
    [start.Do] in [Write] makes the buffer [w.w], and only [sendChunk] makes
    the channel and the session.) *)
Definition newWriter (nm : string) (cu : Z) (res : bool) (chunkSize : Z) : Writer :=
  {| ConcurrentUploads := cu; Resume := res; ChunkSize := chunkSize;
     contentType := EmptyString; info := None; csize := 0; ready := ChanNil;
     start := false; once := false; done := false; file := None; seen := ∅;
     o_f := None; name := nm; cidx := 0; w := None; err := None;
     workers := []; starting := O; heap := []; events := [] |}.

(** ** Outcomes *)

Inductive abort := Panicked | Blocked | OutOfFuel.

Inductive outcome (A : Type) :=
| Done (a : A) (s : Writer)
| Abort (r : abort) (s : Writer).
Arguments Done {A} a s.
Arguments Abort {A} r s.

Definition bind {A B} (m : outcome A) (k : A → Writer → outcome B) : outcome B :=
  match m with
  | Done a s => k a s
  | Abort r s => Abort r s
  end.

Notation "'let*' ( x , s ) := m 'in' k" := (bind m (fun x s => k))
  (at level 10, x name, s name, m at level 100, k at level 200).

Definition final {A} (o : outcome A) : Writer :=
  match o with Done _ s => s | Abort _ s => s end.

(** ** Event kinds and call counts *)

Definition is_getUploadURL (e : event) : bool :=
  match e with EGetUploadURL => true | _ => false end.
Definition is_uploadFile (e : event) : bool :=
  match e with EUploadFile _ _ _ _ _ _ _ => true | _ => false end.
Definition is_startLargeFile (e : event) : bool :=
  match e with EStartLargeFile _ _ _ => true | _ => false end.
Definition is_listObjects (e : event) : bool :=
  match e with EListObjects _ => true | _ => false end.
Definition is_listParts (e : event) : bool :=
  match e with EListParts _ _ => true | _ => false end.
Definition is_getUploadPartURL (e : event) : bool :=
  match e with EGetUploadPartURL => true | _ => false end.
Definition is_uploadPart (e : event) : bool :=
  match e with EUploadPart _ _ _ _ _ => true | _ => false end.
Definition is_sleep (e : event) : bool :=
  match e with ESleep _ => true | _ => false end.
Definition is_send (e : event) : bool :=
  match e with ESend _ => true | _ => false end.
Definition is_finishLargeFile (e : event) : bool :=
  match e with EFinishLargeFile => true | _ => false end.
Definition is_cancel (e : event) : bool :=
  match e with ECancel => true | _ => false end.

Fixpoint calls (k : event → bool) (tr : list event) : nat :=
  match tr with
  | [] => O
  | e :: tr => ((if k e then 1 else 0) + calls k tr)%nat
  end.

(** The chunks sent on [w.ready], oldest first. *)
Fixpoint sends (tr : list event) : list chunk :=
  match tr with
  | [] => []
  | ESend c :: tr => sends tr ++ [c]
  | _ :: tr => sends tr
  end.

(** The durations slept, oldest first. *)
Fixpoint sleeps (tr : list event) : list Z :=
  match tr with
  | [] => []
  | ESleep d :: tr => sleeps tr ++ [d]
  | _ :: tr => sleeps tr
  end.

Definition deref (s : Writer) (m : option loc) : attrmap :=
  match m with
  | Some l => default ∅ (heap s !! l)
  | None => ∅
  end.

(** Concrete inputs: a Writer with a chunk size of 3, a stream of 7 bytes
    written in three calls, a chunk, and attributes with one entry. *)
Definition demoWriter : Writer := newWriter "f" 1 false 3.
Definition demoWrites : list (list Byte.byte) := [bytes 2; bytes 4; bytes 1].
Definition demoChunk : chunk := {| id := 1; buf := bytes 3 |}.
Definition demoAttrs : Attrs :=
  {| ContentType := "text/plain";
     Info := Some O;
     LastModified := {| IsZero := false; UnixNano := 1500000000123456789 |} |}.

Section Model.

Variable env : Env.

(** ** ErrorSink: setErr and getErr (lines 82-99) *)

Definition cancel (s : Writer) : Writer := log ECancel s.

Definition setErr (e : option error) (s : Writer) : Writer :=
  match e with
  | None => s
  | Some _ =>
      match err s with
      | None => cancel (set_err e s)
      | Some _ => s
      end
  end.

Definition getErr (s : Writer) : option error := err s.

Definition cancelled (s : Writer) : bool := (0 <? calls is_cancel (events s))%nat.

(** [w.ctx.Err()]: the caller's context, or the Writer's own cancel. *)
Definition ctxErr (s : Writer) : option error :=
  match ctxParent env (length (events s)) with
  | Some e => Some e
  | None => if cancelled s then Some "context canceled"%string else None
  end.

(** ** The upload goroutine: thread (lines 103-157) *)

Definition mismatch : error :=
  "resumable upload was requested, but chunks don't match!"%string.

(** From the start of a goroutine to its first receive (lines 105-114):
    it reports the failure to get an endpoint and returns, or it calls
    [w.wg.Add(1)] and receives: on an open channel it joins [workers] with
    its endpoint, on a closed one it returns. *)
Definition prologue (s : Writer) : outcome unit :=
  match file s with
  | None => Abort Panicked s
  | Some _ =>
      let n := calls is_getUploadPartURL (events s) in
      let s := log EGetUploadPartURL s in
      match getUploadPartURL env n with
      | inl e => Done tt (setErr (Some e) s)
      | inr fc =>
          match ready s with
          | ChanClosed => Done tt s
          | _ => Done tt (set_workers (workers s ++ [fc]) s)
          end
      end
  end.

(** [w.thread()], called for the i-th goroutine of the pool: [go func()]
    returns at once.  Either the goroutine has reached its first receive
    by the time the caller goes on, or it is still in its call of
    [getUploadPartURL]; it is then not counted in [w.wg] (the [Add] of line
    111 comes after that call), and completes the call later, in
    [straggle]. *)
Definition thread (i : nat) (s : Writer) : outcome unit :=
  if late env i then Done tt (set_starting (S (starting s)) s) else prologue s.

(** A goroutine that was still in its call of [getUploadPartURL] completes
    it and goes on to its first receive.  This can come at any time after
    the pool is started, also after [Close] has returned: [w.wg.Wait()]
    (line 317) waits only for the goroutines that have called [Add]. *)
Definition straggle (s : Writer) : outcome unit :=
  match starting s with
  | O => Done tt s
  | S k => prologue (set_starting k s)
  end.

(** Label [redo] (lines 133-153).  The result is the endpoint the goroutine
    carries into its next iteration, or [None] when it returns. *)
Fixpoint redo_part (fuel : nat) (c : chunk) (sleep : Z) (fc : endpoint)
    (s : Writer) : outcome (option endpoint) :=
  match fuel with
  | O => Abort OutOfFuel s
  | S fuel =>
      let k := calls is_uploadPart (events s) in
      let s := log (EUploadPart fc (buf c) (Hash env (buf c)) (wb_Len (buf c)) (id c)) s in
      let '(n, e) := uploadPart env k (wb_Len (buf c)) in
      if negb (n =? wb_Len (buf c)) || bool_decide (e ≠ None) then
        if reupload env e then
          let s := log (ESleep sleep) s in
          let sleep := int_mul sleep 2 in
          let sleep := if sleep >? int_mul Second 15 then int_mul Second 15 else sleep in
          let j := calls is_getUploadPartURL (events s) in
          let s := log EGetUploadPartURL s in
          match getUploadPartURL env j with
          | inl e' => Done None (setErr (Some e') s)
          | inr f => redo_part fuel c sleep f s
          end
        else Done None (setErr e s)
      else Done (Some fc) s
  end.

(** One iteration of the loop, from a received chunk (lines 118-154). *)
Definition handle (fuel : nat) (fc : endpoint) (c : chunk) (s : Writer)
    : outcome (option endpoint) :=
  match seen s !! id c with
  | Some sha =>
      if negb (String.eqb sha (Hash env (buf c)))
      then Done None (setErr (Some mismatch) s)
      else Done (Some fc) s
  | None =>
      let '(_, e) := wb_Reader (buf c) in
      match e with
      | Some e => Done None (setErr (Some e) s)
      | None => redo_part fuel c (int_mul Millisecond 15) fc s
      end
  end.

(** ** simpleWriteFile (lines 191-221) *)

Definition octet_stream : string := "application/octet-stream".

Definition ctype_of (s : Writer) : string :=
  if String.eqb (contentType s) EmptyString then octet_stream else contentType s.

Fixpoint redo_file (fuel : nat) (ue : endpoint) (b : writeBuffer)
    (sha ctype : string) (s : Writer) : outcome (option error) :=
  match fuel with
  | O => Abort OutOfFuel s
  | S fuel =>
      let k := calls is_uploadFile (events s) in
      let s := log (EUploadFile ue b (wb_Len b) (name s) ctype sha (deref s (info s))) s in
      match uploadFile env k with
      | inl e =>
          if reupload env (Some e) then
            let j := calls is_getUploadURL (events s) in
            let s := log EGetUploadURL s in
            match getUploadURL env j with
            | inl e' => Done (Some e') s
            | inr u => redo_file fuel u b sha ctype s
            end
          else Done (Some e) s
      | inr f => Done None (set_o_f (Some f) s)
      end
  end.

Definition simpleWriteFile (fuel : nat) (s : Writer) : outcome (option error) :=
  let j := calls is_getUploadURL (events s) in
  let s := log EGetUploadURL s in
  match getUploadURL env j with
  | inl e => Done (Some e) s
  | inr ue =>
      match w s with
      | None => Abort Panicked s
      | Some b =>
          let sha := Hash env b in
          let ctype := ctype_of s in
          let '(_, e) := wb_Reader b in
          match e with
          | Some e => Done (Some e) s
          | None => redo_file fuel ue b sha ctype s
          end
      end
  end.

(** ** getLargeFile (lines 223-267) *)

(** The branch taken when no resume is asked for (lines 224-230). *)
Definition startFresh (s : Writer) : outcome (error + largeFile) :=
  let k := calls is_startLargeFile (events s) in
  let s := log (EStartLargeFile (name s) (ctype_of s) (deref s (info s))) s in
  match startLargeFile env k with
  | inl e => Done (inl e) s
  | inr h => Done (inr (StartedLargeFile h)) s
  end.

(** The body of [for _, p := range parts] (lines 251-254). *)
Definition addPart (acc : gmap Z string * Z) (p : part) : gmap Z string * Z :=
  (<[p_number p := p_sha1 p]> (fst acc), int_add (snd acc) (p_size p)).

(** The pagination loop (lines 235-261) and what follows it. *)
Fixpoint resumeLoop (fuel : nat) (next : Z) (sn : gmap Z string) (size : Z)
    (s : Writer) : outcome (error + largeFile) :=
  match fuel with
  | O => Abort OutOfFuel s
  | S fuel =>
      let k := calls is_listObjects (events s) in
      let s := log (EListObjects (name s)) s in
      match ListObjects env k with
      | inl e => Done (inl e) s
      | inr objs =>
          match objs with
          | [] => startFresh (set_Resume false s)
          | o :: _ =>
              if negb (String.eqb (obj_name o) (name s))
              then startFresh (set_Resume false s)
              else
                let fi := obj_f o in
                let j := calls is_listParts (events s) in
                let s := log (EListParts fi next) s in
                match listParts env j with
                | inl e => Done (inl e) s
                | inr (parts, n) =>
                    let '(sn, size) := fold_left addPart parts (sn, size) in
                    if (length parts =? 0)%nat || (n =? 0)
                    then Done (inr (CompiledParts fi size sn)) (set_seen sn s)
                    else resumeLoop fuel n sn size s
                end
          end
      end
  end.

Definition getLargeFile (fuel : nat) (s : Writer) : outcome (error + largeFile) :=
  if negb (Resume s) then startFresh s else resumeLoop fuel 1 ∅ 0 s.

(** ** sendChunk (lines 269-300) *)

(** [for i := 0; i < w.ConcurrentUploads; i++ { w.thread() }] *)
Fixpoint spawn (i n : nat) (s : Writer) : outcome unit :=
  match n with
  | O => Done tt s
  | S n => let* (_, s) := thread i s in spawn (S i) n s
  end.

(** The function given to [w.once.Do] (lines 271-285); its result is the
    [err] of the enclosing function. *)
Definition startPool (fuel : nat) (s : Writer) : outcome (option error) :=
  let* (r, s) := getLargeFile fuel s in
  match r with
  | inl e => Done (Some e) s
  | inr lf =>
      let s := set_file (Some lf) s in
      let s := set_ready ChanOpen s in
      let s := if ConcurrentUploads s <? 1 then set_ConcurrentUploads 1 s else s in
      let* (_, s) := spawn 0 (Z.to_nat (ConcurrentUploads s)) s in
      Done None s
  end.

(** The send case of the [select] once it is taken: the first parked
    goroutine receives the chunk and runs its loop body on it. *)
Definition deliver (fuel : nat) (c : chunk) (s : Writer) : outcome unit :=
  let s := log (ESend c) s in
  match workers s with
  | [] => Abort Blocked s
  | fc :: rest =>
      let* (r, s) := handle fuel fc c (set_workers rest s) in
      match r with
      | Some fc' => Done tt (set_workers (workers s ++ [fc']) s)
      | None => Done tt s
      end
  end.

(** Whether the send on [w.ready] can proceed: a goroutine is parked on an
    open channel, or the channel is closed (the send then panics). *)
Definition canSend (s : Writer) : bool :=
  match ready s with
  | ChanNil => false
  | ChanOpen => negb (bool_decide (workers s = []))
  | ChanClosed => true
  end.

Definition sendChunk (fuel : nat) (s : Writer) : outcome (option error) :=
  let* (e, s) := (if once s then Done None s else startPool fuel (set_once true s)) in
  match e with
  | Some e => Done (Some e) s
  | None =>
      match w s with
      | None => Abort Panicked s
      | Some b =>
          let c := {| id := int_add (cidx s) 1; buf := b |} in
          let send (s : Writer) : outcome (option error) :=
            match ready s with
            | ChanClosed => Abort Panicked s
            | _ =>
                let* (_, s) := deliver fuel c s in
                let s := set_cidx (int_add (cidx s) 1) s in
                let s := set_w (Some newMemoryBuffer) s in
                Done None s
            end in
          match canSend s, ctxErr s with
          | false, None => Abort Blocked s
          | true, None => send s
          | false, Some e => Done (Some e) s
          | true, Some e =>
              if selectDone env (length (events s)) then Done (Some e) s else send s
          end
      end
  end.

(** ** Write (lines 160-189) *)

(** The function given to [w.start.Do] (lines 164-170). *)
Definition startDo (s : Writer) : Writer :=
  if start s then s
  else
    let s := set_start true s in
    let s := set_csize (ChunkSize s) s in
    let s := if csize s =? 0 then set_csize 100000000 s else s in
    set_w (Some newMemoryBuffer) s.

Fixpoint Write (fuel : nat) (p : list Byte.byte) (s : Writer)
    : outcome (Z * option error) :=
  match fuel with
  | O => Abort OutOfFuel s
  | S fuel =>
      match getErr s with
      | Some e => Done (0, Some e) s
      | None =>
          let s := startDo s in
          match w s with
          | None => Abort Panicked s
          | Some b =>
              let left := int_sub (csize s) (wb_Len b) in
              if Z.of_nat (length p) <? left then
                let '(n, e, b) := wb_Write b p in
                Done (n, e) (set_w (Some b) s)
              else if left <? 0 then Abort Panicked s
              else
                let '(i, e, b) := wb_Write b (firstn (Z.to_nat left) p) in
                let s := set_w (Some b) s in
                match e with
                | Some e => Done (i, Some e) (setErr (Some e) s)
                | None =>
                    let* (e, s) := sendChunk fuel s in
                    match e with
                    | Some e =>
                        let s := setErr (Some e) s in
                        Done (i, getErr s) s
                    | None =>
                        let* (r, s) := Write fuel (skipn (Z.to_nat left) p) s in
                        let '(k, e) := r in
                        Done (int_add i k, e) (setErr e s)
                    end
                end
          end
      end
  end.

(** ** Close (lines 304-326) *)

(** The function given to [w.done.Do] (lines 305-324). *)
Definition finish (fuel : nat) (s : Writer) : outcome unit :=
  if cidx s =? 0 then
    let* (e, s) := simpleWriteFile fuel s in
    Done tt (setErr e s)
  else
    match w s with
    | None => Abort Panicked s
    | Some b =>
        let* (e, s) :=
          (if wb_Len b >? 0 then sendChunk fuel s else Done None s) in
        match e with
        | Some e => Done tt (setErr (Some e) s)
        | None =>
            match ready s with
            | ChanOpen =>
                let s := log ECloseReady (set_ready ChanClosed s) in
                let s := log EWait (set_workers [] s) in
                match file s with
                | None => Abort Panicked s
                | Some _ =>
                    let k := calls is_finishLargeFile (events s) in
                    let s := log EFinishLargeFile s in
                    match finishLargeFile env k with
                    | inl e => Done tt (setErr (Some e) s)
                    | inr f => Done tt (set_o_f (Some f) s)
                    end
                end
            | _ => Abort Panicked s
            end
        end
    end.

Definition Close (fuel : nat) (s : Writer) : outcome (option error) :=
  let* (_, s) := (if done s then Done tt s else finish fuel (set_done true s)) in
  Done (getErr s) s.

(** ** WithAttrs (lines 330-340) *)

Definition millis_key : string := "src_last_modified_millis".

(** [for k, v := range attrs.Info { w.info[k] = v }] into the map at [l]. *)
Definition copyInto (src : attrmap) (dst : attrmap) : attrmap :=
  map_fold (λ k v m, <[k := v]> m) dst src.

Definition WithAttrs (attrs : option Attrs) (s : Writer) : outcome unit :=
  match attrs with
  | None => Abort Panicked s
  | Some a =>
      let s := set_contentType (ContentType a) s in
      let l := length (heap s) in
      let s := set_info (Some l) (set_heap (heap s ++ [∅]) s) in
      let m := copyInto (deref s (Info a)) (deref s (info s)) in
      let m :=
        if (Z.of_nat (size m) <? 10) && negb (IsZero (LastModified a))
        then <[millis_key := pretty (Z.quot (UnixNano (LastModified a)) 1000000)]> m
        else m in
      Done tt (set_heap (<[l := m]> (heap s)) s)
  end.

(** A later write [m[k] = v] by the caller through its own reference. *)
Definition store (l : loc) (k v : string) (s : Writer) : Writer :=
  match heap s !! l with
  | Some m => set_heap (<[l := <[k := v]> m]> (heap s)) s
  | None => s
  end.

(** ** Whole uploads *)

(** The calls [Write(p1); ...; Write(pn)] of one caller, in that order.
    (A [Write] after a failed one returns the stored error and does nothing
    else, so a caller that stops at the first error leaves the same Writer.) *)
Fixpoint writeAll (fuel : nat) (ps : list (list Byte.byte)) (s : Writer)
    : outcome unit :=
  match ps with
  | [] => Done tt s
  | p :: ps => let* (_, s) := Write fuel p s in writeAll fuel ps s
  end.

(** The chunk size in force: [w.csize] as line 165-168 set it. *)
Definition chunkSizeOf (s : Writer) : Z :=
  if ChunkSize s =? 0 then 100000000 else ChunkSize s.

(** The length of the whole stream. *)
Definition total (ps : list (list Byte.byte)) : Z := Z.of_nat (length (concat ps)).

(** A Writer that has not been written to or closed. *)
Record fresh (s : Writer) : Prop := {
  fr_start : start s = false;
  fr_done : done s = false;
  fr_cidx : cidx s = 0;
  fr_err : err s = None;
  fr_sends : sends (events s) = []
}.

(** The Writer has taken the bytes [B] without an error, in chunks of [C]
    bytes: the chunks sent so far, followed by the buffer, are [B]; every
    chunk sent is full; the ids run from 1 in the order of sending; the
    buffer is not full. *)
Record chunked (C : Z) (B : list Byte.byte) (s : Writer) : Prop := {
  ch_start : start s = true;
  ch_csize : csize s = C;
  ch_pos : 0 < C ≤ max_int;
  ch_bytes : ∃ b : writeBuffer,
      w s = Some b ∧ wb_Len b < C
      ∧ concat (map buf (sends (events s))) ++ b = B;
  ch_full : Forall (λ c, wb_Len (buf c) = C) (sends (events s));
  ch_ids : map id (sends (events s)) =
           map Z.of_nat (seq 1 (length (sends (events s))));
  ch_cidx : cidx s = Z.of_nat (length (sends (events s)))
}.

(** The calls [setErr(e1); ...; setErr(en)], in that order. *)
Definition setErrs (es : list (option error)) (s : Writer) : Writer :=
  fold_left (λ s e, setErr e s) es s.

(** The first non-nil error of a list. *)
Fixpoint firstErr (es : list (option error)) : option error :=
  match es with
  | [] => None
  | Some e :: _ => Some e
  | None :: es => firstErr es
  end.

(** The Writer without the part that the upload goroutines share with it:
    the stored error, the parked goroutines and the record of events. *)
Definition front (s : Writer) : Writer :=
  set_err None (set_workers [] (set_events [] s)).

(** The endpoint that the i-th attempt of a retry loop goes to, for a loop
    that starts on [fc] and whose requests for a fresh endpoint are the
    [G]-th and the following ones. *)
Definition endpointAt (G : nat) (fc : endpoint) (i : nat) : endpoint :=
  match i with
  | O => fc
  | S j => match getUploadPartURL env (G + j) with inr f => f | inl _ => fc end
  end.

(** How many calls of the Writer's cancel [setErr e] makes when [old] is
    the stored error. *)
Definition stores (old e : option error) : nat :=
  match old, e with
  | None, Some _ => 1%nat
  | _, _ => O
  end.

(** The k-th pause of the retry policy of the specification:
    min(15ms * 2^k, 15s), in nanoseconds. *)
Definition backoff (k : nat) : Z :=
  Z.min (15 * Millisecond * 2 ^ Z.of_nat k) (15 * Second).

(** Whether the k-th [uploadPart] of a buffer of [len] bytes counts as
    failed (line 135), and whether the classifier has it retried. *)
Definition partFailed (k : nat) (len : Z) : bool :=
  negb (fst (uploadPart env k len) =? len)
  || bool_decide (snd (uploadPart env k len) ≠ None).
Definition partRetried (k : nat) (len : Z) : bool :=
  partFailed k len && reupload env (snd (uploadPart env k len)).

Definition is_inl {A B} (x : A + B) : bool :=
  match x with inl _ => true | inr _ => false end.

(** What a retry loop does with its endpoints and pauses, whichever upload
    call it makes. *)
Inductive policy_step :=
| PAttempt (ep : endpoint)
| PSleep (d : Z)
| PAcquire.

Definition policy_of (e : event) : list policy_step :=
  match e with
  | EUploadFile ue _ _ _ _ _ _ => [PAttempt ue]
  | EUploadPart fc _ _ _ _ => [PAttempt fc]
  | EGetUploadURL | EGetUploadPartURL => [PAcquire]
  | ESleep d => [PSleep d]
  | _ => []
  end.

Fixpoint policy (tr : list event) : list policy_step :=
  match tr with
  | [] => []
  | e :: tr => policy tr ++ policy_of e
  end.

Fixpoint erase_sleeps (π : list policy_step) : list policy_step :=
  match π with
  | [] => []
  | PSleep _ :: π => erase_sleeps π
  | p :: π => p :: erase_sleeps π
  end.

(** How an upload attempt ends for the loop around it. *)
Inductive verdict := Succeeded | Retried | Fatal.

Definition fileVerdict (k : nat) : verdict :=
  match uploadFile env k with
  | inr _ => Succeeded
  | inl e => if reupload env (Some e) then Retried else Fatal
  end.

Definition partVerdict (k : nat) (len : Z) : verdict :=
  if partFailed k len
  then if reupload env (snd (uploadPart env k len)) then Retried else Fatal
  else Succeeded.

(** Whether a loop ended because its upload went through. *)
Definition fileDone (o : outcome (option error)) : bool :=
  match o with Done None _ => true | _ => false end.
Definition partDone (o : outcome (option endpoint)) : bool :=
  match o with Done (Some _) _ => true | _ => false end.

(** The fields that only [Write], [sendChunk] and [Close] themselves assign. *)
Definition core (s : Writer) : Z * Z * bool * bool * Z * option writeBuffer :=
  (ChunkSize s, csize s, start s, done s, cidx s, w s).

(** [s'] comes after [s] without a chunk sent in between and without a
    change to [core]; an error stored in [s] is still the stored one. *)
Record stable (s s' : Writer) : Prop := {
  st_core : core s' = core s;
  st_sends : sends (events s') = sends (events s);
  st_err : ∀ x : error, err s = Some x → err s' = Some x
}.

(** The metadata [WithAttrs] leaves in the Writer for the attributes [a]. *)
Definition metadata (src : attrmap) (a : Attrs) : attrmap :=
  if (Z.of_nat (size src) <? 10) && negb (IsZero (LastModified a))
  then <[millis_key := pretty (Z.quot (UnixNano (LastModified a)) 1000000)]> src
  else src.

(** C5 as the specification states it: the retries go on for as long as
    the classifier has the failures retried. *)
Definition retries_while_retryable : Prop :=
  ∀ (fuel : nat) (c : chunk) (fc : endpoint) (s : Writer) (n : nat),
    (n < fuel)%nat →
    (∀ i : nat, (i < n)%nat →
       partRetried (calls is_uploadPart (events s) + i) (wb_Len (buf c)) = true) →
    (calls is_uploadPart (events s) + n <
     calls is_uploadPart
       (events (final (redo_part fuel c (int_mul Millisecond 15) fc s))))%nat.

(** C8 as the specification states it: answered alike, the two retry
    loops take the same course, pauses included. *)
Definition same_retry_course : Prop :=
  ∀ (fuel : nat) (ue : endpoint) (b : writeBuffer) (sha ctype : string)
    (s1 : Writer) (c : chunk) (s2 : Writer),
    (∀ i : nat,
       fileVerdict (calls is_uploadFile (events s1) + i) =
       partVerdict (calls is_uploadPart (events s2) + i) (wb_Len (buf c))) →
    (∀ i : nat,
       getUploadURL env (calls is_getUploadURL (events s1) + i) =
       getUploadPartURL env (calls is_getUploadPartURL (events s2) + i)) →
    ∃ π : list policy_step,
      policy (events (final (redo_part fuel c (int_mul Millisecond 15) ue s2))) =
        policy (events s2) ++ π
      ∧ policy (events (final (redo_file fuel ue b sha ctype s1))) =
        policy (events s1) ++ π.

(** C9 as the specification states it for [Close]: with an error stored,
    [Close] returns it and does no work. *)
Definition Close_short_circuits : Prop :=
  ∀ (fuel : nat) (s : Writer) (x : error),
    err s = Some x →
    ∃ s' : Writer, Close fuel s = Done (Some x) s' ∧ events s' = events s.

(** An environment in which no collaborator fails, the caller's context
    is never done, and every goroutine has its endpoint by the time the
    pool is started. *)
Record cooperative : Prop := {
  co_url : ∀ n : nat, is_inl (getUploadURL env n) = false;
  co_file : ∀ n : nat, is_inl (uploadFile env n) = false;
  co_start : ∀ n : nat, is_inl (startLargeFile env n) = false;
  co_parturl : ∀ n : nat, is_inl (getUploadPartURL env n) = false;
  co_part : ∀ (n : nat) (len : Z), uploadPart env n len = (len, None);
  co_finish : ∀ n : nat, is_inl (finishLargeFile env n) = false;
  co_ctx : ∀ t : nat, ctxParent env t = None;
  co_prompt : ∀ i : nat, late env i = false
}.

(** A Writer with no error and no cancellation, nothing to resume, and,
    once the pool is started, an open channel with a goroutine parked on
    it. *)
Record healthy (s : Writer) : Prop := {
  h_err : err s = None;
  h_cancel : calls is_cancel (events s) = O;
  h_seen : seen s = ∅;
  h_once : cidx s = 0 ∨ once s = true;
  h_pool : if once s
           then ready s = ChanOpen ∧ workers s ≠ [] ∧ file s ≠ None
           else Resume s = false
}.

(** The bytes the Writer holds or has handed over: the chunks sent, in
    the order of sending, and then the buffer. *)
Definition buffered (s : Writer) : list Byte.byte := default [] (w s).
Definition stream (s : Writer) : list Byte.byte :=
  concat (map buf (sends (events s))) ++ buffered s.

(** The Writer's own cancel has been called once if an error is stored,
    and never if none is. *)
Definition settled (s : Writer) : Prop :=
  calls is_cancel (events s) = match err s with Some _ => 1%nat | None => O end.

(** The events of [getLargeFile]: the session is started or listed. *)
Definition is_listing (e : event) : bool :=
  is_startLargeFile e || is_listObjects e || is_listParts e.

(** The Writer without what [getLargeFile] assigns: [seen], [Resume] and
    the record of events. *)
Definition shell (s : Writer) : Writer :=
  set_seen ∅ (set_Resume false (set_events [] s)).

(** How many of the [n] requests for a part endpoint, from the k-th on,
    are granted. *)
Fixpoint granted (k n : nat) : nat :=
  match n with
  | O => O
  | S n => ((if is_inl (getUploadPartURL env k) then 0 else 1) + granted (S k) n)%nat
  end.

(** The continuation markers given to [listParts], oldest first. *)
Fixpoint cursors (tr : list event) : list Z :=
  match tr with
  | [] => []
  | EListParts _ next :: tr => cursors tr ++ [next]
  | _ :: tr => cursors tr
  end.

(** The ids under which parts have been uploaded, most recent first. *)
Fixpoint uploaded (tr : list event) : list Z :=
  match tr with
  | [] => []
  | EUploadPart _ _ _ _ n :: tr => n :: uploaded tr
  | _ :: tr => uploaded tr
  end.

(** No part has been uploaded under an id that [seen] holds; and none at
    all before the channel is made, which is not before the pool is
    started. *)
Record unseen (s : Writer) : Prop := {
  un_once : once s = false → ready s = ChanNil;
  un_nil : ready s = ChanNil → uploaded (events s) = [];
  un_seen : Forall (λ n, seen s !! n = None) (uploaded (events s))
}.

(** What a part upload requested carries: a chunk that was handed over
    before, its bytes under its id, with the hash and the length of those
    bytes. *)
Definition carries (tr : list event) (e : event) : Prop :=
  match e with
  | EUploadPart _ body sha len n =>
      {| id := n; buf := body |} ∈ sends tr
      ∧ sha = Hash env body ∧ len = wb_Len body
  | _ => True
  end.

Definition faithful (s : Writer) : Prop := Forall (carries (events s)) (events s).

(** * Properties *)

(** ** Machine integers *)

Lemma wrap_small (z : Z) : - 2 ^ 63 ≤ z < 2 ^ 63 → wrap z = z.
Proof.
  intros Hz. unfold wrap.
  rewrite Z.mod_small; lia.
Qed.

Lemma fifteen_seconds : int_mul Second 15 = 15000000000.
Proof. reflexivity. Qed.

(** ** ErrorSink *)

Lemma setErr_nil (s : Writer) : setErr None s = s.
Proof. reflexivity. Qed.

Lemma setErr_stored (e : option error) (s : Writer) (x : error) :
  err s = Some x → setErr e s = s.
Proof. intros H. unfold setErr. rewrite H. by destruct e. Qed.

Lemma setErr_first (x : error) (s : Writer) :
  err s = None → setErr (Some x) s = cancel (set_err (Some x) s).
Proof. intros H. unfold setErr. by rewrite H. Qed.

Lemma setErr_keeps (e : option error) (s : Writer) (x : error) :
  err s = Some x → err (setErr e s) = Some x.
Proof. intros H. by rewrite (setErr_stored e s x H). Qed.

Lemma setErr_some (x : error) (s : Writer) : err (setErr (Some x) s) ≠ None.
Proof. unfold setErr. destruct (err s) eqn:E; simpl; congruence. Qed.

Lemma setErr_value (x : error) (s : Writer) :
  err (setErr (Some x) s) = Some (default x (err s)).
Proof. unfold setErr. destruct (err s) eqn:E; simpl; congruence. Qed.

Lemma setErr_front (e : option error) (s : Writer) : front (setErr e s) = front s.
Proof. unfold setErr. destruct e, (err s); reflexivity. Qed.

Lemma setErr_sends (e : option error) (s : Writer) :
  sends (events (setErr e s)) = sends (events s).
Proof. unfold setErr. destruct e, (err s); reflexivity. Qed.

Lemma setErr_sleeps (e : option error) (s : Writer) :
  sleeps (events (setErr e s)) = sleeps (events s).
Proof. unfold setErr. destruct e, (err s); reflexivity. Qed.

Lemma setErr_calls (k : event → bool) (e : option error) (s : Writer) :
  k ECancel = false → calls k (events (setErr e s)) = calls k (events s).
Proof.
  intros Hk. unfold setErr. destruct e, (err s); try reflexivity.
  simpl. by rewrite Hk.
Qed.

Lemma setErrs_stored (es : list (option error)) (s : Writer) (x : error) :
  err s = Some x → setErrs es s = s.
Proof.
  revert s. induction es as [|e es IH]; intros s H; [done|].
  simpl. rewrite (setErr_stored e s x H). by apply IH.
Qed.

(** C4. [setErr] with the nil error does nothing.  Over any sequence of
    [setErr] calls the error that ends up stored is the one already stored,
    or else the first non-nil error of the sequence; the context is cancelled
    exactly once more when, and only when, that first error gets stored; and
    [getErr] returns the stored error. *)
Theorem setErr_first_writer_wins (es : list (option error)) (s : Writer) :
  setErr None s = s
  ∧ getErr (setErrs es s) = err (setErrs es s)
  ∧ err (setErrs es s) =
      match err s with Some x => Some x | None => firstErr es end
  ∧ calls is_cancel (events (setErrs es s)) =
      (calls is_cancel (events s) +
       match err s, firstErr es with None, Some _ => 1 | _, _ => 0 end)%nat.
Proof.
  split; [reflexivity|]. split; [reflexivity|].
  revert s. induction es as [|e es IH]; intros s.
  - simpl. destruct (err s); split; (reflexivity || lia).
  - destruct (err s) as [x|] eqn:Es.
    + rewrite (setErrs_stored _ s x Es), Es. split; [reflexivity | lia].
    + destruct e as [y|].
      * change (setErrs (Some y :: es) s) with (setErrs es (setErr (Some y) s)).
        rewrite (setErr_first y s Es).
        rewrite (setErrs_stored es _ y) by reflexivity.
        split; [reflexivity | simpl; lia].
      * change (setErrs (None :: es) s) with (setErrs es s).
        destruct (IH s) as [H1 H2]. rewrite Es in H1, H2. by split.
Qed.

(** ** The upload goroutine *)

Lemma backoff_0 : backoff 0 = int_mul Millisecond 15.
Proof. reflexivity. Qed.

Lemma backoff_range (k : nat) : 15 * Millisecond ≤ backoff k ≤ 15 * Second.
Proof.
  unfold backoff, Millisecond, Second.
  assert (1 ≤ 2 ^ Z.of_nat k) by (apply Z.pow_le_mono_r with (b := 0); lia).
  lia.
Qed.

(** Lines 138-141 take the k-th pause to the next one. *)
Lemma backoff_next (k : nat) :
  (if int_mul (backoff k) 2 >? int_mul Second 15
   then int_mul Second 15 else int_mul (backoff k) 2) = backoff (S k).
Proof.
  pose proof (backoff_range k) as Hr.
  rewrite fifteen_seconds. unfold int_mul.
  rewrite wrap_small by (unfold Millisecond, Second in Hr; lia).
  unfold backoff in *. unfold Millisecond, Second in *.
  replace (Z.of_nat (S k)) with (Z.of_nat k + 1) by lia.
  rewrite Z.pow_add_r by lia. change (2 ^ 1) with 2.
  destruct (Z.gtb_spec (Z.min (15 * 1000000 * 2 ^ Z.of_nat k) (15 * 1000000000) * 2)
              15000000000); lia.
Qed.

Lemma backoff_mono (k : nat) : backoff k ≤ backoff (S k) ≤ 2 * backoff k.
Proof.
  pose proof (backoff_range k) as Hr.
  unfold backoff in *. unfold Millisecond, Second in *.
  replace (Z.of_nat (S k)) with (Z.of_nat k + 1) by lia.
  rewrite Z.pow_add_r by lia. change (2 ^ 1) with 2. lia.
Qed.

Lemma redo_part_S (fuel : nat) (c : chunk) (sleep : Z) (fc : endpoint) (s : Writer) :
  redo_part (S fuel) c sleep fc s =
  let s1 := log (EUploadPart fc (buf c) (Hash env (buf c)) (wb_Len (buf c)) (id c)) s in
  let r := uploadPart env (calls is_uploadPart (events s)) (wb_Len (buf c)) in
  if partFailed (calls is_uploadPart (events s)) (wb_Len (buf c)) then
    if reupload env (snd r) then
      let s2 := log EGetUploadPartURL (log (ESleep sleep) s1) in
      match getUploadPartURL env (calls is_getUploadPartURL (events s)) with
      | inl e' => Done None (setErr (Some e') s2)
      | inr f =>
          redo_part fuel c
            (if int_mul sleep 2 >? int_mul Second 15
             then int_mul Second 15 else int_mul sleep 2) f s2
      end
    else Done None (setErr (snd r) s1)
  else Done (Some fc) s1.
Proof.
  unfold partFailed. simpl.
  destruct (uploadPart env (calls is_uploadPart (events s)) (wb_Len (buf c)));
    reflexivity.
Qed.

(** Every pause of the goroutine is the next entry of the backoff table. *)
Lemma redo_part_sleeps (fuel : nat) : ∀ (c : chunk) (k : nat) (fc : endpoint) (s : Writer),
  ∃ m : nat,
    sleeps (events (final (redo_part fuel c (backoff k) fc s))) =
    sleeps (events s) ++ map backoff (seq k m).
Proof.
  induction fuel as [|fuel IH]; intros c k fc s.
  - exists O. simpl. by rewrite app_nil_r.
  - rewrite redo_part_S. cbv zeta.
    destruct (partFailed _ _); [|exists O; simpl; by rewrite app_nil_r].
    destruct (reupload env _).
    2:{ exists O. cbn [final]. rewrite setErr_sleeps. simpl. by rewrite app_nil_r. }
    destruct (getUploadPartURL env _) as [e'|f].
    + exists 1%nat. cbn [final]. rewrite setErr_sleeps. reflexivity.
    + rewrite backoff_next.
      destruct (IH c (S k) f
        (log EGetUploadPartURL (log (ESleep (backoff k))
          (log (EUploadPart fc (buf c) (Hash env (buf c)) (wb_Len (buf c)) (id c)) s))))
        as [m Hm].
      exists (S m). rewrite Hm. simpl. by rewrite <- app_assoc.
Qed.

Lemma redo_part_front (fuel : nat) : ∀ (c : chunk) (sl : Z) (fc : endpoint) (s : Writer),
  front (final (redo_part fuel c sl fc s)) = front s.
Proof.
  induction fuel as [|fuel IH]; intros c sl fc s; [reflexivity|].
  rewrite redo_part_S. cbv zeta.
  destruct (partFailed _ _); [|reflexivity].
  destruct (reupload env _); [|cbn [final]; by rewrite setErr_front].
  destruct (getUploadPartURL env _); [cbn [final]; by rewrite setErr_front|].
  by rewrite IH.
Qed.

Lemma redo_part_sends (fuel : nat) : ∀ (c : chunk) (sl : Z) (fc : endpoint) (s : Writer),
  sends (events (final (redo_part fuel c sl fc s))) = sends (events s).
Proof.
  induction fuel as [|fuel IH]; intros c sl fc s; [reflexivity|].
  rewrite redo_part_S. cbv zeta.
  destruct (partFailed _ _); [|reflexivity].
  destruct (reupload env _); [|cbn [final]; by rewrite setErr_sends].
  destruct (getUploadPartURL env _); [cbn [final]; by rewrite setErr_sends|].
  by rewrite IH.
Qed.

Lemma redo_part_err (fuel : nat) : ∀ (c : chunk) (sl : Z) (fc : endpoint) (s : Writer) (x : error),
  err s = Some x → err (final (redo_part fuel c sl fc s)) = Some x.
Proof.
  induction fuel as [|fuel IH]; intros c sl fc s x Hx; [done|].
  rewrite redo_part_S. cbv zeta.
  destruct (partFailed _ _); [|done].
  destruct (reupload env _); [|cbn [final]; by apply setErr_keeps].
  destruct (getUploadPartURL env _); [cbn [final]; by apply setErr_keeps|].
  by apply IH.
Qed.

Lemma setErr_err (e : option error) (s : Writer) :
  err (setErr e s) = firstErr [err s; e].
Proof. unfold setErr. by destruct e, (err s) eqn:E. Qed.

Lemma setErr_cancels (e : option error) (s : Writer) :
  calls is_cancel (events (setErr e s)) =
  (calls is_cancel (events s) + stores (err s) e)%nat.
Proof. unfold setErr, stores. destruct e, (err s); simpl; lia. Qed.

(** As long as the attempts fail retryably and fresh endpoints come, the
    loop goes on: [n] rounds later it stands at its label again, [n] attempts,
    [n] pauses and [n] endpoints further, the pause grown to the (k+n)-th
    entry, on the endpoint it was given last, and nothing stored. *)
Lemma redo_part_rounds (n : nat) : ∀ (fuel : nat) (c : chunk) (k : nat) (fc : endpoint) (s : Writer),
  (∀ i : nat, (i < n)%nat →
     partRetried (calls is_uploadPart (events s) + i) (wb_Len (buf c)) = true
     ∧ is_inl (getUploadPartURL env (calls is_getUploadPartURL (events s) + i)) = false) →
  ∃ s' : Writer,
    redo_part (n + fuel) c (backoff k) fc s =
      redo_part fuel c (backoff (k + n))
        (endpointAt (calls is_getUploadPartURL (events s)) fc n) s'
    ∧ calls is_uploadPart (events s') = (calls is_uploadPart (events s) + n)%nat
    ∧ calls is_getUploadPartURL (events s') = (calls is_getUploadPartURL (events s) + n)%nat
    ∧ sleeps (events s') = sleeps (events s) ++ map backoff (seq k n)
    ∧ err s' = err s
    ∧ calls is_cancel (events s') = calls is_cancel (events s).
Proof.
  induction n as [|n IH]; intros fuel c k fc s H.
  - exists s. rewrite Nat.add_0_r, app_nil_r. repeat split; simpl; lia.
  - destruct (H O ltac:(lia)) as [H0 H0'].
    rewrite Nat.add_0_r in H0, H0'.
    apply andb_true_iff in H0 as [Hf Hr].
    change (S n + fuel)%nat with (S (n + fuel)).
    rewrite redo_part_S. cbv zeta. rewrite Hf, Hr.
    destruct (getUploadPartURL env (calls is_getUploadPartURL (events s)))
      as [e'|f] eqn:Hu; [discriminate|].
    rewrite backoff_next.
    set (s2 := log EGetUploadPartURL _).
    destruct (IH fuel c (S k) f s2) as (s' & E & A & B & C & D & F).
    { intros i Hi. destruct (H (S i) ltac:(lia)) as [Hi1 Hi2].
      subst s2. simpl.
      replace (S (calls is_uploadPart (events s) + i))
        with (calls is_uploadPart (events s) + S i)%nat by lia.
      replace (S (calls is_getUploadPartURL (events s) + i))
        with (calls is_getUploadPartURL (events s) + S i)%nat by lia.
      by split. }
    exists s'. rewrite E.
    replace (k + S n)%nat with (S k + n)%nat by lia.
    assert (Hep : endpointAt (calls is_getUploadPartURL (events s2)) f n =
                  endpointAt (calls is_getUploadPartURL (events s)) fc (S n)).
    { subst s2. simpl. destruct n as [|j]; simpl.
      - by rewrite Nat.add_0_r, Hu.
      - destruct (H (S j) ltac:(lia)) as [_ Hj].
        replace (S (calls is_getUploadPartURL (events s) + j))
          with (calls is_getUploadPartURL (events s) + S j)%nat by lia.
        by destruct (getUploadPartURL env (_ + S j)). }
    rewrite Hep. split; [reflexivity|]. subst s2; simpl in *.
    rewrite A, B, C, D, F. repeat split; try lia.
    by rewrite <- app_assoc.
Qed.

(** One more round of fuel makes one more attempt. *)
Lemma redo_part_attempt (fuel : nat) (c : chunk) (sl : Z) (fc : endpoint) (s : Writer) :
  (calls is_uploadPart (events s) <
   calls is_uploadPart (events (final (redo_part (S fuel) c sl fc s))))%nat.
Proof.
  revert c sl fc s. induction fuel as [|fuel IH]; intros c sl fc s.
  - rewrite redo_part_S. cbv zeta.
    destruct (partFailed _ _); [|cbn; lia].
    destruct (reupload env _).
    + destruct (getUploadPartURL env _); cbn [final]; [|cbn; lia].
      rewrite setErr_calls by reflexivity. cbn; lia.
    + cbn [final]. rewrite setErr_calls by reflexivity. cbn; lia.
  - rewrite redo_part_S. cbv zeta.
    destruct (partFailed _ _); [|cbn; lia].
    destruct (reupload env _).
    + destruct (getUploadPartURL env _) as [e'|f].
      * cbn [final]. rewrite setErr_calls by reflexivity. cbn; lia.
      * set (sl' := if int_mul sl 2 >? _ then _ else _). clearbody sl'.
        set (s2 := log EGetUploadPartURL _).
        pose proof (IH c sl' f s2) as Hlt.
        assert (Hs2 : calls is_uploadPart (events s2) =
                      S (calls is_uploadPart (events s))) by reflexivity.
        lia.
    + cbn [final]. rewrite setErr_calls by reflexivity. cbn; lia.
Qed.

Lemma handle_unseen (fuel : nat) (fc : endpoint) (c : chunk) (s : Writer) :
  seen s !! id c = None →
  handle fuel fc c s = redo_part fuel c (int_mul Millisecond 15) fc s.
Proof. intros H. unfold handle. by rewrite H. Qed.

(** C3. A received chunk whose id is among the parts seen by the resumed
    upload is never uploaded: with the stored hash equal to its own the
    goroutine goes on to the next chunk and nothing at all happens; with a
    different hash the goroutine reports the mismatch through [setErr] and
    returns, without an upload call, a pause or a retry.  The mismatch is
    then the stored error unless an earlier error already is. *)
Theorem seen_chunk_skipped_or_fatal (fuel : nat) (fc : endpoint) (c : chunk)
    (s : Writer) (sha : string) :
  seen s !! id c = Some sha →
  handle fuel fc c s =
    (if String.eqb sha (Hash env (buf c))
     then Done (Some fc) s
     else Done None (setErr (Some mismatch) s))
  ∧ calls is_uploadPart (events (final (handle fuel fc c s))) =
      calls is_uploadPart (events s)
  ∧ calls is_getUploadPartURL (events (final (handle fuel fc c s))) =
      calls is_getUploadPartURL (events s)
  ∧ sleeps (events (final (handle fuel fc c s))) = sleeps (events s)
  ∧ err (setErr (Some mismatch) s) = Some (default mismatch (err s)).
Proof.
  intros H. unfold handle. rewrite H.
  destruct (String.eqb sha (Hash env (buf c))); cbn [negb final].
  - repeat split. apply setErr_value.
  - rewrite !setErr_calls by reflexivity. rewrite setErr_sleeps.
    repeat split. apply setErr_value.
Qed.

(** C5, amended.  In the retry loop of the upload goroutine the k-th
    pause is min(15ms * 2^k, 15s): the pauses start at 15 ms, never shrink,
    at most double and never exceed 15 s, and there is exactly one before
    each request for a fresh endpoint.  There is no limit on the attempts:
    whatever [n], after [n] failures that the classifier has retried, each
    followed by a fresh endpoint, the loop has paused [n] times, by the
    first [n] entries of the table, and makes attempt [n+1], on the
    endpoint it was given last.  With that attempt the loop ends in one of
    three ways only.  (a) The attempt goes through: the goroutine keeps its
    endpoint and nothing is stored.  (b) It fails and the classifier
    refuses the retry: its error goes to [setErr] and the goroutine
    returns, without a further pause or request.  (c) It fails, the
    classifier has it retried, and after the pause no fresh endpoint can
    be had: the error of that request goes to [setErr], the classifier not
    being asked about it, and the goroutine returns.  An error given to
    [setErr] is the stored one from then on, and the Writer's cancel is
    called, unless an earlier error is stored already. *)
Theorem backoff_schedule (n fuel : nat) (c : chunk) (fc : endpoint) (s : Writer) :
  (∀ i : nat, (i < n)%nat →
     partRetried (calls is_uploadPart (events s) + i) (wb_Len (buf c)) = true
     ∧ is_inl (getUploadPartURL env (calls is_getUploadPartURL (events s) + i)) = false) →
  (n < fuel)%nat →
  (* the table of pauses *)
  (∀ k : nat, backoff k = Z.min (15 * Millisecond * 2 ^ Z.of_nat k) (15 * Second))
  ∧ backoff 0 = 15 * Millisecond
  ∧ (∀ k : nat, backoff k ≤ backoff (S k) ≤ 2 * backoff k ∧ backoff k ≤ 15 * Second)
  (* attempt n+1 is made, after n pauses *)
  ∧ (calls is_uploadPart (events s) + n <
     calls is_uploadPart
       (events (final (redo_part fuel c (int_mul Millisecond 15) fc s))))%nat
  ∧ (∃ m : nat,
       sleeps (events (final (redo_part fuel c (int_mul Millisecond 15) fc s))) =
       sleeps (events s) ++ map backoff (seq 0 (n + m)))
  (* (a) it goes through *)
  ∧ (partFailed (calls is_uploadPart (events s) + n) (wb_Len (buf c)) = false →
     ∃ s' : Writer,
       redo_part fuel c (int_mul Millisecond 15) fc s =
         Done (Some (endpointAt (calls is_getUploadPartURL (events s)) fc n)) s'
       ∧ calls is_uploadPart (events s') = (calls is_uploadPart (events s) + n + 1)%nat
       ∧ calls is_getUploadPartURL (events s') =
           (calls is_getUploadPartURL (events s) + n)%nat
       ∧ sleeps (events s') = sleeps (events s) ++ map backoff (seq 0 n)
       ∧ err s' = err s
       ∧ calls is_cancel (events s') = calls is_cancel (events s))
  (* (b) it fails and is not retried *)
  ∧ (partFailed (calls is_uploadPart (events s) + n) (wb_Len (buf c)) = true →
     reupload env (snd (uploadPart env (calls is_uploadPart (events s) + n)
                          (wb_Len (buf c)))) = false →
     ∃ s' : Writer,
       redo_part fuel c (int_mul Millisecond 15) fc s = Done None s'
       ∧ calls is_uploadPart (events s') = (calls is_uploadPart (events s) + n + 1)%nat
       ∧ calls is_getUploadPartURL (events s') =
           (calls is_getUploadPartURL (events s) + n)%nat
       ∧ sleeps (events s') = sleeps (events s) ++ map backoff (seq 0 n)
       ∧ err s' =
           firstErr [err s; snd (uploadPart env (calls is_uploadPart (events s) + n)
                                   (wb_Len (buf c)))]
       ∧ calls is_cancel (events s') =
           (calls is_cancel (events s)
            + stores (err s) (snd (uploadPart env (calls is_uploadPart (events s) + n)
                                     (wb_Len (buf c)))))%nat)
  (* (c) it is to be retried, and no endpoint can be had *)
  ∧ (∀ e' : error,
     partRetried (calls is_uploadPart (events s) + n) (wb_Len (buf c)) = true →
     getUploadPartURL env (calls is_getUploadPartURL (events s) + n) = inl e' →
     ∃ s' : Writer,
       redo_part fuel c (int_mul Millisecond 15) fc s = Done None s'
       ∧ calls is_uploadPart (events s') = (calls is_uploadPart (events s) + n + 1)%nat
       ∧ calls is_getUploadPartURL (events s') =
           (calls is_getUploadPartURL (events s) + n + 1)%nat
       ∧ sleeps (events s') = sleeps (events s) ++ map backoff (seq 0 (S n))
       ∧ err s' = firstErr [err s; Some e']
       ∧ calls is_cancel (events s') =
           (calls is_cancel (events s) + stores (err s) (Some e'))%nat).
Proof.
  intros Hretry Hn.
  split; [intros k; unfold backoff; reflexivity|].
  split; [vm_compute; reflexivity|].
  split; [intros k; split; [apply backoff_mono | apply backoff_range]|].
  destruct (redo_part_rounds n (fuel - n) c 0 fc s Hretry)
    as (s1 & E & A & B & C & D & F).
  replace (n + (fuel - n))%nat with fuel in E by lia.
  rewrite <- backoff_0, E. cbn [Nat.add] in *.
  destruct (fuel - n)%nat as [|f] eqn:Ef; [lia|].
  set (fc1 := endpointAt _ fc n) in *.
  split.
  { pose proof (redo_part_attempt f c (backoff n) fc1 s1). lia. }
  split.
  { destruct (redo_part_sleeps (S f) c n fc1 s1) as [m Hm].
    exists m. by rewrite Hm, C, <- app_assoc, <- map_app, <- seq_app. }
  rewrite redo_part_S. cbv zeta. rewrite A, B.
  split; [|split].
  - intros Hf. rewrite Hf. eexists. split; [reflexivity|].
    cbn [events log set_events err calls sleeps is_uploadPart is_getUploadPartURL
         is_cancel].
    rewrite A, B, C, D, F. repeat split; lia.
  - intros Hf Hr. rewrite Hf, Hr. eexists. split; [reflexivity|].
    rewrite !setErr_calls by reflexivity.
    rewrite setErr_sleeps, setErr_err, setErr_cancels.
    cbn [events log set_events err calls sleeps is_uploadPart is_getUploadPartURL
         is_cancel].
    rewrite A, B, C, D, F. repeat split; lia.
  - intros e' Hp Hu. apply andb_true_iff in Hp as [Hf Hr].
    rewrite Hf, Hr, Hu. eexists. split; [reflexivity|].
    rewrite !setErr_calls by reflexivity.
    rewrite setErr_sleeps, setErr_err, setErr_cancels.
    cbn [events log set_events err calls sleeps is_uploadPart is_getUploadPartURL
         is_cancel].
    rewrite A, B, C, D, F.
    replace (S n) with (n + 1)%nat by lia. rewrite seq_app, map_app, app_assoc.
    repeat split; lia.
Qed.

(** ** The simple upload *)

Lemma redo_file_S (fuel : nat) (ue : endpoint) (b : writeBuffer) (sha ctype : string)
    (s : Writer) :
  redo_file (S fuel) ue b sha ctype s =
  let s1 := log (EUploadFile ue b (wb_Len b) (name s) ctype sha (deref s (info s))) s in
  match uploadFile env (calls is_uploadFile (events s)) with
  | inl e =>
      if reupload env (Some e) then
        match getUploadURL env (calls is_getUploadURL (events s)) with
        | inl e' => Done (Some e') (log EGetUploadURL s1)
        | inr u => redo_file fuel u b sha ctype (log EGetUploadURL s1)
        end
      else Done (Some e) s1
  | inr f => Done None (set_o_f (Some f) s1)
  end.
Proof. reflexivity. Qed.

Lemma redo_file_sleeps (fuel : nat) : ∀ (ue : endpoint) (b : writeBuffer)
    (sha ctype : string) (s : Writer),
  sleeps (events (final (redo_file fuel ue b sha ctype s))) = sleeps (events s).
Proof.
  induction fuel as [|fuel IH]; intros ue b sha ctype s; [reflexivity|].
  rewrite redo_file_S. cbv zeta.
  destruct (uploadFile env _); [|reflexivity].
  destruct (reupload env _); [|reflexivity].
  destruct (getUploadURL env _); [reflexivity|].
  by rewrite IH.
Qed.

Lemma simpleWriteFile_sleeps (fuel : nat) (s : Writer) :
  sleeps (events (final (simpleWriteFile fuel s))) = sleeps (events s).
Proof.
  unfold simpleWriteFile.
  destruct (getUploadURL env _); [reflexivity|].
  destruct (w _); [|reflexivity].
  simpl. by rewrite redo_file_sleeps.
Qed.

Lemma erase_sleeps_app (π ρ : list policy_step) :
  erase_sleeps (π ++ ρ) = erase_sleeps π ++ erase_sleeps ρ.
Proof.
  induction π as [|p π IH]; [reflexivity|].
  destruct p; simpl; by rewrite IH.
Qed.

Lemma setErr_policy (e : option error) (s : Writer) :
  policy (events (setErr e s)) = policy (events s).
Proof.
  unfold setErr. destruct e, (err s); try reflexivity.
  simpl. by rewrite app_nil_r.
Qed.

(** What the two retry loops do share.  Against environments that answer
    them alike (attempt for attempt the same verdict, request for request
    the same endpoint) the retry loop of the simple upload and that of the
    upload goroutine make the same attempts on the same endpoints, fetch a
    fresh endpoint at the same places and end alike; but the simple upload
    never pauses: its course is that of the goroutine with the pauses
    removed. *)
Lemma simple_retry_rotates_without_backoff (fuel : nat) :
  ∀ (ue : endpoint) (b : writeBuffer) (sha ctype : string) (s1 : Writer)
    (c : chunk) (sl : Z) (s2 : Writer),
  (∀ i : nat,
     fileVerdict (calls is_uploadFile (events s1) + i) =
     partVerdict (calls is_uploadPart (events s2) + i) (wb_Len (buf c))) →
  (∀ i : nat,
     getUploadURL env (calls is_getUploadURL (events s1) + i) =
     getUploadPartURL env (calls is_getUploadPartURL (events s2) + i)) →
  (∃ π : list policy_step,
     policy (events (final (redo_part fuel c sl ue s2))) = policy (events s2) ++ π
     ∧ policy (events (final (redo_file fuel ue b sha ctype s1))) =
         policy (events s1) ++ erase_sleeps π)
  ∧ fileDone (redo_file fuel ue b sha ctype s1) = partDone (redo_part fuel c sl ue s2)
  ∧ sleeps (events (final (redo_file fuel ue b sha ctype s1))) = sleeps (events s1).
Proof.
  induction fuel as [|fuel IH]; intros ue b sha ctype s1 c sl s2 Hv Hu.
  { split; [exists []; simpl; by rewrite !app_nil_r|]. by split. }
  split; [|split; [|apply redo_file_sleeps]].
  - pose proof (Hv O) as Hv0. pose proof (Hu O) as Hu0.
    rewrite !Nat.add_0_r in Hv0, Hu0.
    unfold fileVerdict, partVerdict in Hv0.
    rewrite redo_part_S, redo_file_S. cbv zeta.
    destruct (uploadFile env _) as [e|f].
    + destruct (reupload env (Some e)).
      * destruct (partFailed _ _); [|discriminate].
        destruct (reupload env (snd _)); [|discriminate].
        rewrite Hu0. destruct (getUploadPartURL env _) as [e'|u].
        -- exists [PAttempt ue; PSleep sl; PAcquire]. cbn [final].
           rewrite setErr_policy. simpl. rewrite <- !app_assoc. by split.
        -- set (sl' := if int_mul sl 2 >? _ then _ else _).
           set (t1 := log EGetUploadURL _). set (t2 := log EGetUploadPartURL _).
           destruct (IH u b sha ctype t1 c sl' t2) as [(π & P2 & P1) _].
           { intros i. subst t1 t2. simpl.
             generalize (Hv (S i)). by rewrite <- !Nat.add_succ_comm. }
           { intros i. subst t1 t2. simpl.
             generalize (Hu (S i)). by rewrite <- !Nat.add_succ_comm. }
           exists ([PAttempt ue; PSleep sl; PAcquire] ++ π).
           rewrite P1, P2. subst t1 t2. simpl. rewrite <- !app_assoc. by split.
      * destruct (partFailed _ _); [|discriminate].
        destruct (reupload env (snd _)); [discriminate|].
        exists [PAttempt ue]. cbn [final]. rewrite setErr_policy. by split.
    + destruct (partFailed _ _).
      { destruct (reupload env (snd _)); discriminate. }
      exists [PAttempt ue]. by split.
  - pose proof (Hv O) as Hv0. pose proof (Hu O) as Hu0.
    rewrite !Nat.add_0_r in Hv0, Hu0.
    unfold fileVerdict, partVerdict in Hv0.
    rewrite redo_part_S, redo_file_S. cbv zeta.
    destruct (uploadFile env _) as [e|f].
    + destruct (reupload env (Some e)).
      * destruct (partFailed _ _); [|discriminate].
        destruct (reupload env (snd _)); [|discriminate].
        rewrite Hu0. destruct (getUploadPartURL env _) as [e'|u]; [reflexivity|].
        apply IH.
        -- intros i. simpl. generalize (Hv (S i)). by rewrite <- !Nat.add_succ_comm.
        -- intros i. simpl. generalize (Hu (S i)). by rewrite <- !Nat.add_succ_comm.
      * destruct (partFailed _ _); [|discriminate].
        destruct (reupload env (snd _)); [discriminate|]. reflexivity.
    + destruct (partFailed _ _); [|reflexivity].
      destruct (reupload env (snd _)); discriminate.
Qed.

(** ** What the helpers leave alone *)

Lemma Done_inj {A} (a a' : A) (s s' : Writer) :
  Done a s = Done a' s' → a = a' ∧ s = s'.
Proof. intros H. by injection H. Qed.

Lemma bind_final {A B} (P : Writer → Prop) (m : outcome A)
    (k : A → Writer → outcome B) :
  P (final m) →
  (∀ (a : A) (s : Writer), m = Done a s → P s → P (final (k a s))) →
  P (final (bind m k)).
Proof. destruct m; simpl; eauto. Qed.

Lemma stable_refl (s : Writer) : stable s s.
Proof. by split. Qed.

Lemma stable_trans (s1 s2 s3 : Writer) : stable s1 s2 → stable s2 s3 → stable s1 s3.
Proof.
  intros [A1 B1 C1] [A2 B2 C2]. split.
  - by rewrite A2.
  - by rewrite B2.
  - intros x Hx. by apply C2, C1.
Qed.

Lemma stable_log (e : event) (s : Writer) : is_send e = false → stable s (log e s).
Proof. intros H. split; [reflexivity| |done]. by destruct e. Qed.

Lemma stable_setErr (e : option error) (s : Writer) : stable s (setErr e s).
Proof.
  split.
  - change (core (front (setErr e s)) = core (front s)). by rewrite setErr_front.
  - apply setErr_sends.
  - intros x Hx. by apply setErr_keeps.
Qed.

Lemma stable_front (s s' : Writer) :
  front s' = front s → sends (events s') = sends (events s) →
  (∀ x : error, err s = Some x → err s' = Some x) → stable s s'.
Proof.
  intros Hf Hs He. split; [|done|done].
  change (core (front s') = core (front s)). by rewrite Hf.
Qed.

Lemma prologue_stable (s : Writer) : stable s (final (prologue s)).
Proof.
  unfold prologue. destruct (file s); [|apply stable_refl].
  destruct (getUploadPartURL env _); cbn [final].
  - eapply stable_trans; [|apply stable_setErr]. by apply stable_log.
  - by destruct (ready _).
Qed.

Lemma thread_stable (i : nat) (s : Writer) : stable s (final (thread i s)).
Proof. unfold thread. destruct (late env i); [by split | apply prologue_stable]. Qed.

Lemma spawn_stable (n : nat) : ∀ (i : nat) (s : Writer), stable s (final (spawn i n s)).
Proof.
  induction n as [|n IH]; intros i s; [apply stable_refl|].
  simpl. apply (bind_final (stable s)); [apply thread_stable|].
  intros _ s' _ Hs'. eapply stable_trans; [exact Hs' | apply IH].
Qed.

Lemma redo_part_stable (fuel : nat) (c : chunk) (sl : Z) (fc : endpoint) (s : Writer) :
  stable s (final (redo_part fuel c sl fc s)).
Proof.
  apply stable_front.
  - apply redo_part_front.
  - apply redo_part_sends.
  - apply redo_part_err.
Qed.

Lemma handle_stable (fuel : nat) (fc : endpoint) (c : chunk) (s : Writer) :
  stable s (final (handle fuel fc c s)).
Proof.
  unfold handle. destruct (seen s !! id c).
  - destruct (negb _); [apply stable_setErr | apply stable_refl].
  - apply redo_part_stable.
Qed.

Lemma startFresh_stable (s : Writer) : stable s (final (startFresh s)).
Proof.
  unfold startFresh. destruct (startLargeFile env _); by apply stable_log.
Qed.

Lemma resumeLoop_stable (fuel : nat) : ∀ (next : Z) (sn : gmap Z string) (size : Z)
    (s : Writer),
  stable s (final (resumeLoop fuel next sn size s)).
Proof.
  induction fuel as [|fuel IH]; intros next sn size s; [apply stable_refl|].
  simpl.
  assert (Hfresh : stable s (final (startFresh
            (set_Resume false (log (EListObjects (name s)) s))))).
  { eapply stable_trans; [|apply startFresh_stable]. by split. }
  destruct (ListObjects env _) as [e|objs]; [by apply stable_log|].
  destruct objs as [|o objs]; [exact Hfresh|].
  destruct (negb _); [exact Hfresh|].
  destruct (listParts env _) as [e|[parts n]]; [by split|].
  destruct (fold_left addPart parts (sn, size)) as [sn' size'].
  destruct (_ || _); [by split|].
  eapply stable_trans; [|apply IH]. by split.
Qed.

Lemma getLargeFile_stable (fuel : nat) (s : Writer) :
  stable s (final (getLargeFile fuel s)).
Proof.
  unfold getLargeFile.
  destruct (negb _); [apply startFresh_stable | apply resumeLoop_stable].
Qed.

Lemma startPool_stable (fuel : nat) (s : Writer) : stable s (final (startPool fuel s)).
Proof.
  unfold startPool.
  apply (bind_final (stable s)); [apply getLargeFile_stable|].
  intros [e|lf] s' _ Hs'; [exact Hs'|].
  apply (bind_final (stable s)).
  - eapply stable_trans; [exact Hs'|].
    eapply stable_trans; [|apply spawn_stable].
    destruct (_ <? _); by split.
  - intros _ s'' _ Hs''. exact Hs''.
Qed.

Lemma redo_file_stable (fuel : nat) : ∀ (ue : endpoint) (b : writeBuffer)
    (sha ctype : string) (s : Writer),
  stable s (final (redo_file fuel ue b sha ctype s)).
Proof.
  induction fuel as [|fuel IH]; intros ue b sha ctype s; [apply stable_refl|].
  rewrite redo_file_S. cbv zeta.
  destruct (uploadFile env _); [|by split].
  destruct (reupload env _); [|by split].
  destruct (getUploadURL env _); [by split|].
  eapply stable_trans; [|apply IH]. by split.
Qed.

Lemma simpleWriteFile_stable (fuel : nat) (s : Writer) :
  stable s (final (simpleWriteFile fuel s)).
Proof.
  unfold simpleWriteFile.
  destruct (getUploadURL env _); [by split|].
  destruct (w _) eqn:Ew; [|by split].
  simpl. eapply stable_trans; [|apply redo_file_stable]. by split.
Qed.

(** ** sendChunk *)

Lemma core_fields (s s' : Writer) :
  core s' = core s →
  ChunkSize s' = ChunkSize s ∧ csize s' = csize s ∧ start s' = start s
  ∧ done s' = done s ∧ cidx s' = cidx s ∧ w s' = w s.
Proof. unfold core. intros H. injection H. auto 10. Qed.

Lemma deliver_spec (fuel : nat) (c : chunk) (s : Writer) :
  core (final (deliver fuel c s)) = core s
  ∧ sends (events (final (deliver fuel c s))) = sends (events s) ++ [c]
  ∧ (∀ x : error, err s = Some x → err (final (deliver fuel c s)) = Some x).
Proof.
  unfold deliver. cbn [workers log set_events].
  destruct (workers s) as [|fc rest]; [by repeat split|].
  set (s0 := set_workers rest _).
  pose proof (handle_stable fuel fc c s0) as [A B C].
  destruct (handle fuel fc c s0) as [[fc'|] s1|r s1]; cbn [bind final] in *;
    (split; [exact A|]; split; [simpl; by rewrite B|]; intros x Hx; by apply C).
Qed.

(** The ways through [sendChunk].  [s1] is the Writer when the [select] is
    reached (or when the function gives up before). *)
Lemma sendChunk_inv (fuel : nat) (s : Writer) :
  ∃ s1 : Writer, stable s s1 ∧
    ((∃ r : abort, sendChunk fuel s = Abort r s1)
     ∨ (∃ e : error, sendChunk fuel s = Done (Some e) s1)
     ∨ (∃ b : writeBuffer, w s1 = Some b ∧
          sendChunk fuel s =
          let* (_, s2) := deliver fuel {| id := int_add (cidx s1) 1; buf := b |} s1 in
          Done None (set_w (Some newMemoryBuffer) (set_cidx (int_add (cidx s2) 1) s2)))).
Proof.
  unfold sendChunk.
  set (pre := if once s then _ else _).
  assert (Hpre : stable s (final pre)).
  { subst pre. destruct (once s); [apply stable_refl|].
    eapply stable_trans; [|apply startPool_stable]. by split. }
  destruct pre as [[e|] s1|r s1]; cbn [bind final] in *; exists s1;
    (split; [exact Hpre|]).
  - right; left. by exists e.
  - destruct (w s1) as [b|] eqn:Ew; [|left; by eexists].
    destruct (canSend s1) eqn:Hc, (ctxErr s1) as [e|] eqn:Hx.
    + destruct (selectDone env _); [right; left; by eexists|].
      destruct (ready s1) eqn:Hr; [| |left; by eexists];
        right; right; exists b; by split.
    + destruct (ready s1) eqn:Hr; [| |left; by eexists];
        right; right; exists b; by split.
    + right; left. by eexists.
    + left. by eexists.
  - left. by eexists.
Qed.

Lemma sendChunk_keeps (fuel : nat) (s : Writer) (x : error) :
  err s = Some x → err (final (sendChunk fuel s)) = Some x.
Proof.
  intros Hx. destruct (sendChunk_inv fuel s) as (s1 & [_ _ He] & H).
  apply He in Hx.
  destruct H as [[r ->]|[[e ->]|(b & Hb & ->)]]; [done|done|].
  destruct (deliver_spec fuel {| id := int_add (cidx s1) 1; buf := b |} s1)
    as (_ & _ & Hd).
  apply Hd in Hx. by destruct (deliver _ _ _).
Qed.

Lemma sendChunk_config (fuel : nat) (s : Writer) :
  ChunkSize (final (sendChunk fuel s)) = ChunkSize s
  ∧ csize (final (sendChunk fuel s)) = csize s
  ∧ start (final (sendChunk fuel s)) = start s
  ∧ done (final (sendChunk fuel s)) = done s.
Proof.
  destruct (sendChunk_inv fuel s) as (s1 & [Hc _ _] & H).
  apply core_fields in Hc as (A1 & A2 & A3 & A4 & _).
  destruct H as [[r ->]|[[e ->]|(b & Hb & ->)]]; [done|done|].
  destruct (deliver_spec fuel {| id := int_add (cidx s1) 1; buf := b |} s1)
    as (Hd & _ & _).
  apply core_fields in Hd as (B1 & B2 & B3 & B4 & _).
  destruct (deliver _ _ _) as [[] s2|r s2]; cbn [bind final] in *; simpl;
    repeat split; congruence.
Qed.

(** A chunk that [sendChunk] reports sent has been received with the next
    id and the whole buffer; the buffer is then a new, empty one. *)
Lemma sendChunk_sent (fuel : nat) (s s' : Writer) :
  sendChunk fuel s = Done None s' →
  ∃ b : writeBuffer,
    w s = Some b
    ∧ sends (events s') = sends (events s) ++ [{| id := int_add (cidx s) 1; buf := b |}]
    ∧ cidx s' = int_add (cidx s) 1
    ∧ w s' = Some newMemoryBuffer.
Proof.
  intros H. destruct (sendChunk_inv fuel s) as (s1 & [Hc Hs _] & H').
  apply core_fields in Hc as (_ & _ & _ & _ & A5 & A6).
  destruct H' as [[r Hr]|[[e He]|(b & Hb & Hd)]]; [congruence|congruence|].
  rewrite H in Hd.
  destruct (deliver_spec fuel {| id := int_add (cidx s1) 1; buf := b |} s1)
    as (Hc' & Hs' & _).
  apply core_fields in Hc' as (_ & _ & _ & _ & B5 & B6).
  destruct (deliver _ _ _) as [[] s2|r s2]; cbn [bind final] in *; [|discriminate].
  injection Hd as ->. exists b. simpl.
  repeat split; congruence.
Qed.

(** ** Write *)

Lemma Write_S (fuel : nat) (p : list Byte.byte) (s : Writer) :
  Write (S fuel) p s =
  match getErr s with
  | Some e => Done (0, Some e) s
  | None =>
      match w (startDo s) with
      | None => Abort Panicked (startDo s)
      | Some b =>
          let left := int_sub (csize (startDo s)) (wb_Len b) in
          if Z.of_nat (length p) <? left then
            Done (Z.of_nat (length p), None) (set_w (Some (b ++ p)) (startDo s))
          else if left <? 0 then Abort Panicked (startDo s)
          else
            let* (e, s1) :=
              sendChunk fuel
                (set_w (Some (b ++ firstn (Z.to_nat left) p)) (startDo s)) in
            match e with
            | Some e => Done (Z.of_nat (length (firstn (Z.to_nat left) p)),
                              getErr (setErr (Some e) s1)) (setErr (Some e) s1)
            | None =>
                let* (r, s2) := Write fuel (skipn (Z.to_nat left) p) s1 in
                Done (int_add (Z.of_nat (length (firstn (Z.to_nat left) p))) (fst r),
                      snd r) (setErr (snd r) s2)
            end
      end
  end.
Proof.
  simpl. destruct (getErr s); [reflexivity|].
  destruct (w (startDo s)); [|reflexivity].
  destruct (_ <? _); [reflexivity|]. destruct (_ <? 0); [reflexivity|].
  cbv zeta. destruct (sendChunk _ _) as [[e|] s1|r s1]; cbn [bind]; try reflexivity.
  destruct (Write _ _ _) as [[k e] s2|r s2]; reflexivity.
Qed.

(** C9, the part of [Write]: with an error stored, [Write] returns it with
    no byte accepted and leaves the Writer as it is. *)
Lemma Write_short_circuit (fuel : nat) (p : list Byte.byte) (s : Writer) (x : error) :
  err s = Some x → Write (S fuel) p s = Done (0, Some x) s.
Proof. intros H. rewrite Write_S. unfold getErr. by rewrite H. Qed.

Lemma Write_keeps (fuel : nat) (p : list Byte.byte) (s : Writer) (x : error) :
  err s = Some x → final (Write fuel p s) = s.
Proof.
  intros H. destruct fuel; [reflexivity|]. by rewrite (Write_short_circuit _ _ _ x).
Qed.

Lemma writeAll_keeps (fuel : nat) (ps : list (list Byte.byte)) : ∀ (s : Writer) (x : error),
  err s = Some x → final (writeAll fuel ps s) = s.
Proof.
  induction ps as [|p ps IH]; intros s x H; [reflexivity|].
  simpl. pose proof (Write_keeps fuel p s x H) as Hw.
  destruct (Write fuel p s) as [r s1|r s1]; simpl in *; subst; [|reflexivity].
  by apply (IH s x).
Qed.

Lemma startDo_started (s : Writer) : start s = true → startDo s = s.
Proof. intros H. unfold startDo. by rewrite H. Qed.

Lemma startDo_start (s : Writer) : start (startDo s) = true.
Proof.
  unfold startDo. destruct (start s) eqn:E; [exact E|].
  by destruct (csize _ =? 0).
Qed.

Lemma startDo_fresh (s : Writer) :
  start s = false →
  csize (startDo s) = chunkSizeOf s ∧ w (startDo s) = Some newMemoryBuffer
  ∧ cidx (startDo s) = cidx s ∧ events (startDo s) = events s
  ∧ err (startDo s) = err s.
Proof.
  intros E. unfold startDo, chunkSizeOf. rewrite E.
  cbn. destruct (ChunkSize s =? 0); by repeat split.
Qed.

Lemma full_length (C : Z) (l : list chunk) :
  Forall (λ c, wb_Len (buf c) = C) l →
  Z.of_nat (length (concat (map buf l))) = Z.of_nat (length l) * C.
Proof.
  induction 1 as [|c l Hc _ IH]; [reflexivity|].
  simpl. rewrite length_app. unfold wb_Len in Hc. lia.
Qed.

Lemma chunked_length (C : Z) (B : list Byte.byte) (s : Writer) :
  chunked C B s →
  ∃ b : writeBuffer,
    w s = Some b ∧ 0 ≤ wb_Len b < C
    ∧ Z.of_nat (length B) = cidx s * C + wb_Len b.
Proof.
  intros [_ _ _ (b & Hb & Hlt & HB) Hfull _ Hc]. exists b.
  split; [done|]. split; [unfold wb_Len in *; lia|].
  rewrite <- HB, length_app, Hc. apply full_length in Hfull.
  unfold wb_Len. lia.
Qed.

(** A full buffer that [sendChunk] reports sent is the next chunk. *)
Lemma sendChunk_chunked (fuel : nat) (C : Z) (B q : list Byte.byte)
    (s : Writer) (b : writeBuffer) (s2 : Writer) :
  chunked C B s → w s = Some b →
  wb_Len b + Z.of_nat (length q) = C →
  Z.of_nat (length (B ++ q)) ≤ max_int →
  sendChunk fuel (set_w (Some (b ++ q)) s) = Done None s2 →
  chunked C (B ++ q) s2.
Proof.
  intros Hch Hb Hfull Hmax Hsend.
  destruct (chunked_length _ _ _ Hch) as (b' & Hb' & Hlt & Hlen).
  rewrite Hb in Hb'. injection Hb' as <-.
  destruct Hch as [Hst HC [Hc0 Hc1] (b0 & Hb0 & _ & HB) Hfl Hids Hcidx].
  rewrite Hb in Hb0. injection Hb0 as <-.
  pose proof (sendChunk_config fuel (set_w (Some (b ++ q)) s)) as (_ & Hcs & Hstart & _).
  rewrite Hsend in Hcs, Hstart. cbn [final csize start set_w] in Hcs, Hstart.
  destruct (sendChunk_sent _ _ _ Hsend) as (b1 & Hb1 & Hsends & Hcidx2 & Hw2).
  cbn [w events cidx set_w] in Hb1, Hsends, Hcidx2. injection Hb1 as <-.
  rewrite length_app in Hmax.
  assert (Hn : Z.of_nat (length (sends (events s))) + 1 ≤ max_int).
  { rewrite Hcidx in Hlen. unfold wb_Len in *. nia. }
  assert (Hid : int_add (cidx s) 1 = Z.of_nat (length (sends (events s)) + 1)).
  { rewrite Hcidx. unfold int_add.
    rewrite wrap_small by (unfold max_int in *; lia). lia. }
  rewrite Hid in Hsends, Hcidx2.
  split.
  - congruence.
  - congruence.
  - done.
  - exists newMemoryBuffer. split; [done|].
    split; [unfold wb_Len; simpl; lia|].
    rewrite Hsends, map_app, concat_app. simpl.
    rewrite !app_nil_r, <- HB. by rewrite app_assoc.
  - rewrite Hsends. apply Forall_app. split; [done|].
    constructor; [|constructor]. simpl. unfold wb_Len in *.
    rewrite length_app. lia.
  - rewrite Hsends, map_app, length_app, Hids. simpl.
    replace (length (sends (events s)) + 1)%nat
      with (S (length (sends (events s)))) by lia.
    by rewrite seq_S, map_app.
  - by rewrite Hcidx2, Hsends, length_app.
Qed.

(** A [Write] that leaves no error behind has taken all of [p], in full
    chunks and a buffer that is not full. *)
Lemma Write_chunked (fuel : nat) : ∀ (C : Z) (p B : list Byte.byte) (s : Writer)
    (r : Z * option error) (s' : Writer),
  chunked C B (startDo s) → err s = None →
  Z.of_nat (length (B ++ p)) ≤ max_int →
  Write fuel p s = Done r s' → err s' = None →
  chunked C (B ++ p) s'.
Proof.
  induction fuel as [|fuel IH]; intros C p B s r s' Hch He Hmax HW He'; [discriminate|].
  rewrite Write_S in HW. unfold getErr in HW. rewrite He in HW.
  destruct (chunked_length _ _ _ Hch) as (b & Hb & Hlt & Hlen).
  destruct Hch as [Hst HC [Hc0 Hc1] (b0 & Hb0 & _ & HB) Hfull Hids Hcidx].
  rewrite Hb in Hb0. injection Hb0 as <-.
  rewrite Hb, HC in HW. cbv zeta in HW.
  assert (Hleft : int_sub C (wb_Len b) = C - wb_Len b).
  { unfold int_sub. apply wrap_small. unfold max_int in *. lia. }
  rewrite Hleft in HW.
  rewrite length_app in Hmax.
  destruct (Z.ltb_spec (Z.of_nat (length p)) (C - wb_Len b)) as [Hp|Hp].
  - (* the bytes fit: they are appended to the buffer *)
    injection HW as _ <-. split; try done.
    exists (b ++ p). split; [reflexivity|]. split.
    + unfold wb_Len in *. rewrite length_app. lia.
    + cbn [events set_w]. by rewrite app_assoc, HB.
  - (* the buffer is filled, sent, and the rest written *)
    destruct (Z.ltb_spec (C - wb_Len b) 0) as [Hneg|_]; [lia|].
    set (left := Z.to_nat (C - wb_Len b)) in *.
    assert (Hl : Z.of_nat left = C - wb_Len b) by (subst left; lia).
    assert (Htake : length (firstn left p) = left)
      by (rewrite length_firstn; lia).
    destruct (sendChunk fuel (set_w _ (startDo s))) as [[e|] s2|r2 s2] eqn:Hsend;
      cbn [bind final] in *; [| |discriminate].
    { injection HW as _ <-. by destruct (setErr_some e s2). }
    assert (Hch2 : chunked C (B ++ firstn left p) (startDo s2)).
    { assert (Hc2 : chunked C (B ++ firstn left p) s2).
      { apply (sendChunk_chunked fuel C B (firstn left p) (startDo s) b s2);
          try done.
        - split; try done. exists b. repeat split; [done|lia|done].
        - lia.
        - rewrite length_app, Htake. lia. }
      by rewrite (startDo_started s2) by apply Hc2. }
    destruct (Write fuel (skipn left p) s2) as [[k e] s3|r3 s3] eqn:HW2;
      cbn [bind] in HW; [|discriminate].
    injection HW as _ <-. cbn [snd] in *.
    assert (He3 : err s3 = None).
    { destruct (err s3) as [x|] eqn:E3; [|done].
      by rewrite (setErr_keeps e s3 x E3) in He'. }
    assert (e = None) as ->.
    { destruct e as [x|]; [|done]. by destruct (setErr_some x s3). }
    rewrite setErr_nil.
    assert (He2 : err s2 = None).
    { destruct (err s2) as [x|] eqn:E2; [|done].
      pose proof (Write_keeps fuel (skipn left p) s2 x E2) as Hk.
      rewrite HW2 in Hk. simpl in Hk. congruence. }
    replace (B ++ p) with ((B ++ firstn left p) ++ skipn left p)
      by (by rewrite <- app_assoc, firstn_skipn).
    apply (IH _ _ _ s2 (k, None)); try done.
    rewrite <- app_assoc, firstn_skipn, length_app. lia.
Qed.

Lemma writeAll_chunked (fuel : nat) (C : Z) (ps : list (list Byte.byte)) :
  ∀ (B : list Byte.byte) (s s' : Writer),
  chunked C B s → err s = None →
  Z.of_nat (length (B ++ concat ps)) ≤ max_int →
  writeAll fuel ps s = Done tt s' → err s' = None →
  chunked C (B ++ concat ps) s'.
Proof.
  induction ps as [|p ps IH]; intros B s s' Hch He Hmax HW He'.
  - injection HW as <-. by rewrite app_nil_r.
  - simpl in HW, Hmax |- *.
    destruct (Write fuel p s) as [r s1|r s1] eqn:HW1; cbn [bind] in HW; [|discriminate].
    assert (He1 : err s1 = None).
    { destruct (err s1) as [x|] eqn:E1; [|done].
      pose proof (writeAll_keeps fuel ps s1 x E1) as Hk.
      rewrite HW in Hk. simpl in Hk. congruence. }
    rewrite app_assoc. apply (IH _ s1); try done.
    + apply (Write_chunked fuel C p B s r); try done.
      * by rewrite (startDo_started s) by apply Hch.
      * rewrite app_assoc, length_app in Hmax. lia.
    + by rewrite <- app_assoc.
Qed.

(** ** Close *)

Lemma finish_frame (fuel : nat) (s : Writer) :
  done (final (finish fuel s)) = done s
  ∧ (∀ x : error, err s = Some x → err (final (finish fuel s)) = Some x).
Proof.
  unfold finish. destruct (cidx s =? 0).
  - pose proof (simpleWriteFile_stable fuel s) as [Hc _ He].
    apply core_fields in Hc as (_ & _ & _ & Hd & _).
    destruct (simpleWriteFile fuel s) as [e s1|r s1]; cbn [bind final] in *.
    + pose proof (stable_setErr e s1) as [Hc' _ He'].
      apply core_fields in Hc' as (_ & _ & _ & Hd' & _).
      split; [congruence|]. intros x Hx. by apply He', He.
    + by split.
  - destruct (w s) as [b|]; [|by split].
    set (pre := if wb_Len b >? 0 then _ else _).
    assert (Hpre : done (final pre) = done s
                   ∧ (∀ x : error, err s = Some x → err (final pre) = Some x)).
    { subst pre. destruct (wb_Len b >? 0); [|by split].
      split; [apply sendChunk_config | intros x; apply sendChunk_keeps]. }
    destruct Hpre as [Hd He].
    destruct pre as [[e|] s1|r s1]; cbn [bind final] in *; [| |by split].
    + pose proof (stable_setErr (Some e) s1) as [Hc' _ He'].
      apply core_fields in Hc' as (_ & _ & _ & Hd' & _).
      split; [congruence|]. intros x Hx. by apply He', He.
    + destruct (ready s1); [by split| |by split].
      destruct (file _); [|by split].
      destruct (finishLargeFile env _) as [e|f]; cbn [final].
      * set (s2 := log EFinishLargeFile _).
        pose proof (stable_setErr (Some e) s2) as [Hc' _ He'].
        apply core_fields in Hc' as (_ & _ & _ & Hd' & _).
        split; [by rewrite Hd'|]. intros x Hx. apply He'. by apply He.
      * by split.
Qed.

(** What [Close] returns is the stored error, and the Writer is then done. *)
Lemma Close_returns_getErr (fuel : nat) (s : Writer) (r : option error) (s' : Writer) :
  Close fuel s = Done r s' → r = getErr s' ∧ done s' = true.
Proof.
  unfold Close. destruct (done s) eqn:Hd; cbn [bind].
  - intros H. injection H as <- <-. by split.
  - pose proof (finish_frame fuel (set_done true s)) as [Hd' _].
    destruct (finish fuel _) as [[] s1|r1 s1]; cbn [bind final] in *; [|discriminate].
    intros H. injection H as <- <-. by split.
Qed.

Lemma Close_keeps (fuel : nat) (s : Writer) (x : error) :
  err s = Some x → err (final (Close fuel s)) = Some x.
Proof.
  intros Hx. unfold Close. destruct (done s); [done|].
  pose proof (finish_frame fuel (set_done true s)) as [_ He].
  specialize (He x Hx).
  by destruct (finish fuel _) as [[] s1|r1 s1].
Qed.

(** The part of C6 that the code keeps.  [w.done.Do] runs its function in
    the first call only: with nothing happening in between, a further call
    of [Close] returns what the first returned and leaves the Writer, and
    with it the record of every upload, send, channel and session event,
    exactly as the first call left it. *)
Lemma Close_again (fuel fuel' : nat) (s : Writer) (r : option error) (s' : Writer) :
  Close fuel s = Done r s' → Close fuel' s' = Done r s'.
Proof.
  intros H. apply Close_returns_getErr in H as [-> Hd].
  unfold Close. by rewrite Hd.
Qed.

(** C9, amended.  [Write] looks at the stored error first: when there is
    one it returns it, accepts no byte and leaves the Writer untouched.
    [Close] does not look first: a Writer not yet closed runs the whole of
    its one-shot body, error or no error, and one already closed is left
    untouched.  The error stored before the call stays the stored one and
    is what [Close] returns. *)
Theorem stored_error_short_circuits (fuel : nat) (p : list Byte.byte) (s : Writer)
    (x : error) :
  err s = Some x →
  Write (S fuel) p s = Done (0, Some x) s
  ∧ err (final (Close fuel s)) = Some x
  ∧ match Close fuel s with
    | Done r _ => r = Some x
    | Abort _ _ => True
    end
  ∧ (if done s then Close fuel s = Done (Some x) s
     else Close fuel s =
          (let* (_, s') := finish fuel (set_done true s) in Done (getErr s') s')).
Proof.
  intros Hx. split; [by apply Write_short_circuit|].
  split; [by apply Close_keeps|]. split.
  - pose proof (Close_keeps fuel s x Hx) as Hk.
    destruct (Close fuel s) as [r s'|] eqn:HC; [|done].
    apply Close_returns_getErr in HC as [-> _]. exact Hk.
  - unfold Close. destruct (done s) eqn:Hd; [|done]. cbn [bind].
    unfold getErr. by rewrite Hx.
Qed.

(** ** Whole uploads *)

Lemma startDo_done (s : Writer) : done (startDo s) = done s.
Proof. unfold startDo. destruct (start s); [done|]. by destruct (csize _ =? 0). Qed.

Lemma setErr_done (e : option error) (s : Writer) : done (setErr e s) = done s.
Proof.
  change (done (front (setErr e s)) = done (front s)). by rewrite setErr_front.
Qed.

Lemma Write_done (fuel : nat) : ∀ (p : list Byte.byte) (s : Writer),
  done (final (Write fuel p s)) = done s.
Proof.
  induction fuel as [|fuel IH]; intros p s; [reflexivity|].
  rewrite Write_S. destruct (getErr s); [reflexivity|].
  destruct (w (startDo s)); [|apply startDo_done]. cbv zeta.
  destruct (_ <? _); [apply startDo_done|].
  destruct (_ <? 0); [apply startDo_done|].
  set (s1 := set_w _ _).
  pose proof (sendChunk_config fuel s1) as (_ & _ & _ & Hd).
  assert (Hd1 : done s1 = done s) by apply startDo_done.
  destruct (sendChunk fuel s1) as [[e|] s2|r s2]; cbn [bind final] in *.
  - rewrite setErr_done. congruence.
  - specialize (IH (skipn (Z.to_nat (int_sub (csize (startDo s)) (wb_Len w0))) p) s2).
    destruct (Write fuel _ s2) as [r s3|r s3]; cbn [bind final] in *.
    + rewrite setErr_done. congruence.
    + congruence.
  - congruence.
Qed.

Lemma writeAll_done (fuel : nat) (ps : list (list Byte.byte)) : ∀ s : Writer,
  done (final (writeAll fuel ps s)) = done s.
Proof.
  induction ps as [|p ps IH]; intros s; [reflexivity|].
  simpl. pose proof (Write_done fuel p s) as Hd.
  destruct (Write fuel p s) as [r s1|r s1]; cbn [bind final] in *; [|done].
  by rewrite IH.
Qed.

(** What a successful [Close] adds to the chunks sent: the buffer, under
    the next id, when chunks have been sent before and the buffer is not
    empty; nothing otherwise. *)
Lemma Close_chunked (fuel : nat) (C : Z) (B : list Byte.byte) (s s2 : Writer) :
  chunked C B s → done s = false → Z.of_nat (length B) ≤ max_int →
  Close fuel s = Done None s2 →
  ∃ b : writeBuffer,
    w s = Some b
    ∧ sends (events s2) =
      sends (events s) ++
      (if (cidx s =? 0) || negb (wb_Len b >? 0) then []
       else [{| id := cidx s + 1; buf := b |}]).
Proof.
  intros Hch Hd Hmax HC.
  destruct (chunked_length _ _ _ Hch) as (b & Hb & Hlt & Hlen).
  pose proof (ch_pos _ _ _ Hch) as Hpos.
  pose proof (ch_cidx _ _ _ Hch) as Hcidx.
  exists b. split; [done|].
  pose proof (Close_returns_getErr _ _ _ _ HC) as [He2 _]. unfold getErr in He2.
  unfold Close in HC. rewrite Hd in HC.
  destruct (finish fuel (set_done true s)) as [[] s'|r s'] eqn:Hf;
    cbn [bind] in HC; [|discriminate].
  injection HC as _ ->.
  unfold finish in Hf. cbn [cidx w set_done] in Hf.
  destruct (cidx s =? 0) eqn:Hz; cbn [orb].
  - pose proof (simpleWriteFile_stable fuel (set_done true s)) as [_ Hs _].
    destruct (simpleWriteFile fuel _) as [e s1|r s1]; cbn [bind final] in *;
      [|discriminate].
    injection Hf as <-. by rewrite setErr_sends, Hs, app_nil_r.
  - rewrite Hb in Hf.
    destruct (wb_Len b >? 0) eqn:Hpos'; cbn [negb].
    + destruct (sendChunk fuel (set_done true s)) as [[e|] s1|r s1] eqn:Hsend;
        cbn [bind] in Hf; [| |discriminate].
      { injection Hf as <-. by destruct (setErr_some e s1). }
      destruct (sendChunk_sent _ _ _ Hsend) as (b' & Hb' & Hsends & _).
      cbn [w cidx events set_done] in Hb', Hsends.
      rewrite Hb in Hb'. injection Hb' as <-.
      assert (Hid : int_add (cidx s) 1 = cidx s + 1).
      { unfold int_add. apply wrap_small. unfold max_int in *.
        apply Z.gtb_lt in Hpos'. nia. }
      rewrite Hid in Hsends.
      destruct (ready s1); [discriminate| |discriminate].
      destruct (file _); [|discriminate].
      destruct (finishLargeFile env _); apply Done_inj in Hf as [_ <-];
        [rewrite setErr_sends|]; exact Hsends.
    + cbn [bind] in Hf. rewrite app_nil_r.
      destruct (ready _); [discriminate| |discriminate].
      destruct (file _); [|discriminate].
      destruct (finishLargeFile env _); apply Done_inj in Hf as [_ <-];
        [rewrite setErr_sends|]; reflexivity.
Qed.

Lemma fresh_chunked (s : Writer) :
  fresh s → 0 ≤ ChunkSize s ≤ max_int → chunked (chunkSizeOf s) [] (startDo s).
Proof.
  intros [Hst _ Hc _ Hs] HC.
  destruct (startDo_fresh s Hst) as (A1 & A2 & A3 & A4 & _).
  assert (0 < chunkSizeOf s ≤ max_int).
  { unfold chunkSizeOf. destruct (Z.eqb_spec (ChunkSize s) 0); [done|lia]. }
  split.
  - apply startDo_start.
  - done.
  - done.
  - exists newMemoryBuffer. rewrite A4, Hs. split; [done|].
    split; [unfold wb_Len; simpl; lia|done].
  - rewrite A4, Hs. constructor.
  - by rewrite A4, Hs.
  - by rewrite A3, A4, Hs.
Qed.

(** The chunks of an upload of at least one chunk size that [Close]
    completes without an error. *)
Lemma upload_chunks (fuel : nat) (ps : list (list Byte.byte))
    (s0 s1 s2 : Writer) :
  fresh s0 → 0 ≤ ChunkSize s0 ≤ max_int →
  total ps ≤ max_int → chunkSizeOf s0 ≤ total ps →
  writeAll fuel ps s0 = Done tt s1 →
  Close fuel s1 = Done None s2 →
  Z.of_nat (length (sends (events s1))) = total ps / chunkSizeOf s0
  ∧ Forall (λ c, wb_Len (buf c) = chunkSizeOf s0) (sends (events s1))
  ∧ (∃ extra : list chunk,
       sends (events s2) = sends (events s1) ++ extra
       ∧ length extra = (if total ps mod chunkSizeOf s0 =? 0 then 0%nat else 1%nat)
       ∧ Forall (λ c, wb_Len (buf c) = total ps mod chunkSizeOf s0) extra)
  ∧ map id (sends (events s2)) =
      map Z.of_nat (seq 1 (length (sends (events s2))))
  ∧ concat (map buf (sends (events s2))) = concat ps.
Proof.
  intros Hfresh HC Hmax HL HW HCl. unfold total in *.
  set (C := chunkSizeOf s0) in *.
  pose proof (fresh_chunked s0 Hfresh HC) as Hch0. fold C in Hch0.
  pose proof (ch_pos _ _ _ Hch0) as Hpos.
  (* no error is stored at any point of the upload *)
  pose proof (Close_returns_getErr _ _ _ _ HCl) as [He2 _]. unfold getErr in He2.
  assert (He1 : err s1 = None).
  { destruct (err s1) as [x|] eqn:E; [|done].
    pose proof (Close_keeps fuel s1 x E) as Hk. rewrite HCl in Hk.
    simpl in Hk. congruence. }
  assert (Hd1 : done s1 = false).
  { pose proof (writeAll_done fuel ps s0) as Hd. rewrite HW in Hd.
    simpl in Hd. rewrite Hd. apply Hfresh. }
  (* the writes *)
  assert (Hch1 : chunked C (concat ps) s1).
  { destruct ps as [|p ps]; [simpl in HL; lia|].
    simpl in HW.
    destruct (Write fuel p s0) as [r sa|r sa] eqn:HWa; cbn [bind] in HW;
      [|discriminate].
    assert (Hea : err sa = None).
    { destruct (err sa) as [x|] eqn:E; [|done].
      pose proof (writeAll_keeps fuel ps sa x E) as Hk. rewrite HW in Hk.
      simpl in Hk. congruence. }
    simpl in Hmax |- *. apply (writeAll_chunked fuel C ps p sa); try done.
    apply (Write_chunked fuel C p [] s0 r); try done.
    - apply Hfresh.
    - simpl. rewrite length_app in Hmax. lia. }
  destruct (chunked_length _ _ _ Hch1) as (b & Hb & Hlt & Hlen).
  pose proof (ch_cidx _ _ _ Hch1) as Hcidx.
  pose proof (ch_ids _ _ _ Hch1) as Hids.
  destruct (ch_bytes _ _ _ Hch1) as (b' & Hb' & _ & Hbytes).
  rewrite Hb in Hb'. injection Hb' as <-.
  assert (Hdiv : total ps / C = cidx s1 ∧ total ps mod C = wb_Len b).
  { unfold total. split.
    - symmetry. apply (Z.div_unique_pos _ _ _ (wb_Len b)); lia.
    - symmetry. apply (Z.mod_unique_pos _ _ (cidx s1)); lia. }
  unfold total in Hdiv. destruct Hdiv as [Hq Hr].
  (* the close *)
  destruct (Close_chunked fuel C _ s1 s2 Hch1 Hd1 Hmax HCl) as (b' & Hb' & Hsends).
  rewrite Hb in Hb'. injection Hb' as <-.
  assert (Hz : (cidx s1 =? 0) = false) by (apply Z.eqb_neq; nia).
  rewrite Hz in Hsends. cbn [orb] in Hsends.
  split; [by rewrite Hq, Hcidx|].
  split; [apply Hch1|].
  rewrite Hr.
  destruct (Z.gtb_spec (wb_Len b) 0) as [Hgt|Hle]; cbn [negb] in Hsends.
  - split; [|split].
    + eexists. split; [exact Hsends|].
      destruct (Z.eqb_spec (wb_Len b) 0); [lia|].
      split; [reflexivity|]. by repeat constructor.
    + rewrite Hsends, map_app, length_app, Hids. simpl.
      rewrite Nat.add_1_r, seq_S, map_app. simpl. f_equal. f_equal. lia.
    + rewrite Hsends, map_app, concat_app. simpl. by rewrite app_nil_r.
  - assert (b = []) as -> by (destruct b; [done|unfold wb_Len in *; simpl in *; lia]).
    rewrite app_nil_r in Hsends, Hbytes.
    split; [|split].
    + exists []. rewrite app_nil_r. split; [done|]. simpl. by split.
    + by rewrite Hsends.
    + by rewrite Hsends.
Qed.

(** C2. Take an upload of [L] bytes in all, however they are split over the
    calls of [Write], with a chunk size [C] in force and [L > C], that
    [Close] completes without an error.  During the writes exactly [L / C]
    chunks are sent, each of [C] bytes.  [Close] sends one more chunk, of
    [L mod C] bytes, if and only if [L mod C] is not 0.  The ids of the
    chunks are 1, 2, ..., k in the order of sending, and the chunks laid
    end to end are the bytes written. *)
Theorem large_upload_chunks (fuel : nat) (ps : list (list Byte.byte))
    (s0 s1 s2 : Writer) :
  fresh s0 → 0 ≤ ChunkSize s0 ≤ max_int →
  total ps ≤ max_int → chunkSizeOf s0 < total ps →
  writeAll fuel ps s0 = Done tt s1 →
  Close fuel s1 = Done None s2 →
  Z.of_nat (length (sends (events s1))) = total ps / chunkSizeOf s0
  ∧ Forall (λ c, wb_Len (buf c) = chunkSizeOf s0) (sends (events s1))
  ∧ (∃ extra : list chunk,
       sends (events s2) = sends (events s1) ++ extra
       ∧ length extra = (if total ps mod chunkSizeOf s0 =? 0 then 0%nat else 1%nat)
       ∧ Forall (λ c, wb_Len (buf c) = total ps mod chunkSizeOf s0) extra)
  ∧ map id (sends (events s2)) =
      map Z.of_nat (seq 1 (length (sends (events s2))))
  ∧ concat (map buf (sends (events s2))) = concat ps.
Proof.
  intros Hfresh HC Hmax HL. apply upload_chunks; try done. lia.
Qed.

(** ** WithAttrs *)

Lemma copyInto_empty (src : attrmap) : copyInto src ∅ = src.
Proof.
  unfold copyInto.
  apply (map_fold_weak_ind (λ r m, r = m)); [done|].
  intros i x m r _ ->. reflexivity.
Qed.

Lemma store_other (l l' : loc) (k v : string) (s : Writer) :
  l ≠ l' → heap (store l k v s) !! l' = heap s !! l'.
Proof.
  intros Hne. unfold store. destruct (heap s !! l) eqn:E; [|done].
  cbn [heap set_heap]. by rewrite list_lookup_insert_ne.
Qed.

(** C10. [WithAttrs] gives the Writer a map of its own: a copy of
    [attrs.Info], to which the entry "src_last_modified_millis" (the
    modification time in milliseconds, in decimal) is added exactly when
    the copy has fewer than 10 entries and the time is not the zero time;
    otherwise the copy is left as it is.  The caller's map is not changed,
    and a later write into any map that existed before the call, the
    caller's among them, does not reach the Writer's metadata. *)
Theorem WithAttrs_copies (a : Attrs) (s : Writer) :
  (∀ l : loc, Info a = Some l → (l < length (heap s))%nat) →
  ∃ s' : Writer,
    WithAttrs (Some a) s = Done tt s'
    ∧ contentType s' = ContentType a
    ∧ info s' = Some (length (heap s))
    ∧ deref s' (info s') = metadata (deref s (Info a)) a
    ∧ deref s' (Info a) = deref s (Info a)
    ∧ (∀ (l : loc) (k v : string), (l < length (heap s))%nat →
         deref (store l k v s') (info s') = deref s' (info s')).
Proof.
  intros Hwf.
  assert (Hlen : (length (heap s) < length (heap s ++ [∅ : attrmap]))%nat)
    by (rewrite length_app; simpl; lia).
  exists (set_heap (<[length (heap s) := metadata (deref s (Info a)) a]> (heap s ++ [∅]))
            (set_info (Some (length (heap s)))
               (set_heap (heap s ++ [∅]) (set_contentType (ContentType a) s)))).
  split.
  { unfold WithAttrs. cbv zeta.
    change (heap (set_contentType (ContentType a) s)) with (heap s).
    set (s1 := set_info _ _).
    assert (deref s1 (Info a) = deref s (Info a)) as ->.
    { unfold deref. destruct (Info a) as [l|] eqn:El; [|done].
      subst s1. cbn [heap set_heap set_info].
      by rewrite lookup_app_l by (by apply Hwf). }
    assert (deref s1 (info s1) = ∅) as ->.
    { subst s1. cbn [deref info heap set_heap set_info].
      by rewrite (list_lookup_middle (heap s) [] ∅ (length (heap s))). }
    by rewrite copyInto_empty. }
  cbn [contentType info heap set_heap set_info set_contentType deref].
  split; [reflexivity|]. split; [reflexivity|].
  split; [by rewrite list_lookup_insert_eq|]. split.
  - unfold deref. destruct (Info a) as [l|] eqn:El; [|done].
    specialize (Hwf l eq_refl). cbn [heap set_heap].
    rewrite list_lookup_insert_ne by lia. by rewrite lookup_app_l.
  - intros l k v Hl. unfold deref. by rewrite store_other by lia.
Qed.

(** ** Small uploads *)

Lemma Write_fits (fuel : nat) (C : Z) (B p : list Byte.byte) (s : Writer) :
  chunked C B (startDo s) → err s = None →
  Z.of_nat (length (B ++ p)) < C →
  ∃ s' : Writer,
    Write (S fuel) p s = Done (Z.of_nat (length p), None) s'
    ∧ chunked C (B ++ p) s' ∧ err s' = None
    ∧ events s' = events (startDo s) ∧ done s' = done s.
Proof.
  intros Hch He Hfit.
  destruct (chunked_length _ _ _ Hch) as (b & Hb & Hlt & Hlen).
  destruct Hch as [Hst HC [Hc0 Hc1] (b0 & Hb0 & _ & HB) Hfull Hids Hcidx].
  rewrite Hb in Hb0. injection Hb0 as <-.
  rewrite Write_S. unfold getErr. rewrite He, Hb, HC. cbv zeta.
  assert (Hleft : int_sub C (wb_Len b) = C - wb_Len b).
  { unfold int_sub. apply wrap_small. unfold max_int in *. lia. }
  rewrite Hleft. rewrite length_app in Hfit.
  assert (0 ≤ cidx (startDo s) * C) by (rewrite Hcidx; nia).
  destruct (Z.ltb_spec (Z.of_nat (length p)) (C - wb_Len b)) as [Hp|Hp]; [|lia].
  eexists. split; [reflexivity|].
  cbn [err events done set_w]. rewrite startDo_done.
  split; [|split; [|done]].
  - split; try done.
    exists (b ++ p). split; [reflexivity|]. split.
    + unfold wb_Len in *. rewrite length_app. lia.
    + cbn [events set_w]. by rewrite app_assoc, HB.
  - unfold startDo. destruct (start s); [done|]. by destruct (csize _ =? 0).
Qed.

Lemma writeAll_fits (fuel : nat) (C : Z) (ps : list (list Byte.byte)) :
  ∀ (B : list Byte.byte) (s : Writer),
  chunked C B s → err s = None →
  Z.of_nat (length (B ++ concat ps)) < C →
  ∃ s' : Writer,
    writeAll (S fuel) ps s = Done tt s'
    ∧ chunked C (B ++ concat ps) s' ∧ err s' = None
    ∧ events s' = events s ∧ done s' = done s.
Proof.
  induction ps as [|p ps IH]; intros B s Hch He Hfit.
  - exists s. by rewrite app_nil_r.
  - cbn [concat] in Hfit. rewrite app_assoc in Hfit.
    assert (Hst : startDo s = s) by (apply startDo_started, Hch).
    destruct (Write_fits fuel C B p s) as (s1 & HW & Hch1 & He1 & Hev1 & Hd1).
    { by rewrite Hst. } { done. }
    { rewrite length_app in Hfit. lia. }
    destruct (IH (B ++ p) s1 Hch1 He1 Hfit) as (s' & HW' & Hch' & He' & Hev' & Hd').
    exists s'. cbn [writeAll concat]. rewrite HW. cbn [bind].
    rewrite app_assoc. rewrite Hst in Hev1.
    split; [done|]. split; [done|]. split; [done|]. split; congruence.
Qed.

(** An upload of fewer bytes than one chunk, written in at least one call:
    the writes only fill the buffer, no chunk is ever sent, and [Close] is
    one run of [simpleWriteFile] on the whole stream. *)
Lemma small_upload_simple (fuel fuel' : nat) (ps : list (list Byte.byte)) (s0 : Writer) :
  fresh s0 → 0 ≤ ChunkSize s0 ≤ max_int → ps ≠ [] →
  total ps < chunkSizeOf s0 →
  ∃ s1 : Writer,
    writeAll (S fuel) ps s0 = Done tt s1
    ∧ events s1 = events s0
    ∧ w s1 = Some (concat ps)
    ∧ Close fuel' s1 =
        (let* (e, s) := simpleWriteFile fuel' (set_done true s1) in
         Done (getErr (setErr e s)) (setErr e s))
    ∧ sends (events (final (Close fuel' s1))) = [].
Proof.
  intros Hfresh HC Hne Hsmall. unfold total in Hsmall.
  pose proof (fresh_chunked s0 Hfresh HC) as Hch0.
  destruct Hfresh as [Hst Hd Hc He Hs].
  destruct ps as [|p ps]; [done|]. cbn [concat] in Hsmall.
  destruct (Write_fits fuel _ [] p s0 Hch0 He) as (sa & HWa & Hcha & Hea & Heva & Hda).
  { simpl. rewrite length_app in Hsmall. lia. }
  destruct (writeAll_fits fuel _ ps _ sa Hcha Hea Hsmall)
    as (s1 & HW & Hch1 & He1 & Hev1 & Hd1).
  destruct (startDo_fresh s0 Hst) as (_ & _ & _ & Hev0 & _).
  assert (Hev : events s1 = events s0) by congruence.
  exists s1. cbn [writeAll]. rewrite HWa. cbn [bind].
  split; [exact HW|]. split; [exact Hev|].
  destruct (ch_bytes _ _ _ Hch1) as (b & Hb & _ & HB).
  rewrite Hev, Hs in HB. simpl in HB. subst b.
  split; [exact Hb|].
  assert (Hz : cidx s1 = 0) by (rewrite (ch_cidx _ _ _ Hch1), Hev, Hs; done).
  assert (HCl : Close fuel' s1 =
        (let* (e, s) := simpleWriteFile fuel' (set_done true s1) in
         Done (getErr (setErr e s)) (setErr e s))).
  { unfold Close, finish. rewrite Hd1, Hda, Hd.
    cbn [bind cidx set_done]. rewrite Hz. cbn [Z.eqb].
    by destruct (simpleWriteFile fuel' _). }
  split; [exact HCl|]. rewrite HCl.
  pose proof (simpleWriteFile_stable fuel' (set_done true s1)) as [_ Hss _].
  cbn [events set_done] in Hss.
  destruct (simpleWriteFile fuel' _) as [e s|r s]; cbn [bind final] in *.
  - by rewrite setErr_sends, Hss, Hev.
  - by rewrite Hss, Hev.
Qed.

(** ** Cooperative environments: the upload completes *)

Lemma thread_ok (i : nat) (s : Writer) :
  cooperative → file s ≠ None → ready s = ChanOpen →
  ∃ fc : endpoint,
    thread i s = Done tt (set_workers (workers s ++ [fc]) (log EGetUploadPartURL s)).
Proof.
  intros Hco Hf Hr. unfold thread, prologue. rewrite (co_prompt Hco).
  destruct (file s); [|done].
  pose proof (co_parturl Hco (calls is_getUploadPartURL (events s))) as Hu.
  destruct (getUploadPartURL env _) as [e|fc]; [discriminate|].
  cbn [ready log set_events]. rewrite Hr. by exists fc.
Qed.

Lemma spawn_ok (n : nat) : ∀ (i : nat) (s : Writer),
  cooperative → file s ≠ None → ready s = ChanOpen →
  ∃ s' : Writer,
    spawn i n s = Done tt s'
    ∧ front s' = front s ∧ err s' = err s
    ∧ calls is_cancel (events s') = calls is_cancel (events s)
    ∧ length (workers s') = (length (workers s) + n)%nat.
Proof.
  induction n as [|n IH]; intros i s Hco Hf Hr.
  - exists s. repeat split; lia.
  - destruct (thread_ok i s Hco Hf Hr) as (fc & Ht).
    cbn [spawn]. rewrite Ht. cbn [bind].
    destruct (IH (S i) (set_workers (workers s ++ [fc]) (log EGetUploadPartURL s))
                Hco Hf Hr)
      as (s' & Hs & A & B & C & D).
    exists s'. split; [exact Hs|]. rewrite A, B, C, D.
    cbn [workers set_workers]. rewrite length_app. simpl.
    repeat split; lia.
Qed.

Lemma handle_ok (fuel : nat) (fc : endpoint) (c : chunk) (s : Writer) :
  cooperative → seen s = ∅ →
  handle (S fuel) fc c s =
  Done (Some fc)
    (log (EUploadPart fc (buf c) (Hash env (buf c)) (wb_Len (buf c)) (id c)) s).
Proof.
  intros Hco Hs. unfold handle. rewrite Hs, lookup_empty. cbn [wb_Reader].
  rewrite redo_part_S. cbv zeta. unfold partFailed.
  rewrite (co_part Hco). cbn [fst snd]. rewrite Z.eqb_refl.
  by rewrite bool_decide_false by (by intros []).
Qed.

(** In a cooperative environment a healthy Writer hands its buffer over. *)
Lemma sendChunk_ok (fuel : nat) (s : Writer) (b : writeBuffer) :
  cooperative → healthy s → w s = Some b →
  ∃ s' : Writer, sendChunk (S fuel) s = Done None s' ∧ healthy s' ∧ once s' = true.
Proof.
  intros Hco [He Hc Hs _ Hp] Hb.
  (* the pool, started if need be *)
  assert (Hpre : ∃ s1 : Writer,
    (if once s then Done None s else startPool (S fuel) (set_once true s)) = Done None s1
    ∧ w s1 = Some b ∧ cidx s1 = cidx s ∧ err s1 = None
    ∧ calls is_cancel (events s1) = O ∧ seen s1 = ∅ ∧ once s1 = true
    ∧ ready s1 = ChanOpen ∧ workers s1 ≠ [] ∧ file s1 ≠ None).
  { destruct (once s) eqn:Ho.
    - exists s. destruct Hp as (? & ? & ?). by repeat split.
    - unfold startPool, getLargeFile, startFresh.
      cbn [Resume set_once]. rewrite Hp. cbn [negb].
      pose proof (co_start Hco (calls is_startLargeFile (events (set_once true s)))) as Hst.
      destruct (startLargeFile env _) as [e|h]; [discriminate|]. cbn [bind].
      set (s0 := if _ <? 1 then _ else _).
      assert (Hcu : (0 < Z.to_nat (ConcurrentUploads s0))%nat).
      { subst s0. destruct (Z.ltb_spec (ConcurrentUploads (set_ready ChanOpen
          (set_file (Some (StartedLargeFile h))
             (log (EStartLargeFile (name (set_once true s)) (ctype_of (set_once true s))
                (deref (set_once true s) (info (set_once true s)))) (set_once true s))))) 1);
          [simpl; lia|lia]. }
      assert (Hf0 : file s0 = Some (StartedLargeFile h))
        by (subst s0; by destruct (_ <? 1)).
      assert (Hev0 : err s0 = None ∧ calls is_cancel (events s0) = O
                     ∧ w s0 = Some b ∧ cidx s0 = cidx s ∧ seen s0 = ∅
                     ∧ once s0 = true ∧ ready s0 = ChanOpen).
      { subst s0. destruct (_ <? 1); by repeat split. }
      destruct Hev0 as (E1 & E2 & E3 & E4 & E5 & E6 & E7).
      destruct (spawn_ok (Z.to_nat (ConcurrentUploads s0)) O s0 Hco)
        as (s1 & Hsp & A & B & C & D); [congruence|exact E7|].
      rewrite Hsp. cbn [bind]. exists s1. split; [reflexivity|].
      split; [rewrite <- E3; exact (f_equal w A)|].
      split; [rewrite <- E4; exact (f_equal cidx A)|].
      split; [congruence|]. split; [congruence|].
      split; [rewrite <- E5; exact (f_equal seen A)|].
      split; [rewrite <- E6; exact (f_equal once A)|].
      split; [rewrite <- E7; exact (f_equal ready A)|].
      split; [intros Hnil; rewrite Hnil in D; simpl in D; lia|].
      rewrite (f_equal file A : file s1 = file s0). congruence. }
  destruct Hpre as (s1 & Hpre & Hb1 & Hc1 & He1 & Hcn1 & Hs1 & Ho1 & Hr1 & Hw1 & Hf1).
  unfold sendChunk. rewrite Hpre. cbn [bind]. rewrite Hb1.
  assert (Hcan : canSend s1 = true).
  { unfold canSend. rewrite Hr1. by rewrite bool_decide_false. }
  assert (Hctx : ctxErr s1 = None).
  { unfold ctxErr, cancelled. by rewrite (co_ctx Hco), Hcn1. }
  rewrite Hcan, Hctx, Hr1.
  unfold deliver. cbn [workers log set_events].
  destruct (workers s1) as [|fc rest] eqn:Hws; [done|].
  rewrite handle_ok by done. cbn [bind].
  eexists. split; [reflexivity|]. split; [|exact Ho1].
  split; [exact He1 | exact Hcn1 | exact Hs1 | by right |].
  cbn [once ready workers file set_w set_cidx set_workers log set_events].
  rewrite Ho1. repeat split; try done. by destruct rest.
Qed.

Lemma healthy_ext (s s' : Writer) :
  err s' = err s → events s' = events s → seen s' = seen s →
  cidx s' = cidx s → once s' = once s → ready s' = ready s →
  workers s' = workers s → file s' = file s → Resume s' = Resume s →
  healthy s → healthy s'.
Proof.
  intros E1 E2 E3 E4 E5 E6 E7 E8 E9 [A B C D F].
  split; rewrite ?E1, ?E2, ?E3, ?E4, ?E5, ?E6, ?E7, ?E8, ?E9; done.
Qed.

Lemma healthy_startDo (s : Writer) : healthy s → healthy (startDo s).
Proof.
  apply healthy_ext; unfold startDo; destruct (start s); try done;
    by destruct (csize _ =? 0).
Qed.

Lemma Write_ok (fuel : nat) : ∀ (C : Z) (p B : list Byte.byte) (s : Writer),
  cooperative → chunked C B (startDo s) → healthy s →
  Z.of_nat (length (B ++ p)) ≤ max_int → (length p < fuel)%nat →
  ∃ (r : Z * option error) (s' : Writer),
    Write fuel p s = Done r s' ∧ snd r = None
    ∧ chunked C (B ++ p) s' ∧ healthy s'.
Proof.
  induction fuel as [|fuel IH]; intros C p B s Hco Hch Hh Hmax Hfuel; [lia|].
  assert (He : err s = None) by apply Hh.
  assert (Hgoal : ∃ (r : Z * option error) (s' : Writer),
            Write (S fuel) p s = Done r s' ∧ snd r = None ∧ healthy s').
  { rewrite Write_S. unfold getErr. rewrite He.
    destruct (chunked_length _ _ _ Hch) as (b & Hb & Hlt & Hlen).
    rewrite Hb, (ch_csize _ _ _ Hch). cbv zeta.
    pose proof (ch_pos _ _ _ Hch) as Hpos.
    assert (Hleft : int_sub C (wb_Len b) = C - wb_Len b).
    { unfold int_sub. apply wrap_small. unfold max_int in *. lia. }
    rewrite Hleft.
    destruct (Z.ltb_spec (Z.of_nat (length p)) (C - wb_Len b)) as [Hp|Hp].
    { eexists _, _. split; [reflexivity|]. split; [reflexivity|].
      by apply (healthy_ext (startDo s)), healthy_startDo. }
    destruct (Z.ltb_spec (C - wb_Len b) 0) as [Hneg|_]; [lia|].
    set (left := Z.to_nat (C - wb_Len b)).
    assert (Hl : Z.of_nat left = C - wb_Len b) by (subst left; lia).
    assert (Htake : length (firstn left p) = left) by (rewrite length_firstn; lia).
    destruct fuel as [|fuel']; [lia|].
    destruct (sendChunk_ok fuel' (set_w (Some (b ++ firstn left p)) (startDo s))
                (b ++ firstn left p) Hco) as (s2 & Hsend & Hh2 & _).
    { by apply (healthy_ext (startDo s)), healthy_startDo. }
    { reflexivity. }
    rewrite Hsend. cbn [bind].
    assert (Hc2 : chunked C (B ++ firstn left p) s2).
    { apply (sendChunk_chunked (S fuel') C B (firstn left p) (startDo s) b s2);
        try done.
      - lia.
      - rewrite length_app in Hmax |- *. rewrite Htake. lia. }
    destruct (IH C (skipn left p) (B ++ firstn left p) s2 Hco) as (r & s3 & HW & Hr & _ & Hh3).
    { by rewrite (startDo_started s2) by apply Hc2. }
    { done. }
    { by rewrite <- app_assoc, firstn_skipn. }
    { rewrite length_skipn. lia. }
    rewrite HW. cbn [bind]. rewrite Hr, setErr_nil.
    eexists _, _. split; [reflexivity|]. by split. }
  destruct Hgoal as (r & s' & HW & Hr & Hh').
  exists r, s'. split; [done|]. split; [done|]. split; [|done].
  apply (Write_chunked (S fuel) C p B s r); try done. apply Hh'.
Qed.

Lemma writeAll_ok (fuel : nat) (C : Z) (ps : list (list Byte.byte)) :
  ∀ (B : list Byte.byte) (s : Writer),
  cooperative → chunked C B s → healthy s →
  Z.of_nat (length (B ++ concat ps)) ≤ max_int →
  (length (concat ps) < fuel)%nat →
  ∃ s' : Writer,
    writeAll fuel ps s = Done tt s' ∧ chunked C (B ++ concat ps) s' ∧ healthy s'.
Proof.
  induction ps as [|p ps IH]; intros B s Hco Hch Hh Hmax Hfuel.
  - exists s. by rewrite app_nil_r.
  - cbn [concat] in *. rewrite length_app in Hfuel. rewrite app_assoc in Hmax |- *.
    destruct (Write_ok fuel C p B s Hco) as (r & s1 & HW & _ & Hch1 & Hh1).
    { by rewrite (startDo_started s) by apply Hch. }
    { done. }
    { rewrite length_app in Hmax. lia. }
    { lia. }
    destruct (IH (B ++ p) s1 Hco Hch1 Hh1 Hmax) as (s' & HW' & Hch' & Hh'); [lia|].
    exists s'. cbn [writeAll]. rewrite HW. cbn [bind]. by split.
Qed.

Lemma Close_ok (fuel : nat) (C : Z) (B : list Byte.byte) (s : Writer) :
  cooperative → chunked C B s → healthy s → done s = false →
  ∃ s2 : Writer, Close (S fuel) s = Done None s2.
Proof.
  intros Hco Hch Hh Hd.
  destruct (ch_bytes _ _ _ Hch) as (b & Hb & _ & _).
  unfold Close. rewrite Hd. unfold finish. cbn [cidx w set_done].
  destruct (Z.eqb_spec (cidx s) 0) as [Hz|Hz].
  - (* the simple upload *)
    unfold simpleWriteFile. cbn [events w log set_events set_done].
    pose proof (co_url Hco (calls is_getUploadURL (events s))) as Hu.
    destruct (getUploadURL env _) as [e|ue]; [discriminate|].
    rewrite Hb. cbn [wb_Reader]. rewrite redo_file_S. cbv zeta.
    cbn [events log set_events set_done].
    pose proof (co_file Hco (calls is_uploadFile (EGetUploadURL :: events s))) as Hf.
    destruct (uploadFile env _) as [e|f]; [discriminate|].
    cbn [bind]. rewrite setErr_nil. eexists.
    unfold getErr. cbn [err set_o_f log set_events set_done].
    by rewrite (h_err _ Hh).
  - (* the flush and the finish *)
    rewrite Hb.
    assert (Hflush : ∃ s1 : Writer,
      (if wb_Len b >? 0 then sendChunk (S fuel) (set_done true s)
       else Done None (set_done true s)) = Done None s1
      ∧ healthy s1 ∧ once s1 = true).
    { assert (Hh0 : healthy (set_done true s)) by (by apply (healthy_ext s)).
      destruct (wb_Len b >? 0).
      - destruct (sendChunk_ok fuel (set_done true s) b Hco Hh0 Hb)
          as (s1 & Hs & Hh1 & Ho1).
        by exists s1.
      - exists (set_done true s). split; [done|]. split; [done|].
        destruct (h_once _ Hh) as [Hc|Ho]; [done|exact Ho]. }
    destruct Hflush as (s1 & -> & Hh1 & Ho1). cbn [bind].
    pose proof (h_pool _ Hh1) as Hp. rewrite Ho1 in Hp.
    destruct Hp as (Hr & _ & Hf). rewrite Hr.
    cbn [file log set_events set_workers set_ready].
    destruct (file s1); [|done].
    pose proof (co_finish Hco (calls is_finishLargeFile (events
      (log EWait (set_workers [] (log ECloseReady (set_ready ChanClosed s1))))))) as Hfin.
    destruct (finishLargeFile env _) as [e|f]; [discriminate|].
    cbn [bind]. eexists. unfold getErr.
    cbn [err set_o_f log set_events set_workers set_ready].
    by rewrite (h_err _ Hh1).
Qed.

(** The hypotheses of C2 are met whenever nothing fails: in a cooperative
    environment, with fuel beyond the length of the stream, the writes and
    the [Close] of a fresh Writer return, and [Close] returns nil. *)
Lemma cooperative_upload_completes (fuel : nat) (ps : list (list Byte.byte))
    (s0 : Writer) :
  cooperative → fresh s0 → healthy s0 → 0 ≤ ChunkSize s0 ≤ max_int →
  total ps ≤ max_int → ps ≠ [] → (length (concat ps) < fuel)%nat →
  ∃ s1 s2 : Writer,
    writeAll fuel ps s0 = Done tt s1 ∧ Close fuel s1 = Done None s2.
Proof.
  intros Hco Hfresh Hh HC Hmax Hne Hfuel. unfold total in Hmax.
  pose proof (fresh_chunked s0 Hfresh HC) as Hch0.
  destruct ps as [|p ps]; [done|]. cbn [concat] in *.
  rewrite length_app in Hfuel.
  destruct (Write_ok fuel _ p [] s0 Hco Hch0 Hh) as (r & sa & HWa & _ & Hcha & Hha).
  { simpl. rewrite length_app in Hmax. lia. }
  { lia. }
  destruct (writeAll_ok fuel _ ps _ sa Hco Hcha Hha) as (s1 & HW & Hch1 & Hh1).
  { done. } { lia. }
  assert (Hd1 : done s1 = false).
  { pose proof (writeAll_done fuel ps sa) as Hd. rewrite HW in Hd.
    pose proof (Write_done fuel p s0) as Hd'. rewrite HWa in Hd'.
    cbn [final] in Hd, Hd'. rewrite Hd, Hd'. apply Hfresh. }
  destruct fuel as [|fuel']; [lia|].
  destruct (Close_ok fuel' _ _ s1 Hco Hch1 Hh1 Hd1) as (s2 & HCl).
  exists s1, s2. cbn [writeAll]. rewrite HWa. cbn [bind]. by split.
Qed.

(** ** More on Write *)

Lemma sendChunk_failed (fuel : nat) (s s' : Writer) (e : error) :
  sendChunk fuel s = Done (Some e) s' → stable s s'.
Proof.
  intros H. destruct (sendChunk_inv fuel s) as (s1 & Hst & H').
  destruct H' as [[r Hr]|[[e' He]|(b & Hb & Hd)]]; [congruence| |].
  - rewrite H in He. by apply Done_inj in He as [_ ->].
  - rewrite H in Hd. by destruct (deliver _ _ _).
Qed.

Lemma take_length_take {A} (n : nat) (l : list A) :
  firstn (length (firstn n l)) l = firstn n l.
Proof.
  rewrite length_firstn. destruct (Nat.le_ge_cases n (length l)).
  - by rewrite Nat.min_l.
  - rewrite Nat.min_r by done. by rewrite !take_ge.
Qed.

Lemma startDo_err (s : Writer) : err (startDo s) = err s.
Proof. unfold startDo. destruct (start s); [done|]. by destruct (csize _ =? 0). Qed.

Lemma startDo_events (s : Writer) : events (startDo s) = events s.
Proof. unfold startDo. destruct (start s); [done|]. by destruct (csize _ =? 0). Qed.

Lemma stream_some (s : Writer) (b : writeBuffer) :
  w s = Some b → stream s = concat (map buf (sends (events s))) ++ b.
Proof. intros H. unfold stream, buffered. by rewrite H. Qed.

Lemma startDo_stream (s : Writer) :
  (start s = false → w s = None) → stream (startDo s) = stream s.
Proof.
  intros H. unfold stream, buffered. rewrite startDo_events. f_equal.
  unfold startDo. destruct (start s); [done|]. rewrite (H eq_refl).
  by destruct (csize _ =? 0).
Qed.

Lemma setErr_w (e : option error) (s : Writer) : w (setErr e s) = w s.
Proof. change (w (front (setErr e s)) = w (front s)). by rewrite setErr_front. Qed.

Lemma setErr_stream (e : option error) (s : Writer) : stream (setErr e s) = stream s.
Proof. unfold stream, buffered. by rewrite setErr_sends, setErr_w. Qed.

Lemma setErr_start (e : option error) (s : Writer) : start (setErr e s) = start s.
Proof. change (start (front (setErr e s)) = start (front s)). by rewrite setErr_front. Qed.


(** What [Write] accepts: [n] bytes of [p], no more than it was given and
    all of them when it returns nil, appended in order to what the Writer
    held. *)
Lemma Write_accepts (fuel : nat) :
  ∀ (p : list Byte.byte) (s : Writer) (n : Z) (e : option error) (s' : Writer),
  (start s = false → w s = None) →
  Z.of_nat (length p) ≤ max_int →
  Write fuel p s = Done (n, e) s' →
  0 ≤ n ≤ Z.of_nat (length p)
  ∧ (e = None → n = Z.of_nat (length p))
  ∧ stream s' = stream s ++ firstn (Z.to_nat n) p
  ∧ start s' = start (match err s with Some _ => s | None => startDo s end).
Proof.
  induction fuel as [|fuel IH]; intros p s n e s' Hw Hmax H; [discriminate|].
  rewrite Write_S in H. unfold getErr in *.
  destruct (err s) as [x|] eqn:He.
  { apply Done_inj in H as [[= <- <-] <-]. simpl. rewrite app_nil_r.
    repeat split; (done || lia). }
  rewrite <- (startDo_stream s Hw).
  destruct (w (startDo s)) as [b|] eqn:Hb; [|discriminate]. cbv zeta in H.
  destruct (_ <? _).
  { apply Done_inj in H as [[= <- <-] <-].
    split; [lia|]. split; [done|]. split; [|done].
    rewrite (stream_some _ (b ++ p)), (stream_some _ b Hb) by done.
    cbn [events set_w]. by rewrite Nat2Z.id, firstn_all, app_assoc. }
  destruct (Z.ltb_spec (int_sub (csize (startDo s)) (wb_Len b)) 0) as [|Hleft];
    [discriminate|].
  set (left := Z.to_nat (int_sub (csize (startDo s)) (wb_Len b))) in *.
  set (s0 := set_w (Some (b ++ firstn left p)) (startDo s)) in *.
  assert (Hs0 : stream s0 = stream (startDo s) ++ firstn left p).
  { rewrite (stream_some s0 (b ++ firstn left p)), (stream_some _ b Hb) by done.
    subst s0. cbn [events set_w]. by rewrite app_assoc. }
  assert (Htl : (length (firstn left p) ≤ length p)%nat)
    by (rewrite length_firstn; lia).
  pose proof (sendChunk_config fuel s0) as (_ & _ & Hst & _).
  destruct (sendChunk fuel s0) as [[x|] s1|r s1] eqn:Hsend; cbn [bind final] in *;
    [| |discriminate].
  - (* the chunk could not be handed over: the full buffer stays *)
    apply Done_inj in H as [[= <- <-] <-].
    pose proof (sendChunk_failed _ _ _ _ Hsend) as [Hc Hs _].
    apply core_fields in Hc as (_ & _ & _ & _ & _ & Hw1).
    split; [lia|]. split; [intros Hn; by destruct (setErr_some x s1)|].
    rewrite setErr_stream, setErr_start, Nat2Z.id.
    split; [|by rewrite Hst].
    rewrite take_length_take, <- Hs0. unfold stream, buffered. by rewrite Hs, Hw1.
  - (* the chunk was handed over: the rest is written to a new buffer *)
    destruct (sendChunk_sent _ _ _ Hsend) as (b1 & Hb1 & Hsends & _ & Hw1).
    subst s0. cbn [w events set_w] in Hb1, Hsends. injection Hb1 as <-.
    assert (Hs1 : stream s1 = stream (startDo s) ++ firstn left p).
    { rewrite (stream_some s1 newMemoryBuffer Hw1), (stream_some _ b Hb).
      rewrite Hsends, map_app, concat_app. simpl. unfold newMemoryBuffer.
      by rewrite !app_nil_r, app_assoc. }
    destruct (Write fuel (skipn left p) s1) as [[k e'] s2|r s2] eqn:HW;
      cbn [bind] in H; [|discriminate].
    apply Done_inj in H as [[= <- <-] <-]. cbn [fst snd].
    assert (Hst1 : start s1 = true)
      by (rewrite Hst; cbn [start set_w]; apply startDo_start).
    destruct (IH (skipn left p) s1 k e' s2) as (Hk & Hnil & Hstr & Hst2);
      [intros Hf; congruence | rewrite length_skipn; lia | exact HW |].
    rewrite length_skipn in Hk, Hnil.
    assert (Hadd : int_add (Z.of_nat (length (firstn left p))) k
                   = Z.of_nat (length (firstn left p)) + k).
    { unfold int_add. apply wrap_small. unfold max_int in *.
      rewrite length_firstn. lia. }
    rewrite Hadd, setErr_stream, setErr_start.
    split; [rewrite length_firstn in *; lia|].
    split; [intros ->; specialize (Hnil eq_refl); rewrite length_firstn in *; lia|].
    split.
    + rewrite Hstr, Hs1, <- app_assoc. f_equal.
      rewrite Z2Nat.inj_add, Nat2Z.id by lia.
      rewrite <- take_take_drop, take_length_take. f_equal. f_equal.
      rewrite length_firstn.
      destruct (Nat.le_ge_cases left (length p)); [by rewrite Nat.min_l|].
      rewrite Nat.min_r by done. by rewrite !drop_ge.
    + rewrite Hst2, startDo_start.
      destruct (err s1); by rewrite ?startDo_start.
Qed.

(** X2. [Write] keeps the contract of io.Writer on its count: it reports
    between 0 and len(p) bytes accepted, and all of len(p) whenever it
    returns a nil error. *)
Theorem Write_count (fuel : nat) (p : list Byte.byte) (s : Writer)
    (n : Z) (e : option error) (s' : Writer) :
  (start s = false → w s = None) →
  Z.of_nat (length p) ≤ max_int →
  Write fuel p s = Done (n, e) s' →
  0 ≤ n ≤ Z.of_nat (length p) ∧ (e = None → n = Z.of_nat (length p)).
Proof.
  intros Hw Hmax H.
  destruct (Write_accepts fuel p s n e s' Hw Hmax H) as (A & B & _). by split.
Qed.

(** X3. No byte is lost, repeated or reordered by [Write], whether it
    fails or not: the chunks sent followed by the buffer are, after the
    call, what they were before followed by the first [n] bytes of [p],
    [n] being the count that [Write] returns. *)
Theorem Write_appends_to_stream (fuel : nat) (p : list Byte.byte) (s : Writer)
    (n : Z) (e : option error) (s' : Writer) :
  (start s = false → w s = None) →
  Z.of_nat (length p) ≤ max_int →
  Write fuel p s = Done (n, e) s' →
  stream s' = stream s ++ firstn (Z.to_nat n) p.
Proof.
  intros Hw Hmax H.
  by destruct (Write_accepts fuel p s n e s' Hw Hmax H) as (_ & _ & A & _).
Qed.

(** X4. A negative ChunkSize is taken as it is by the first [Write], which
    then panics on the slice bound [p[:left]] with a negative [left],
    whatever it is given to write. *)
Theorem Write_negative_ChunkSize_panics (fuel : nat) (p : list Byte.byte) (s : Writer) :
  start s = false → err s = None → - 2 ^ 63 ≤ ChunkSize s < 0 →
  Write (S fuel) p s = Abort Panicked (startDo s).
Proof.
  intros Hst He HC. rewrite Write_S. unfold getErr. rewrite He.
  destruct (startDo_fresh s Hst) as (Hcs & Hw & _). rewrite Hw. cbv zeta.
  rewrite Hcs. unfold chunkSizeOf.
  destruct (Z.eqb_spec (ChunkSize s) 0) as [|_]; [lia|].
  assert (Hl : int_sub (ChunkSize s) (wb_Len newMemoryBuffer) = ChunkSize s).
  { unfold int_sub, wb_Len. simpl. rewrite Z.sub_0_r. apply wrap_small. lia. }
  rewrite Hl.
  destruct (Z.ltb_spec (Z.of_nat (length p)) (ChunkSize s)); [lia|].
  destruct (Z.ltb_spec (ChunkSize s) 0); [done|lia].
Qed.

(** ** One cancellation for one error *)

Lemma settled_ext (s s' : Writer) :
  events s' = events s → err s' = err s → settled s → settled s'.
Proof. unfold settled. by intros -> ->. Qed.

Lemma settled_log (e : event) (s : Writer) :
  is_cancel e = false → settled s → settled (log e s).
Proof. unfold settled. intros He Hs. simpl. by rewrite He. Qed.

Lemma settled_setErr (e : option error) (s : Writer) :
  settled s → settled (setErr e s).
Proof.
  unfold settled, setErr. intros Hs.
  destruct e as [x|]; [|done]. destruct (err s) eqn:E; [by rewrite E|].
  simpl. by rewrite Hs.
Qed.

Lemma prologue_settled (s : Writer) : settled s → settled (final (prologue s)).
Proof.
  intros Hs. unfold prologue. destruct (file s); [|done].
  destruct (getUploadPartURL env _); cbn [final].
  - by apply settled_setErr, settled_log.
  - destruct (ready _); cbn [final];
      by apply (settled_ext (log EGetUploadPartURL s)), settled_log.
Qed.

Lemma thread_settled (i : nat) (s : Writer) : settled s → settled (final (thread i s)).
Proof.
  intros Hs. unfold thread. destruct (late env i); [|by apply prologue_settled].
  by apply (settled_ext s).
Qed.

Lemma straggle_settled (s : Writer) : settled s → settled (final (straggle s)).
Proof.
  intros Hs. unfold straggle. destruct (starting s); [done|].
  apply prologue_settled. by apply (settled_ext s).
Qed.

Lemma spawn_settled (n : nat) : ∀ (i : nat) (s : Writer),
  settled s → settled (final (spawn i n s)).
Proof.
  induction n as [|n IH]; intros i s Hs; [done|].
  simpl. apply (bind_final settled); [by apply thread_settled|].
  intros _ s' _ Hs'. by apply IH.
Qed.

Lemma redo_part_settled (fuel : nat) : ∀ (c : chunk) (sl : Z) (fc : endpoint) (s : Writer),
  settled s → settled (final (redo_part fuel c sl fc s)).
Proof.
  induction fuel as [|fuel IH]; intros c sl fc s Hs; [done|].
  rewrite redo_part_S. cbv zeta.
  destruct (partFailed _ _); [|by apply settled_log].
  destruct (reupload env _); [|by apply settled_setErr, settled_log].
  destruct (getUploadPartURL env _).
  - cbn [final]. by repeat first [apply settled_setErr | apply settled_log].
  - apply IH. by repeat apply settled_log.
Qed.

Lemma handle_settled (fuel : nat) (fc : endpoint) (c : chunk) (s : Writer) :
  settled s → settled (final (handle fuel fc c s)).
Proof.
  intros Hs. unfold handle. destruct (seen s !! id c).
  - destruct (negb _); [by apply settled_setErr | done].
  - by apply redo_part_settled.
Qed.

Lemma deliver_settled (fuel : nat) (c : chunk) (s : Writer) :
  settled s → settled (final (deliver fuel c s)).
Proof.
  intros Hs. unfold deliver. cbn [workers log set_events].
  destruct (workers s) as [|fc rest]; [by apply settled_log|].
  apply (bind_final settled).
  - apply handle_settled.
    by apply (settled_ext (log (ESend c) s)), settled_log.
  - intros [fc'|] s' _ Hs'; [|done]. by apply (settled_ext s').
Qed.

Lemma startFresh_settled (s : Writer) : settled s → settled (final (startFresh s)).
Proof.
  intros Hs. unfold startFresh. destruct (startLargeFile env _); by apply settled_log.
Qed.

Lemma resumeLoop_settled (fuel : nat) : ∀ (next : Z) (sn : gmap Z string) (size : Z)
    (s : Writer),
  settled s → settled (final (resumeLoop fuel next sn size s)).
Proof.
  induction fuel as [|fuel IH]; intros next sn size s Hs; [done|].
  simpl.
  assert (Hfresh : settled (final (startFresh
            (set_Resume false (log (EListObjects (name s)) s))))).
  { apply startFresh_settled.
    by apply (settled_ext (log (EListObjects (name s)) s)), settled_log. }
  destruct (ListObjects env _) as [e|objs]; [by apply settled_log|].
  destruct objs as [|o objs]; [exact Hfresh|].
  destruct (negb _); [exact Hfresh|].
  destruct (listParts env _) as [e|[parts n]]; [by repeat apply settled_log|].
  destruct (fold_left addPart parts (sn, size)) as [sn' size'].
  destruct (_ || _).
  - cbn [final]. apply (settled_ext (log (EListParts (obj_f o) next)
                                       (log (EListObjects (name s)) s))); [done|done|].
    by repeat apply settled_log.
  - apply IH. by repeat apply settled_log.
Qed.

Lemma getLargeFile_settled (fuel : nat) (s : Writer) :
  settled s → settled (final (getLargeFile fuel s)).
Proof.
  intros Hs. unfold getLargeFile.
  destruct (negb _); [by apply startFresh_settled | by apply resumeLoop_settled].
Qed.

Lemma startPool_settled (fuel : nat) (s : Writer) :
  settled s → settled (final (startPool fuel s)).
Proof.
  intros Hs. unfold startPool.
  apply (bind_final settled); [by apply getLargeFile_settled|].
  intros [e|lf] s' _ Hs'; [exact Hs'|].
  apply (bind_final settled).
  - apply spawn_settled. destruct (_ <? _); by apply (settled_ext s').
  - by intros _ s'' _ Hs''.
Qed.

Lemma sendChunk_settled (fuel : nat) (s : Writer) :
  settled s → settled (final (sendChunk fuel s)).
Proof.
  intros Hs. unfold sendChunk.
  apply (bind_final settled).
  { destruct (once s); [done|]. apply startPool_settled. by apply (settled_ext s). }
  intros [e|] s1 _ Hs1; [done|].
  destruct (w s1) as [b|]; [|done].
  assert (Hd : settled (final
    (let* (_, s2) := deliver fuel {| id := int_add (cidx s1) 1; buf := b |} s1 in
     Done (None : option error)
       (set_w (Some newMemoryBuffer) (set_cidx (int_add (cidx s2) 1) s2))))).
  { apply (bind_final settled); [by apply deliver_settled|].
    intros _ s2 _ Hs2. by apply (settled_ext s2). }
  destruct (canSend s1), (ctxErr s1); try done.
  - destruct (selectDone env _); [done|]. by destruct (ready s1).
  - by destruct (ready s1).
Qed.

Lemma redo_file_settled (fuel : nat) : ∀ (ue : endpoint) (b : writeBuffer)
    (sha ctype : string) (s : Writer),
  settled s → settled (final (redo_file fuel ue b sha ctype s)).
Proof.
  induction fuel as [|fuel IH]; intros ue b sha ctype s Hs; [done|].
  rewrite redo_file_S. cbv zeta.
  destruct (uploadFile env _).
  - destruct (reupload env _); [|by apply settled_log].
    destruct (getUploadURL env _); [by repeat apply settled_log|].
    apply IH. by repeat apply settled_log.
  - cbn [final]. apply (settled_ext (log (EUploadFile ue b (wb_Len b) (name s) ctype sha
                                            (deref s (info s))) s)); [done|done|].
    by apply settled_log.
Qed.

Lemma simpleWriteFile_settled (fuel : nat) (s : Writer) :
  settled s → settled (final (simpleWriteFile fuel s)).
Proof.
  intros Hs. unfold simpleWriteFile.
  destruct (getUploadURL env _); [by apply settled_log|].
  destruct (w _); [|by apply settled_log].
  simpl. apply redo_file_settled. by apply settled_log.
Qed.

Lemma startDo_settled (s : Writer) : settled s → settled (startDo s).
Proof. apply settled_ext; [apply startDo_events | apply startDo_err]. Qed.

Lemma Write_settled (fuel : nat) : ∀ (p : list Byte.byte) (s : Writer),
  settled s → settled (final (Write fuel p s)).
Proof.
  induction fuel as [|fuel IH]; intros p s Hs; [done|].
  rewrite Write_S. destruct (getErr s); [done|].
  pose proof (startDo_settled s Hs) as Hs0.
  destruct (w (startDo s)); [|done]. cbv zeta.
  destruct (_ <? _); [by apply (settled_ext (startDo s))|].
  destruct (_ <? 0); [done|].
  apply (bind_final settled).
  { apply sendChunk_settled. by apply (settled_ext (startDo s)). }
  intros [e|] s1 _ Hs1; [by apply settled_setErr|].
  apply (bind_final settled); [by apply IH|].
  intros r s2 _ Hs2. by apply settled_setErr.
Qed.

Lemma writeAll_settled (fuel : nat) (ps : list (list Byte.byte)) : ∀ s : Writer,
  settled s → settled (final (writeAll fuel ps s)).
Proof.
  induction ps as [|p ps IH]; intros s Hs; [done|].
  simpl. apply (bind_final settled); [by apply Write_settled|].
  intros _ s' _ Hs'. by apply IH.
Qed.

Lemma finish_settled (fuel : nat) (s : Writer) :
  settled s → settled (final (finish fuel s)).
Proof.
  intros Hs. unfold finish. destruct (cidx s =? 0).
  { apply (bind_final settled); [by apply simpleWriteFile_settled|].
    intros e s1 _ Hs1. by apply settled_setErr. }
  destruct (w s) as [b|]; [|done].
  apply (bind_final settled).
  { destruct (wb_Len b >? 0); [by apply sendChunk_settled | done]. }
  intros [e|] s1 _ Hs1; [by apply settled_setErr|].
  destruct (ready s1); [done| |done].
  assert (Hs2 : settled (log EWait (set_workers []
                  (log ECloseReady (set_ready ChanClosed s1))))).
  { apply settled_log; [done|].
    apply (settled_ext (log ECloseReady (set_ready ChanClosed s1))); [done|done|].
    apply settled_log; [done|]. by apply (settled_ext s1). }
  destruct (file _); [|exact Hs2].
  destruct (finishLargeFile env _); cbn [final].
  - by apply settled_setErr, settled_log.
  - eapply settled_ext; [| |apply (settled_log EFinishLargeFile _ eq_refl Hs2)]; done.
Qed.

Lemma Close_settled (fuel : nat) (s : Writer) :
  settled s → settled (final (Close fuel s)).
Proof.
  intros Hs. unfold Close.
  apply (bind_final settled).
  { destruct (done s); [done|]. apply finish_settled. by apply (settled_ext s). }
  by intros _ s' _ Hs'.
Qed.

(** X5. Over a whole upload the Writer cancels its context exactly once
    if it ends with an error stored and never if it does not: after any
    sequence of [Write] calls, and again after the [Close] that follows,
    the number of calls of [w.cancel] is 1 when [getErr] is non-nil and 0
    when it is nil, however many goroutines and calls have failed. *)
Theorem upload_cancels_once (fuel : nat) (ps : list (list Byte.byte)) (s : Writer) :
  settled s →
  settled (final (writeAll fuel ps s))
  ∧ settled (final (Close fuel (final (writeAll fuel ps s)))).
Proof.
  intros Hs. pose proof (writeAll_settled fuel ps s Hs) as H1.
  split; [exact H1 | by apply Close_settled].
Qed.

(** ** The pool *)

Lemma setErr_workers (e : option error) (s : Writer) : workers (setErr e s) = workers s.
Proof. unfold setErr. by destruct e, (err s). Qed.

Lemma setErr_starting (e : option error) (s : Writer) :
  starting (setErr e s) = starting s.
Proof. unfold setErr. by destruct e, (err s). Qed.

Lemma granted_add (m1 : nat) : ∀ k m2 : nat,
  granted k (m1 + m2) = (granted k m1 + granted (k + m1) m2)%nat.
Proof.
  induction m1 as [|m1 IH]; intros k m2; simpl.
  - by rewrite Nat.add_0_r.
  - rewrite IH. replace (S k + m1)%nat with (k + S m1)%nat by lia. lia.
Qed.

(** Of the goroutines started, [m] have asked for their endpoint and the
    others are still starting; one is parked for each endpoint granted. *)
Lemma thread_counts (i : nat) (s s' : Writer) :
  ready s = ChanOpen → thread i s = Done tt s' →
  ConcurrentUploads s' = ConcurrentUploads s ∧ ready s' = ChanOpen
  ∧ ∃ m : nat,
      calls is_getUploadPartURL (events s') =
        (calls is_getUploadPartURL (events s) + m)%nat
      ∧ (starting s' + m = starting s + 1)%nat
      ∧ length (workers s') =
        (length (workers s) + granted (calls is_getUploadPartURL (events s)) m)%nat.
Proof.
  intros Hr. unfold thread, prologue. destruct (late env i).
  { intros H. apply Done_inj in H as [_ <-]. split; [done|]. split; [done|].
    exists O. simpl. repeat split; lia. }
  destruct (file s); [|discriminate].
  destruct (getUploadPartURL env _) as [e|fc] eqn:Hu.
  - intros H. apply Done_inj in H as [_ <-].
    split; [exact (f_equal ConcurrentUploads (setErr_front _ _))|].
    split; [rewrite <- Hr; exact (f_equal ready (setErr_front _ _))|].
    exists 1%nat. rewrite setErr_calls, setErr_workers by done.
    cbn [granted]. rewrite Hu. cbn [is_inl].
    split; [simpl; lia|]. split; [|simpl; lia].
    rewrite setErr_starting. simpl. lia.
  - cbn [ready log set_events]. rewrite Hr. intros H. apply Done_inj in H as [_ <-].
    split; [done|]. split; [done|].
    exists 1%nat. cbn [granted]. rewrite Hu. cbn [is_inl].
    split; [simpl; lia|]. split; [simpl; lia|].
    cbn [workers set_workers]. rewrite length_app. simpl. lia.
Qed.

Lemma spawn_counts (n : nat) : ∀ (i : nat) (s s' : Writer),
  ready s = ChanOpen → spawn i n s = Done tt s' →
  ConcurrentUploads s' = ConcurrentUploads s ∧ ready s' = ChanOpen
  ∧ ∃ m : nat,
      calls is_getUploadPartURL (events s') =
        (calls is_getUploadPartURL (events s) + m)%nat
      ∧ (starting s' + m = starting s + n)%nat
      ∧ length (workers s') =
        (length (workers s) + granted (calls is_getUploadPartURL (events s)) m)%nat.
Proof.
  induction n as [|n IH]; intros i s s' Hr H.
  - apply Done_inj in H as [_ <-]. split; [done|]. split; [done|].
    exists O. simpl. repeat split; lia.
  - cbn [spawn] in H. destruct (thread i s) as [[] s1|r s1] eqn:Ht; [|discriminate].
    cbn [bind] in H.
    apply (thread_counts i s s1 Hr) in Ht as (A1 & A2 & m1 & A3 & A4 & A5).
    apply (IH (S i) s1 s' A2) in H as (B1 & B2 & m2 & B3 & B4 & B5).
    split; [congruence|]. split; [done|].
    exists (m1 + m2)%nat. rewrite B3, B5, A3, A5, granted_add.
    repeat split; lia.
Qed.

Lemma calls_quiet (k : event → bool) (e : event) (s : Writer) :
  k e = false → calls k (events (log e s)) = calls k (events s).
Proof. intros H. simpl. by rewrite H. Qed.

Lemma startFresh_shell (s : Writer) : shell (final (startFresh s)) = shell s.
Proof. unfold startFresh. by destruct (startLargeFile env _). Qed.

Lemma startFresh_calls (k : event → bool) (s : Writer) :
  (∀ e : event, is_listing e = true → k e = false) →
  calls k (events (final (startFresh s))) = calls k (events s).
Proof.
  intros Hk. unfold startFresh.
  destruct (startLargeFile env _); cbn [final]; by rewrite calls_quiet by (by apply Hk).
Qed.

Lemma resumeLoop_shell (fuel : nat) : ∀ (next : Z) (sn : gmap Z string) (size : Z)
    (s : Writer),
  shell (final (resumeLoop fuel next sn size s)) = shell s.
Proof.
  induction fuel as [|fuel IH]; intros next sn size s; [done|].
  simpl.
  destruct (ListObjects env _) as [e|objs]; [done|].
  destruct objs as [|o objs]; [by rewrite startFresh_shell|].
  destruct (negb _); [by rewrite startFresh_shell|].
  destruct (listParts env _) as [e|[parts n]]; [done|].
  destruct (fold_left addPart parts (sn, size)) as [sn' size'].
  destruct (_ || _); [done|]. by rewrite IH.
Qed.

Lemma resumeLoop_calls (k : event → bool) (fuel : nat) :
  (∀ e : event, is_listing e = true → k e = false) →
  ∀ (next : Z) (sn : gmap Z string) (size : Z) (s : Writer),
  calls k (events (final (resumeLoop fuel next sn size s))) = calls k (events s).
Proof.
  intros Hk. induction fuel as [|fuel IH]; intros next sn size s; [done|].
  simpl.
  assert (Hlo : k (EListObjects (name s)) = false) by (by apply Hk).
  assert (Hfresh : calls k (events (final (startFresh
            (set_Resume false (log (EListObjects (name s)) s))))) = calls k (events s)).
  { rewrite startFresh_calls by done. simpl. by rewrite Hlo. }
  destruct (ListObjects env _) as [e|objs]; [simpl; by rewrite Hlo|].
  destruct objs as [|o objs]; [exact Hfresh|].
  destruct (negb _); [exact Hfresh|].
  assert (Hlp : k (EListParts (obj_f o) next) = false) by (by apply Hk).
  destruct (listParts env _) as [e|[parts n]]; [simpl; by rewrite Hlp, Hlo|].
  destruct (fold_left addPart parts (sn, size)) as [sn' size'].
  destruct (_ || _); [simpl; by rewrite Hlp, Hlo|].
  rewrite IH. simpl. by rewrite Hlp, Hlo.
Qed.

Lemma getLargeFile_shell (fuel : nat) (s : Writer) :
  shell (final (getLargeFile fuel s)) = shell s.
Proof.
  unfold getLargeFile.
  destruct (negb _); [apply startFresh_shell | apply resumeLoop_shell].
Qed.

Lemma getLargeFile_calls (k : event → bool) (fuel : nat) (s : Writer) :
  (∀ e : event, is_listing e = true → k e = false) →
  calls k (events (final (getLargeFile fuel s))) = calls k (events s).
Proof.
  intros Hk. unfold getLargeFile.
  destruct (negb _); [by apply startFresh_calls | by apply resumeLoop_calls].
Qed.

Lemma listing_not (k : event → bool) :
  (∀ e : event, k e = true → is_listing e = false) →
  ∀ e : event, is_listing e = true → k e = false.
Proof. intros H e He. destruct (k e) eqn:E; [|done]. apply H in E. congruence. Qed.

(** X6. When the pool is started, [max(ConcurrentUploads, 1)] goroutines
    are started, no more and no fewer.  Each of them has asked for its part
    endpoint, or is still about to; for each endpoint that was granted a
    goroutine waits on the channel.  ConcurrentUploads itself is raised to
    1 if it was smaller, and the channel is open. *)
Theorem startPool_starts_pool (fuel : nat) (s s' : Writer) :
  startPool fuel s = Done None s' →
  ConcurrentUploads s' = Z.max (ConcurrentUploads s) 1
  ∧ ready s' = ChanOpen
  ∧ ∃ m : nat,
      calls is_getUploadPartURL (events s') =
        (calls is_getUploadPartURL (events s) + m)%nat
      ∧ (starting s' + m =
         starting s + Z.to_nat (Z.max (ConcurrentUploads s) 1))%nat
      ∧ length (workers s') =
        (length (workers s) + granted (calls is_getUploadPartURL (events s)) m)%nat.
Proof.
  unfold startPool. intros H.
  pose proof (getLargeFile_shell fuel s) as Hsh.
  assert (Hk : calls is_getUploadPartURL (events (final (getLargeFile fuel s))) =
               calls is_getUploadPartURL (events s)).
  { apply getLargeFile_calls, listing_not. intros e He. by destruct e. }
  destruct (getLargeFile fuel s) as [[e|lf] s1|r s1]; cbn [bind final] in *;
    [discriminate| |discriminate].
  set (s2 := if _ <? 1 then _ else _) in H.
  assert (Hcu : ConcurrentUploads s2 = Z.max (ConcurrentUploads s) 1).
  { assert (Hc1 : ConcurrentUploads s1 = ConcurrentUploads s)
      by exact (f_equal ConcurrentUploads Hsh).
    subst s2. cbn [ConcurrentUploads set_ready set_file]. rewrite Hc1.
    destruct (Z.ltb_spec (ConcurrentUploads s) 1);
      cbn [ConcurrentUploads set_ConcurrentUploads set_ready set_file]; lia. }
  assert (Hs2 : events s2 = events s1 ∧ workers s2 = workers s1
                ∧ starting s2 = starting s1 ∧ ready s2 = ChanOpen).
  { subst s2. by destruct (_ <? 1). }
  destruct Hs2 as (Hev & Hws & Hst & Hr).
  destruct (spawn 0 (Z.to_nat (ConcurrentUploads s2)) s2) as [[] s3|r s3] eqn:Hsp;
    cbn [bind] in H; [|discriminate].
  apply Done_inj in H as [_ <-].
  apply (spawn_counts _ _ _ _ Hr) in Hsp as (A & B & m & C & D & E).
  split; [congruence|]. split; [done|].
  exists m. rewrite C, E, Hev, Hws, Hk.
  rewrite (f_equal workers Hsh : workers s1 = workers s).
  rewrite Hst, Hcu in D.
  rewrite (f_equal starting Hsh : starting s1 = starting s) in D.
  by repeat split.
Qed.

(** ** Resuming *)

Lemma resumeLoop_S (fuel : nat) (next : Z) (sn : gmap Z string) (size : Z) (s : Writer) :
  resumeLoop (S fuel) next sn size s =
  let s1 := log (EListObjects (name s)) s in
  match ListObjects env (calls is_listObjects (events s)) with
  | inl e => Done (inl e) s1
  | inr [] => startFresh (set_Resume false s1)
  | inr (o :: _) =>
      if negb (String.eqb (obj_name o) (name s)) then startFresh (set_Resume false s1)
      else
        let s2 := log (EListParts (obj_f o) next) s1 in
        match listParts env (calls is_listParts (events s)) with
        | inl e => Done (inl e) s2
        | inr (parts, n) =>
            if (length parts =? 0)%nat || (n =? 0)
            then Done (inr (CompiledParts (obj_f o)
                              (snd (fold_left addPart parts (sn, size)))
                              (fst (fold_left addPart parts (sn, size)))))
                   (set_seen (fst (fold_left addPart parts (sn, size))) s2)
            else resumeLoop fuel n (fst (fold_left addPart parts (sn, size)))
                   (snd (fold_left addPart parts (sn, size))) s2
        end
  end.
Proof.
  simpl. destruct (ListObjects env _) as [e|[|o objs]]; try reflexivity.
  destruct (negb _); [reflexivity|].
  destruct (listParts env _) as [e|[parts n]]; [reflexivity|].
  by destruct (fold_left addPart parts (sn, size)).
Qed.

(** The pagination of [getLargeFile], page by page: as long as the object
    is listed under the Writer's name, every page that is not empty and
    carries a continuation marker is followed by a request with that
    marker, and the parts of all pages, up to the first page that is empty
    or has no marker, are accumulated. *)
Lemma resumeLoop_pages (fi : fileHandle) (pgs : list (list part * Z)) :
  ∀ (fuel : nat) (next : Z) (sn : gmap Z string) (size : Z) (s : Writer)
    (lastps : list part) (lastn : Z),
  (∀ i : nat, (i ≤ length pgs)%nat →
     ∃ (o : Object) (objs : list Object),
       ListObjects env (calls is_listObjects (events s) + i) = inr (o :: objs)
       ∧ obj_name o = name s ∧ obj_f o = fi) →
  (∀ (i : nat) (pg : list part * Z), pgs !! i = Some pg →
     listParts env (calls is_listParts (events s) + i) = inr pg
     ∧ fst pg ≠ [] ∧ snd pg ≠ 0) →
  listParts env (calls is_listParts (events s) + length pgs) = inr (lastps, lastn) →
  lastps = [] ∨ lastn = 0 →
  ∃ s' : Writer,
    resumeLoop (S (length pgs) + fuel) next sn size s =
      Done (inr (CompiledParts fi
              (snd (fold_left addPart (concat (map fst pgs) ++ lastps) (sn, size)))
              (fst (fold_left addPart (concat (map fst pgs) ++ lastps) (sn, size)))))
           s'
    ∧ seen s' = fst (fold_left addPart (concat (map fst pgs) ++ lastps) (sn, size))
    ∧ cursors (events s') = cursors (events s) ++ next :: map snd pgs
    ∧ shell s' = shell s.
Proof.
  induction pgs as [|[ps n] pgs IH];
    intros fuel next sn size s lastps lastn Hobj Hpg Hlast Hstop.
  - destruct (Hobj O ltac:(simpl; lia)) as (o & objs & Ho & Hname & Hfi).
    rewrite Nat.add_0_r in Ho, Hlast.
    cbn [length Nat.add]. rewrite resumeLoop_S. cbv zeta.
    rewrite Ho, Hname, String.eqb_refl, Hlast, Hfi. cbn [negb].
    assert ((length lastps =? 0)%nat || (lastn =? 0) = true) as ->.
    { destruct Hstop as [->| ->]; [done|]. by rewrite orb_true_r. }
    eexists. split; [reflexivity|]. by repeat split.
  - destruct (Hobj O ltac:(simpl; lia)) as (o & objs & Ho & Hname & Hfi).
    destruct (Hpg O (ps, n) eq_refl) as (Hp & Hne & Hn).
    rewrite Nat.add_0_r in Ho, Hp. cbn [fst snd] in Hne, Hn.
    cbn [length Nat.add]. rewrite resumeLoop_S. cbv zeta.
    rewrite Ho, Hname, String.eqb_refl, Hp. cbn [negb].
    assert ((length ps =? 0)%nat || (n =? 0) = false) as ->.
    { destruct ps; [done|]. simpl. by apply Z.eqb_neq. }
    set (s2 := log (EListParts (obj_f o) next) (log (EListObjects (name s)) s)).
    destruct (IH fuel n (fst (fold_left addPart ps (sn, size)))
                (snd (fold_left addPart ps (sn, size))) s2 lastps lastn)
      as (s' & Hrun & Hseen & Hcur & Hsh).
    + intros i Hi. specialize (Hobj (S i) ltac:(simpl; lia)).
      subst s2. simpl. by rewrite <- Nat.add_succ_comm in Hobj.
    + intros i pg Hi. specialize (Hpg (S i) pg Hi).
      subst s2. simpl. by rewrite <- Nat.add_succ_comm in Hpg.
    + subst s2. simpl. simpl in Hlast. by rewrite <- Nat.add_succ_comm in Hlast.
    + done.
    + exists s'. cbn [map concat fst].
      rewrite <- app_assoc, fold_left_app.
      rewrite <- surjective_pairing in Hrun, Hseen.
      split; [exact Hrun|]. split; [exact Hseen|]. split; [|by rewrite Hsh].
      rewrite Hcur. subst s2. cbn [map snd]. simpl. by rewrite <- app_assoc.
Qed.

(** X7. Resuming drains the listing: with the object listed under the
    Writer's name, [getLargeFile] asks for the parts from marker 1, follows
    every page that is not empty and carries a continuation marker with a
    request at that marker, and stops at the first page that is empty or
    has no marker; [seen] and the session it returns then hold the parts of
    all these pages. *)
Theorem getLargeFile_drains_listing (fuel : nat) (fi : fileHandle)
    (pgs : list (list part * Z)) (s : Writer) (lastps : list part) (lastn : Z) :
  Resume s = true →
  (∀ i : nat, (i ≤ length pgs)%nat →
     ∃ (o : Object) (objs : list Object),
       ListObjects env (calls is_listObjects (events s) + i) = inr (o :: objs)
       ∧ obj_name o = name s ∧ obj_f o = fi) →
  (∀ (i : nat) (pg : list part * Z), pgs !! i = Some pg →
     listParts env (calls is_listParts (events s) + i) = inr pg
     ∧ fst pg ≠ [] ∧ snd pg ≠ 0) →
  listParts env (calls is_listParts (events s) + length pgs) = inr (lastps, lastn) →
  lastps = [] ∨ lastn = 0 →
  ∃ s' : Writer,
    getLargeFile (S (length pgs) + fuel) s =
      Done (inr (CompiledParts fi
              (snd (fold_left addPart (concat (map fst pgs) ++ lastps) (∅, 0)))
              (fst (fold_left addPart (concat (map fst pgs) ++ lastps) (∅, 0)))))
           s'
    ∧ seen s' = fst (fold_left addPart (concat (map fst pgs) ++ lastps) (∅, 0))
    ∧ cursors (events s') = cursors (events s) ++ 1 :: map snd pgs.
Proof.
  intros Hres Hobj Hpg Hlast Hstop. unfold getLargeFile. rewrite Hres. cbn [negb].
  destruct (resumeLoop_pages fi pgs fuel 1 ∅ 0 s lastps lastn Hobj Hpg Hlast Hstop)
    as (s' & H1 & H2 & H3 & _).
  by exists s'.
Qed.

(** X8. What the listed parts leave in [seen]: under each number the hash
    of the last part listed with that number, and under any other number
    what was there before. *)
Theorem addPart_lookup (parts : list part) :
  ∀ (sn : gmap Z string) (size n : Z),
  fst (fold_left addPart parts (sn, size)) !! n =
  match List.find (λ p, p_number p =? n) (rev parts) with
  | Some p => Some (p_sha1 p)
  | None => sn !! n
  end.
Proof.
  induction parts as [|p parts IH] using rev_ind; intros sn size n; [done|].
  rewrite fold_left_app, rev_app_distr. cbn [fold_left rev app List.find].
  unfold addPart at 1. cbn [fst].
  destruct (Z.eqb_spec (p_number p) n) as [->|Hne].
  - by rewrite lookup_insert_eq.
  - rewrite lookup_insert_ne by done. apply IH.
Qed.

(** ** A part that is seen is never uploaded *)

Lemma unseen_ext (s s' : Writer) :
  events s' = events s → seen s' = seen s → ready s' = ready s →
  once s' = once s → unseen s → unseen s'.
Proof. intros E1 E2 E3 E4 [A B C]. split; rewrite ?E1, ?E2, ?E3, ?E4; done. Qed.

Lemma unseen_log (e : event) (s : Writer) :
  is_uploadPart e = false → unseen s → unseen (log e s).
Proof.
  intros He [A B C].
  assert (Hu : uploaded (events (log e s)) = uploaded (events s)) by (by destruct e).
  split; rewrite ?Hu; done.
Qed.

Lemma unseen_setErr (e : option error) (s : Writer) : unseen s → unseen (setErr e s).
Proof.
  intros Hs. unfold setErr. destruct e as [x|]; [|done]. destruct (err s); [done|].
  apply (unseen_log ECancel); [done|]. by apply (unseen_ext s).
Qed.

Lemma unseen_upload (fc : endpoint) (b : list Byte.byte) (h : string) (len n : Z)
    (s : Writer) :
  ready s ≠ ChanNil → seen s !! n = None → unseen s →
  unseen (log (EUploadPart fc b h len n) s).
Proof.
  intros Hr Hn [A B C]. split; [done|done|].
  cbn [events log set_events uploaded seen]. by constructor.
Qed.

Lemma prologue_unseen (s : Writer) : unseen s → unseen (final (prologue s)).
Proof.
  intros Hs. unfold prologue. destruct (file s); [|done].
  destruct (getUploadPartURL env _); cbn [final].
  - by apply unseen_setErr, unseen_log.
  - destruct (ready _) eqn:Hr; cbn [final];
      by apply (unseen_ext (log EGetUploadPartURL s)), unseen_log.
Qed.

Lemma thread_unseen (i : nat) (s : Writer) : unseen s → unseen (final (thread i s)).
Proof.
  intros Hs. unfold thread. destruct (late env i); [|by apply prologue_unseen].
  by apply (unseen_ext s).
Qed.

Lemma spawn_unseen (n : nat) : ∀ (i : nat) (s : Writer),
  unseen s → unseen (final (spawn i n s)).
Proof.
  induction n as [|n IH]; intros i s Hs; [done|].
  simpl. apply (bind_final unseen); [by apply thread_unseen|].
  intros _ s' _ Hs'. by apply IH.
Qed.

Lemma redo_part_unseen (fuel : nat) : ∀ (c : chunk) (sl : Z) (fc : endpoint) (s : Writer),
  ready s ≠ ChanNil → seen s !! id c = None → unseen s →
  unseen (final (redo_part fuel c sl fc s)).
Proof.
  induction fuel as [|fuel IH]; intros c sl fc s Hr Hn Hs; [done|].
  rewrite redo_part_S. cbv zeta.
  pose proof (unseen_upload fc (buf c) (Hash env (buf c)) (wb_Len (buf c)) (id c) s
                Hr Hn Hs) as Hs1.
  destruct (partFailed _ _); [|done].
  destruct (reupload env _); [|by apply unseen_setErr].
  destruct (getUploadPartURL env _).
  - cbn [final]. apply unseen_setErr.
    apply (unseen_log EGetUploadPartURL); [done|]. by apply (unseen_log (ESleep sl)).
  - apply IH; [done|done|].
    apply (unseen_log EGetUploadPartURL); [done|]. by apply (unseen_log (ESleep sl)).
Qed.

Lemma handle_keeps_unseen (fuel : nat) (fc : endpoint) (c : chunk) (s : Writer) :
  ready s ≠ ChanNil → unseen s → unseen (final (handle fuel fc c s)).
Proof.
  intros Hr Hs. unfold handle. destruct (seen s !! id c) eqn:Hn.
  - destruct (negb _); [by apply unseen_setErr | done].
  - by apply redo_part_unseen.
Qed.

Lemma deliver_unseen (fuel : nat) (c : chunk) (s : Writer) :
  ready s ≠ ChanNil → unseen s → unseen (final (deliver fuel c s)).
Proof.
  intros Hr Hs. unfold deliver. cbn [workers log set_events].
  destruct (workers s) as [|fc rest]; [by apply unseen_log|].
  apply (bind_final unseen).
  - apply handle_keeps_unseen; [done|].
    by apply (unseen_ext (log (ESend c) s)), unseen_log.
  - intros [fc'|] s' _ Hs'; [|done]. by apply (unseen_ext s').
Qed.

Lemma startFresh_unseen (s : Writer) : unseen s → unseen (final (startFresh s)).
Proof.
  intros Hs. unfold startFresh. destruct (startLargeFile env _); by apply unseen_log.
Qed.

Lemma unseen_set_seen (sn : gmap Z string) (s : Writer) :
  ready s = ChanNil → unseen s → unseen (set_seen sn s).
Proof.
  intros Hr [A B C]. split; [done|done|].
  cbn [events set_seen]. rewrite (B Hr). constructor.
Qed.

Lemma resumeLoop_unseen (fuel : nat) : ∀ (next : Z) (sn : gmap Z string) (size : Z)
    (s : Writer),
  ready s = ChanNil → unseen s → unseen (final (resumeLoop fuel next sn size s)).
Proof.
  induction fuel as [|fuel IH]; intros next sn size s Hr Hs; [done|].
  rewrite resumeLoop_S. cbv zeta.
  assert (Hfresh : unseen (final (startFresh
            (set_Resume false (log (EListObjects (name s)) s))))).
  { apply startFresh_unseen.
    by apply (unseen_ext (log (EListObjects (name s)) s)), unseen_log. }
  destruct (ListObjects env _) as [e|[|o objs]]; [by apply unseen_log|exact Hfresh|].
  destruct (negb _); [exact Hfresh|].
  destruct (listParts env _) as [e|[parts n]]; [by repeat apply unseen_log|].
  destruct (_ || _).
  - cbn [final]. apply unseen_set_seen; [done|]. by repeat apply unseen_log.
  - apply IH; [done|]. by repeat apply unseen_log.
Qed.

Lemma getLargeFile_unseen (fuel : nat) (s : Writer) :
  ready s = ChanNil → unseen s → unseen (final (getLargeFile fuel s)).
Proof.
  intros Hr Hs. unfold getLargeFile.
  destruct (negb _); [by apply startFresh_unseen | by apply resumeLoop_unseen].
Qed.

Lemma startPool_unseen (fuel : nat) (s : Writer) :
  ready s = ChanNil → once s = true → unseen s → unseen (final (startPool fuel s)).
Proof.
  intros Hr Ho Hs. unfold startPool.
  pose proof (getLargeFile_shell fuel s) as Hsh.
  apply (bind_final unseen); [by apply getLargeFile_unseen|].
  intros [e|lf] s' Heq Hs'; [exact Hs'|].
  rewrite Heq in Hsh. cbn [final] in Hsh.
  assert (Ho' : once s' = true) by (rewrite <- Ho; exact (f_equal once Hsh)).
  apply (bind_final unseen).
  - apply spawn_unseen. destruct Hs' as [A B C].
    destruct (_ <? _);
      (split; [intros H; exfalso; revert H; change (once s' = false → False);
               by rewrite Ho' | done | done]).
  - by intros _ s'' _ Hs''.
Qed.

Lemma sendChunk_unseen (fuel : nat) (s : Writer) :
  unseen s → unseen (final (sendChunk fuel s)).
Proof.
  intros Hs. unfold sendChunk.
  apply (bind_final unseen).
  { destruct (once s) eqn:Ho; [done|]. apply startPool_unseen.
    - by apply (un_once _ Hs).
    - done.
    - destruct Hs as [A B C]. by split. }
  intros [e|] s1 _ Hs1; [done|].
  destruct (w s1) as [b|]; [|done].
  assert (Hd : ready s1 ≠ ChanNil → unseen (final
    (let* (_, s2) := deliver fuel {| id := int_add (cidx s1) 1; buf := b |} s1 in
     Done (None : option error)
       (set_w (Some newMemoryBuffer) (set_cidx (int_add (cidx s2) 1) s2))))).
  { intros Hr. apply (bind_final unseen); [by apply deliver_unseen|].
    intros _ s2 _ Hs2. by apply (unseen_ext s2). }
  unfold canSend.
  destruct (ready s1) eqn:Hr; destruct (ctxErr s1); try done.
  - destruct (negb _); [|done]. destruct (selectDone env _); [done|]. by apply Hd.
  - destruct (negb _); [|done]. by apply Hd.
  - by destruct (selectDone env _).
Qed.

Lemma redo_file_unseen (fuel : nat) : ∀ (ue : endpoint) (b : writeBuffer)
    (sha ctype : string) (s : Writer),
  unseen s → unseen (final (redo_file fuel ue b sha ctype s)).
Proof.
  induction fuel as [|fuel IH]; intros ue b sha ctype s Hs; [done|].
  rewrite redo_file_S. cbv zeta.
  destruct (uploadFile env _).
  - destruct (reupload env _); [|by apply unseen_log].
    destruct (getUploadURL env _); [by repeat apply unseen_log|].
    apply IH. by repeat apply unseen_log.
  - cbn [final]. apply (unseen_ext (log (EUploadFile ue b (wb_Len b) (name s) ctype sha
                                           (deref s (info s))) s)); [done..|].
    by apply unseen_log.
Qed.

Lemma simpleWriteFile_unseen (fuel : nat) (s : Writer) :
  unseen s → unseen (final (simpleWriteFile fuel s)).
Proof.
  intros Hs. unfold simpleWriteFile.
  destruct (getUploadURL env _); [by apply unseen_log|].
  destruct (w _); [|by apply unseen_log].
  simpl. apply redo_file_unseen. by apply unseen_log.
Qed.

Lemma startDo_unseen (s : Writer) : unseen s → unseen (startDo s).
Proof.
  apply unseen_ext; unfold startDo; destruct (start s); try done;
    by destruct (csize _ =? 0).
Qed.

Lemma Write_unseen (fuel : nat) : ∀ (p : list Byte.byte) (s : Writer),
  unseen s → unseen (final (Write fuel p s)).
Proof.
  induction fuel as [|fuel IH]; intros p s Hs; [done|].
  rewrite Write_S. destruct (getErr s); [done|].
  pose proof (startDo_unseen s Hs) as Hs0.
  destruct (w (startDo s)); [|done]. cbv zeta.
  destruct (_ <? _); [by apply (unseen_ext (startDo s))|].
  destruct (_ <? 0); [done|].
  apply (bind_final unseen).
  { apply sendChunk_unseen. by apply (unseen_ext (startDo s)). }
  intros [e|] s1 _ Hs1; [by apply unseen_setErr|].
  apply (bind_final unseen); [by apply IH|].
  intros r s2 _ Hs2. by apply unseen_setErr.
Qed.

Lemma writeAll_unseen (fuel : nat) (ps : list (list Byte.byte)) : ∀ s : Writer,
  unseen s → unseen (final (writeAll fuel ps s)).
Proof.
  induction ps as [|p ps IH]; intros s Hs; [done|].
  simpl. apply (bind_final unseen); [by apply Write_unseen|].
  intros _ s' _ Hs'. by apply IH.
Qed.

Lemma finish_unseen (fuel : nat) (s : Writer) :
  unseen s → unseen (final (finish fuel s)).
Proof.
  intros Hs. unfold finish. destruct (cidx s =? 0).
  { apply (bind_final unseen); [by apply simpleWriteFile_unseen|].
    intros e s1 _ Hs1. by apply unseen_setErr. }
  destruct (w s) as [b|]; [|done].
  apply (bind_final unseen).
  { destruct (wb_Len b >? 0); [by apply sendChunk_unseen | done]. }
  intros [e|] s1 _ Hs1; [by apply unseen_setErr|].
  destruct (ready s1) eqn:Hr; [done| |done].
  assert (Hs2 : unseen (log EWait (set_workers []
                  (log ECloseReady (set_ready ChanClosed s1))))).
  { destruct Hs1 as [A B C].
    assert (Ho : once s1 = true).
    { destruct (once s1); [done|]. specialize (A eq_refl). congruence. }
    split; [intros H; exfalso; revert H; change (once s1 = false → False);
            by rewrite Ho | done | exact C]. }
  destruct (file _); [|exact Hs2].
  destruct (finishLargeFile env _); cbn [final].
  - by apply unseen_setErr, unseen_log.
  - eapply unseen_ext; [| | | |apply (unseen_log EFinishLargeFile _ eq_refl Hs2)]; done.
Qed.

Lemma Close_unseen (fuel : nat) (s : Writer) :
  unseen s → unseen (final (Close fuel s)).
Proof.
  intros Hs. unfold Close.
  apply (bind_final unseen).
  { destruct (done s); [done|]. apply finish_unseen. by apply (unseen_ext s). }
  by intros _ s' _ Hs'.
Qed.

(** X9. A part that the interrupted upload already holds is never sent
    again.  Whatever the environment does, after any sequence of [Write]
    calls and the [Close], no part has been uploaded under an id that is
    in [seen]. *)
Theorem seen_parts_never_uploaded (fuel : nat) (ps : list (list Byte.byte)) (s : Writer) :
  unseen s →
  Forall (λ n, seen (final (Close fuel (final (writeAll fuel ps s)))) !! n = None)
    (uploaded (events (final (Close fuel (final (writeAll fuel ps s)))))).
Proof.
  intros Hs. apply un_seen. by apply Close_unseen, writeAll_unseen.
Qed.

(** ** What is uploaded was handed over *)

Lemma sends_mono (e : event) (tr : list event) (c : chunk) :
  c ∈ sends tr → c ∈ sends (e :: tr).
Proof. intros H. destruct e; simpl; try done. apply elem_of_app. by left. Qed.

Lemma carries_mono (e' : event) (tr : list event) (e : event) :
  carries tr e → carries (e' :: tr) e.
Proof.
  destruct e; simpl; try done. intros (H & ? & ?). split; [|done].
  by apply sends_mono.
Qed.

Lemma faithful_ext (s s' : Writer) : events s' = events s → faithful s → faithful s'.
Proof. unfold faithful. by intros ->. Qed.

Lemma faithful_add (e : event) (s : Writer) :
  carries (e :: events s) e → faithful s → faithful (log e s).
Proof.
  intros He Hs. unfold faithful. cbn [events log set_events].
  constructor; [done|]. eapply Forall_impl; [exact Hs|].
  intros e0. apply carries_mono.
Qed.

Lemma faithful_log (e : event) (s : Writer) :
  is_uploadPart e = false → faithful s → faithful (log e s).
Proof. intros He. apply faithful_add. by destruct e. Qed.

Lemma faithful_setErr (e : option error) (s : Writer) :
  faithful s → faithful (setErr e s).
Proof.
  intros Hs. unfold setErr. destruct e as [x|]; [|done]. destruct (err s); [done|].
  apply (faithful_log ECancel); [done|]. by apply (faithful_ext s).
Qed.

Lemma prologue_faithful (s : Writer) : faithful s → faithful (final (prologue s)).
Proof.
  intros Hs. unfold prologue. destruct (file s); [|done].
  destruct (getUploadPartURL env _); cbn [final].
  - by apply faithful_setErr, faithful_log.
  - destruct (ready _); cbn [final];
      by apply (faithful_ext (log EGetUploadPartURL s)), faithful_log.
Qed.


Lemma straggle_faithful (s : Writer) : faithful s → faithful (final (straggle s)).
Proof.
  intros Hs. unfold straggle. destruct (starting s); [done|].
  apply prologue_faithful. by apply (faithful_ext s).
Qed.


















(** ** Writing after Close *)

(** The Writer after the writes of an upload that has left no error. *)
Lemma upload_written (fuel : nat) (ps : list (list Byte.byte)) (s0 s1 : Writer) :
  fresh s0 → 0 ≤ ChunkSize s0 ≤ max_int → total ps ≤ max_int → ps ≠ [] →
  writeAll fuel ps s0 = Done tt s1 → err s1 = None →
  chunked (chunkSizeOf s0) (concat ps) s1 ∧ done s1 = false.
Proof.
  intros Hfresh HC Hmax Hne HW He1. unfold total in *.
  pose proof (fresh_chunked s0 Hfresh HC) as Hch0.
  split.
  - destruct ps as [|p ps]; [done|]. simpl in HW.
    destruct (Write fuel p s0) as [r sa|r sa] eqn:HWa; cbn [bind] in HW; [|discriminate].
    assert (Hea : err sa = None).
    { destruct (err sa) as [x|] eqn:E; [|done].
      pose proof (writeAll_keeps fuel ps sa x E) as Hk. rewrite HW in Hk.
      simpl in Hk. congruence. }
    simpl in Hmax |- *. apply (writeAll_chunked fuel _ ps p sa); try done.
    apply (Write_chunked fuel _ p [] s0 r); try done.
    + apply Hfresh.
    + simpl. rewrite length_app in Hmax. lia.
  - pose proof (writeAll_done fuel ps s0) as Hd. rewrite HW in Hd.
    simpl in Hd. rewrite Hd. apply Hfresh.
Qed.

(** A [Close] that completes a large upload without an error leaves the
    channel closed and the buffer empty. *)
Lemma Close_large_closes (fuel : nat) (s s2 : Writer) :
  done s = false → (cidx s =? 0) = false → unseen s →
  Close fuel s = Done None s2 →
  ready s2 = ChanClosed ∧ once s2 = true ∧ start s2 = start s
  ∧ csize s2 = csize s ∧ w s2 = Some [].
Proof.
  intros Hd Hz Hun HC.
  pose proof (Close_returns_getErr _ _ _ _ HC) as [He2 _]. unfold getErr in He2.
  unfold Close in HC. rewrite Hd in HC.
  destruct (finish fuel (set_done true s)) as [[] s'|r s'] eqn:Hf;
    cbn [bind] in HC; [|discriminate].
  injection HC as _ ->.
  unfold finish in Hf. cbn [cidx w set_done] in Hf. rewrite Hz in Hf.
  destruct (w s) as [b|] eqn:Hb; [|discriminate].
  assert (Hpre : ∀ s1 : Writer,
    (if wb_Len b >? 0 then sendChunk fuel (set_done true s)
     else Done (None : option error) (set_done true s)) = Done None s1 →
    unseen s1 ∧ start s1 = start s ∧ csize s1 = csize s ∧ w s1 = Some []).
  { intros s1 H1. destruct (Z.gtb_spec (wb_Len b) 0) as [Hgt|Hle].
    - pose proof (sendChunk_unseen fuel (set_done true s)) as Hu.
      pose proof (sendChunk_config fuel (set_done true s)) as (_ & A2 & A3 & _).
      destruct (sendChunk_sent _ _ _ H1) as (_ & _ & _ & _ & Hw).
      rewrite H1 in Hu, A2, A3. cbn [final] in *.
      split; [apply Hu; by apply (unseen_ext s)|]. by repeat split.
    - injection H1 as <-. split; [by apply (unseen_ext s)|].
      cbn [start csize w set_done]. repeat split; try done.
      rewrite Hb. f_equal. destruct b; [done|]. unfold wb_Len in Hle. simpl in Hle. lia. }
  destruct (if wb_Len b >? 0 then _ else _) as [[e|] s1|r s1];
    cbn [bind] in Hf; [| |discriminate].
  { injection Hf as <-. by destruct (setErr_some e s1). }
  destruct (Hpre s1 eq_refl) as (Hu1 & A1 & A2 & A3).
  destruct (ready s1) eqn:Hr; [discriminate| |discriminate].
  assert (Ho : once s1 = true).
  { destruct (once s1) eqn:E; [done|]. pose proof (un_once _ Hu1 E). congruence. }
  destruct (file _); [|discriminate].
  destruct (finishLargeFile env _) as [e|f]; apply Done_inj in Hf as [_ <-].
  - by destruct (setErr_some e (log EFinishLargeFile (log EWait (set_workers []
                  (log ECloseReady (set_ready ChanClosed s1)))))).
  - by repeat split.
Qed.

(** X10. Writing on after a large upload has been closed.  Once the writes
    and the [Close] of an upload of at least one chunk size have returned
    without an error, a further [Write] of a chunk size or more does not
    upload anything and does not return an error: with the context still
    live it fills the buffer and panics at the hand-off, the channel being
    closed. *)
Theorem Write_after_large_Close_panics (fuel fuel' : nat) (ps : list (list Byte.byte))
    (p : list Byte.byte) (s0 s1 s2 : Writer) :
  fresh s0 → unseen s0 → 0 ≤ ChunkSize s0 ≤ max_int →
  total ps ≤ max_int → chunkSizeOf s0 ≤ total ps →
  writeAll fuel ps s0 = Done tt s1 →
  Close fuel s1 = Done None s2 →
  ctxErr s2 = None →
  chunkSizeOf s0 ≤ Z.of_nat (length p) →
  Write (S (S fuel')) p s2 =
    Abort Panicked (set_w (Some (firstn (Z.to_nat (chunkSizeOf s0)) p)) s2).
Proof.
  intros Hfresh Hun HC Hmax HL HW HCl Hctx Hp.
  pose proof (Close_returns_getErr _ _ _ _ HCl) as [He2 _]. unfold getErr in He2.
  assert (He1 : err s1 = None).
  { destruct (err s1) as [x|] eqn:E; [|done].
    pose proof (Close_keeps fuel s1 x E) as Hk. rewrite HCl in Hk.
    simpl in Hk. congruence. }
  assert (Hpos : 0 < chunkSizeOf s0 ≤ max_int).
  { unfold chunkSizeOf. destruct (Z.eqb_spec (ChunkSize s0) 0); [done|lia]. }
  assert (Hne : ps ≠ []) by (intros ->; unfold total in HL; simpl in HL; lia).
  destruct (upload_written fuel ps s0 s1 Hfresh HC Hmax Hne HW He1) as [Hch1 Hd1].
  destruct (chunked_length _ _ _ Hch1) as (b & Hb & Hlt & Hlen).
  pose proof (ch_cidx _ _ _ Hch1) as Hcidx.
  assert (Hz : (cidx s1 =? 0) = false).
  { apply Z.eqb_neq. unfold total in HL. nia. }
  assert (Hun1 : unseen s1).
  { pose proof (writeAll_unseen fuel ps s0 Hun) as H. by rewrite HW in H. }
  destruct (Close_large_closes fuel s1 s2 Hd1 Hz Hun1 HCl) as (Hr & Ho & Hst & Hcs & Hw).
  rewrite (ch_start _ _ _ Hch1) in Hst. rewrite (ch_csize _ _ _ Hch1) in Hcs.
  rewrite Write_S. unfold getErr. rewrite <- He2.
  rewrite (startDo_started s2 Hst), Hw, Hcs. cbv zeta.
  assert (Hleft : int_sub (chunkSizeOf s0) (wb_Len []) = chunkSizeOf s0).
  { unfold int_sub, wb_Len. simpl. rewrite Z.sub_0_r. apply wrap_small.
    unfold max_int in *. lia. }
  rewrite Hleft.
  destruct (Z.ltb_spec (Z.of_nat (length p)) (chunkSizeOf s0)) as [|_]; [lia|].
  destruct (Z.ltb_spec (chunkSizeOf s0) 0) as [|_]; [lia|].
  unfold sendChunk. cbn [once set_w bind w]. rewrite Ho. cbn [bind w set_w].
  unfold canSend. cbn [ready set_w]. rewrite Hr.
  change (ctxErr (set_w (Some ([] ++ firstn (Z.to_nat (chunkSizeOf s0)) p)) s2))
    with (ctxErr s2).
  by rewrite Hctx.
Qed.

(** ** Small uploads, as the server sees them *)

Lemma startDo_meta (s : Writer) :
  name (startDo s) = name s ∧ contentType (startDo s) = contentType s
  ∧ info (startDo s) = info s ∧ heap (startDo s) = heap s.
Proof. unfold startDo. destruct (start s); [done|]. by destruct (csize _ =? 0). Qed.

Lemma Write_fits_meta (fuel : nat) (C : Z) (B p : list Byte.byte) (s : Writer) :
  chunked C B (startDo s) → err s = None →
  Z.of_nat (length (B ++ p)) < C →
  name (final (Write (S fuel) p s)) = name s
  ∧ contentType (final (Write (S fuel) p s)) = contentType s
  ∧ info (final (Write (S fuel) p s)) = info s
  ∧ heap (final (Write (S fuel) p s)) = heap s.
Proof.
  intros Hch He Hfit.
  destruct (chunked_length _ _ _ Hch) as (b & Hb & Hlt & Hlen).
  destruct Hch as [Hst HC [Hc0 Hc1] (b0 & Hb0 & _ & HB) Hfull Hids Hcidx].
  rewrite Write_S. unfold getErr. rewrite He, Hb, HC. cbv zeta.
  assert (Hleft : int_sub C (wb_Len b) = C - wb_Len b).
  { unfold int_sub. apply wrap_small. unfold max_int in *. lia. }
  rewrite Hleft. rewrite length_app in Hfit.
  assert (0 ≤ cidx (startDo s) * C) by (rewrite Hcidx; nia).
  destruct (Z.ltb_spec (Z.of_nat (length p)) (C - wb_Len b)) as [Hp|Hp]; [|lia].
  cbn [final name contentType info heap set_w]. apply startDo_meta.
Qed.

Lemma writeAll_fits_meta (fuel : nat) (C : Z) (ps : list (list Byte.byte)) :
  ∀ (B : list Byte.byte) (s : Writer),
  chunked C B s → err s = None →
  Z.of_nat (length (B ++ concat ps)) < C →
  name (final (writeAll (S fuel) ps s)) = name s
  ∧ contentType (final (writeAll (S fuel) ps s)) = contentType s
  ∧ info (final (writeAll (S fuel) ps s)) = info s
  ∧ heap (final (writeAll (S fuel) ps s)) = heap s.
Proof.
  induction ps as [|p ps IH]; intros B s Hch He Hfit; [done|].
  cbn [concat] in Hfit. rewrite app_assoc in Hfit.
  assert (Hst : startDo s = s) by (apply startDo_started, Hch).
  destruct (Write_fits fuel C B p s) as (s1 & HW & Hch1 & He1 & _).
  { by rewrite Hst. } { done. }
  { rewrite length_app in Hfit. lia. }
  destruct (Write_fits_meta fuel C B p s) as (M1 & M2 & M3 & M4).
  { by rewrite Hst. } { done. }
  { rewrite length_app in Hfit. lia. }
  rewrite HW in M1, M2, M3, M4. cbn [final] in M1, M2, M3, M4.
  destruct (IH (B ++ p) s1 Hch1 He1 Hfit) as (N1 & N2 & N3 & N4).
  cbn [writeAll]. rewrite HW. cbn [bind].
  repeat split; congruence.
Qed.

(** X11. A small upload, as the server sees it.  When fewer bytes than one
    chunk size are written, in whatever pieces, and the endpoint request
    and the upload succeed, then the writes make no request at all and
    [Close] makes exactly two: one for an endpoint, and one upload to that
    endpoint of all the bytes written, in the order written, with their
    length, the hash of all of them, the Writer's name, its content type
    (application/octet-stream if none was set) and its metadata.  [Close]
    returns nil and the Writer holds the handle of the object. *)
Theorem small_upload_is_one_request (fuel fuel' : nat) (ps : list (list Byte.byte))
    (s0 : Writer) (ue : endpoint) (f : fileHandle) :
  fresh s0 → 0 ≤ ChunkSize s0 ≤ max_int → ps ≠ [] →
  total ps < chunkSizeOf s0 →
  getUploadURL env (calls is_getUploadURL (events s0)) = inr ue →
  uploadFile env (calls is_uploadFile (events s0)) = inr f →
  ∃ s1 s2 : Writer,
    writeAll (S fuel) ps s0 = Done tt s1
    ∧ events s1 = events s0
    ∧ Close (S fuel') s1 = Done None s2
    ∧ events s2 =
        EUploadFile ue (concat ps) (total ps) (name s0) (ctype_of s0)
          (Hash env (concat ps)) (deref s0 (info s0))
        :: EGetUploadURL :: events s0
    ∧ o_f s2 = Some f.
Proof.
  intros Hfresh HC Hne Hsmall Hurl Hup. unfold total in *.
  pose proof (fresh_chunked s0 Hfresh HC) as Hch0.
  destruct Hfresh as [Hst Hd Hc He Hs].
  destruct ps as [|p ps]; [done|]. cbn [concat] in *.
  destruct (Write_fits fuel _ [] p s0 Hch0 He) as (sa & HWa & Hcha & Hea & Heva & Hda).
  { simpl. rewrite length_app in Hsmall. lia. }
  destruct (Write_fits_meta fuel _ [] p s0 Hch0 He) as (M1 & M2 & M3 & M4).
  { simpl. rewrite length_app in Hsmall. lia. }
  rewrite HWa in M1, M2, M3, M4. cbn [final] in M1, M2, M3, M4.
  destruct (writeAll_fits fuel _ ps _ sa Hcha Hea Hsmall)
    as (s1 & HW & Hch1 & He1 & Hev1 & Hd1).
  destruct (writeAll_fits_meta fuel _ ps _ sa Hcha Hea Hsmall) as (N1 & N2 & N3 & N4).
  rewrite HW in N1, N2, N3, N4. cbn [final] in N1, N2, N3, N4.
  destruct (startDo_fresh s0 Hst) as (_ & _ & _ & Hev0 & _).
  assert (Hev : events s1 = events s0) by congruence.
  destruct (ch_bytes _ _ _ Hch1) as (b & Hb & _ & HB).
  rewrite Hev, Hs in HB. simpl in HB. subst b.
  assert (Hz : cidx s1 = 0) by (rewrite (ch_cidx _ _ _ Hch1), Hev, Hs; done).
  assert (Hname : name s1 = name s0) by congruence.
  assert (Hct : ctype_of s1 = ctype_of s0) by (unfold ctype_of; by rewrite N2, M2).
  assert (Hmeta : deref s1 (info s1) = deref s0 (info s0)).
  { unfold deref. by rewrite N3, M3, N4, M4. }
  eexists s1, _. cbn [writeAll]. rewrite HWa. cbn [bind].
  split; [exact HW|]. split; [exact Hev|].
  unfold Close, finish. rewrite Hd1, Hda, Hd.
  cbn [bind cidx set_done]. rewrite Hz. cbn [Z.eqb].
  unfold simpleWriteFile. cbn [events log set_events set_done w].
  rewrite Hev, Hurl, Hb. cbn [wb_Reader].
  rewrite redo_file_S. cbv zeta. cbn [events log set_events set_done calls is_uploadFile].
  rewrite Hev. cbn [Nat.add]. rewrite Hup. cbn [bind].
  rewrite setErr_nil. unfold getErr.
  cbn [err set_o_f log set_events set_done events o_f name info heap deref].
  rewrite He1.
  split; [reflexivity|]. split; [|reflexivity].
  change (ctype_of (log EGetUploadURL (set_done true s1))) with (ctype_of s1).
  change (deref (log EGetUploadURL (set_done true s1)) (info s1))
    with (deref s1 (info s1)).
  cbn [events set_o_f log set_events set_done].
  by rewrite Hname, Hct, Hmeta, Hev.
Qed.

(** ** A part upload that falls short without an error *)

(** X12. When the upload of a part transfers fewer bytes than the chunk
    holds but reports no error, and the classifier does not have a nil
    error retried, the goroutine leaves without storing an error, so that
    the context is not cancelled either.  With that goroutine the only
    one, none waiting and none still starting, [sendChunk] still reports
    the chunk handed off; no goroutine is left then, and the next hand-off
    blocks for as long as the caller's context is live. *)
Theorem short_upload_without_error_stalls (fuel fuel' : nat) (fc : endpoint)
    (b : writeBuffer) (n : Z) (s : Writer) :
  once s = true → ready s = ChanOpen → workers s = [fc] → starting s = O →
  w s = Some b →
  ctxErr s = None →
  seen s !! int_add (cidx s) 1 = None →
  uploadPart env (calls is_uploadPart (events s)) (wb_Len b) = (n, None) →
  n ≠ wb_Len b →
  reupload env None = false →
  ∃ s1 : Writer,
    sendChunk (S fuel) s = Done None s1
    ∧ err s1 = err s
    ∧ calls is_cancel (events s1) = calls is_cancel (events s)
    ∧ workers s1 = [] ∧ starting s1 = O
    ∧ (ctxErr s1 = None → sendChunk fuel' s1 = Abort Blocked s1).
Proof.
  intros Ho Hr Hw Hst Hb Hctx Hseen Hup Hn Hre.
  unfold sendChunk at 1. rewrite Ho. cbn [bind]. rewrite Hb.
  unfold canSend. rewrite Hr, Hw, Hctx. cbn [bool_decide negb].
  rewrite bool_decide_eq_false_2 by done. cbn [negb].
  unfold deliver. cbn [workers log set_events]. rewrite Hw.
  unfold handle. cbn [seen set_workers log set_events id buf wb_Reader].
  rewrite Hseen. rewrite redo_part_S. cbv zeta.
  cbn [events set_workers log set_events calls is_uploadPart id buf Nat.add].
  unfold partFailed. rewrite Hup. cbn [fst snd].
  assert (Hne : (n =? wb_Len b) = false) by (by apply Z.eqb_neq).
  rewrite Hne. cbn [negb orb]. rewrite Hre. rewrite setErr_nil. cbn [bind].
  eexists. split; [reflexivity|].
  cbn [err workers starting events set_w set_cidx set_workers log set_events calls
       is_cancel Nat.add].
  split; [reflexivity|]. split; [reflexivity|]. split; [reflexivity|].
  split; [exact Hst|].
  intros Hctx1. unfold sendChunk.
  cbn [once set_w set_cidx set_workers log set_events bind w].
  rewrite Ho. cbn [bind w set_w]. unfold canSend.
  cbn [ready workers set_w set_cidx set_workers log set_events].
  rewrite Hr. cbn [bool_decide negb].
  rewrite bool_decide_eq_true_2 by done. cbn [negb].
  by rewrite Hctx1.
Qed.

(** [Close] on a Writer whose buffer was never made: the simple upload
    gets its endpoint and then calls [Hash] on the nil buffer (line 196). *)
Lemma Close_nil_buffer_panics (fuel : nat) (s : Writer) (ue : endpoint) :
  done s = false → cidx s = 0 → w s = None →
  getUploadURL env (calls is_getUploadURL (events s)) = inr ue →
  Close fuel s = Abort Panicked (log EGetUploadURL (set_done true s)).
Proof.
  intros Hd Hc Hw Hu. unfold Close, finish. rewrite Hd.
  cbn [cidx set_done]. rewrite Hc. cbn [Z.eqb].
  unfold simpleWriteFile. cbn [events set_done w log set_events].
  by rewrite Hu, Hw.
Qed.

End Model.

(** * The claims at concrete inputs *)

(** C1, at its failing input.  With a chunk size of 3, three bytes are
    written and the Writer is closed; every collaborator succeeds.  The
    stream does not exceed the chunk size, yet chunk 1 is sent during the
    write, no whole-object upload is made, and [Close] finishes a large
    file. *)
Theorem full_chunk_is_sent :
  total [bytes 3] = chunkSizeOf (newWriter "f" 1 false 3)
  ∧ sends (events (final (writeAll okEnv 5 [bytes 3] (newWriter "f" 1 false 3)))) =
      [{| id := 1; buf := bytes 3 |}]
  ∧ fileDone (Close okEnv 5 (final (writeAll okEnv 5 [bytes 3] (newWriter "f" 1 false 3))))
      = true
  ∧ calls is_uploadFile
      (events (final (Close okEnv 5
         (final (writeAll okEnv 5 [bytes 3] (newWriter "f" 1 false 3)))))) = 0%nat
  ∧ calls is_finishLargeFile
      (events (final (Close okEnv 5
         (final (writeAll okEnv 5 [bytes 3] (newWriter "f" 1 false 3)))))) = 1%nat.
Proof. repeat split; vm_compute; reflexivity. Qed.

(** C7, at its failing input.  A Writer that was never written to is
    closed, and the upload endpoint is granted: [Close] does not return the
    stored error, it panics on the nil buffer. *)
Theorem Close_unwritten_panics :
  Close okEnv 5 (newWriter "f" 1 false 0) =
  Abort Panicked (log EGetUploadURL (set_done true (newWriter "f" 1 false 0))).
Proof. by apply (Close_nil_buffer_panics okEnv 5 _ O). Qed.

(** C6, at its failing input.  An upload of 4 bytes in chunks of 3 with
    two goroutines, of which the second is still asking for its endpoint
    when the pool is started.  The first goroutine uploads both chunks.
    [Close] closes the channel, waits for the goroutines counted in
    [w.wg], which the second is not, finishes the large file and returns
    nil.  The second goroutine is then refused its endpoint and stores the
    error.  A second [Close] does no work, and returns that error: the two
    calls of [Close] do not return the same. *)
Theorem Close_twice_differs :
  ∃ s1 s2 s3 s4 : Writer,
    writeAll lateEnv 9 [bytes 4] (newWriter "f" 2 false 3) = Done tt s1
    ∧ Close lateEnv 9 s1 = Done None s2
    ∧ calls is_finishLargeFile (events s2) = 1%nat
    ∧ starting s2 = 1%nat
    ∧ straggle lateEnv s2 = Done tt s3
    ∧ Close lateEnv 9 s3 = Done (Some "no endpoint"%string) s4
    ∧ events s4 = events s3.
Proof.
  exists (final (writeAll lateEnv 9 [bytes 4] (newWriter "f" 2 false 3))).
  exists (final (Close lateEnv 9
            (final (writeAll lateEnv 9 [bytes 4] (newWriter "f" 2 false 3))))).
  exists (final (straggle lateEnv (final (Close lateEnv 9
            (final (writeAll lateEnv 9 [bytes 4] (newWriter "f" 2 false 3))))))).
  exists (final (straggle lateEnv (final (Close lateEnv 9
            (final (writeAll lateEnv 9 [bytes 4] (newWriter "f" 2 false 3))))))).
  split; [vm_compute; reflexivity|]. split; [vm_compute; reflexivity|].
  split; [vm_compute; reflexivity|]. split; [vm_compute; reflexivity|].
  split; [vm_compute; reflexivity|]. split; vm_compute; reflexivity.
Qed.

(** C5 as stated fails: every attempt fails and the classifier has every
    failure retried, yet the loop ends after two attempts, because no fresh
    endpoint is to be had for a third. *)
Lemma retries_end_without_endpoint : ¬ retries_while_retryable stuckEnv.
Proof.
  intros H.
  specialize (H 5%nat {| id := 1; buf := bytes 3 |} O (newWriter "f" 1 false 3) 2%nat).
  assert (Hc : calls is_uploadPart (events (final
            (redo_part stuckEnv 5 {| id := 1; buf := bytes 3 |}
               (int_mul Millisecond 15) O (newWriter "f" 1 false 3)))) = 2%nat)
    by (vm_compute; reflexivity).
  rewrite Hc in H. simpl in H.
  assert (2 < 2)%nat; [|lia].
  apply H; [lia|]. intros i _. vm_compute. reflexivity.
Qed.

(** C8, at its failing input.  The first upload fails retryably, for the
    simple upload of a 3-byte buffer as for the goroutine's upload of a
    3-byte chunk.  Both fetch a second endpoint and succeed on the second
    attempt; the goroutine pauses 15 ms in between, the simple upload does
    not pause at all. *)
Theorem simple_upload_retries_without_pause :
  calls is_uploadFile
    (events (final (simpleWriteFile flakyEnv 5 (set_w (Some (bytes 3)) demoWriter))))
    = 2%nat
  ∧ calls is_getUploadURL
      (events (final (simpleWriteFile flakyEnv 5 (set_w (Some (bytes 3)) demoWriter))))
    = 2%nat
  ∧ fileDone (simpleWriteFile flakyEnv 5 (set_w (Some (bytes 3)) demoWriter)) = true
  ∧ sleeps
      (events (final (simpleWriteFile flakyEnv 5 (set_w (Some (bytes 3)) demoWriter))))
    = []
  ∧ calls is_uploadPart (events (final (handle flakyEnv 5 O demoChunk demoWriter)))
    = 2%nat
  ∧ partDone (handle flakyEnv 5 O demoChunk demoWriter) = true
  ∧ sleeps (events (final (handle flakyEnv 5 O demoChunk demoWriter)))
    = [15 * Millisecond].
Proof. repeat split; vm_compute; reflexivity. Qed.

(** Hence the two loops do not take the same course. *)
Lemma simple_upload_never_pauses : ¬ same_retry_course flakyEnv.
Proof.
  intros H.
  destruct (H 5%nat O (bytes 3) "aaa"%string "t"%string (newWriter "f" 1 false 3)
              {| id := 1; buf := bytes 3 |} (newWriter "f" 1 false 3))
    as (π & P2 & P1).
  - intros [|i]; vm_compute; reflexivity.
  - intros i. reflexivity.
  - vm_compute in P1, P2. congruence.
Qed.

(** C9 as stated fails for [Close]: the large file could not be started,
    so the error is stored with the full buffer still unsent; [Close] then
    uploads that buffer as a whole object before it returns the error. *)
Lemma Close_works_despite_error : ¬ Close_short_circuits noStartEnv.
Proof.
  intros H.
  set (s1 := final (writeAll noStartEnv 5 [bytes 3] (newWriter "f" 1 false 3))).
  destruct (H 5%nat s1 "start failed"%string) as (s' & HC & Hev);
    [vm_compute; reflexivity|].
  assert (Hn : calls is_uploadFile (events (final (Close noStartEnv 5 s1))) = 1%nat)
    by (vm_compute; reflexivity).
  rewrite HC in Hn. cbn [final] in Hn. rewrite Hev in Hn.
  vm_compute in Hn. discriminate.
Qed.

(** * Instances *)

Lemma large_upload_chunks_witness :
  fresh demoWriter
  ∧ chunkSizeOf demoWriter < total demoWrites
  ∧ Z.of_nat (length (sends (events
       (final (writeAll okEnv 9 demoWrites demoWriter))))) =
    total demoWrites / chunkSizeOf demoWriter.
Proof.
  split; [by split|]. split; [reflexivity|].
  apply (large_upload_chunks okEnv 9 demoWrites demoWriter
           (final (writeAll okEnv 9 demoWrites demoWriter))
           (final (Close okEnv 9 (final (writeAll okEnv 9 demoWrites demoWriter))))).
  - by split.
  - vm_compute. split; discriminate.
  - vm_compute. discriminate.
  - reflexivity.
  - vm_compute. reflexivity.
  - vm_compute. reflexivity.
Defined.

Lemma seen_chunk_skipped_or_fatal_witness :
  seen (set_seen {[1 := "aaa"%string]} demoWriter) !! id demoChunk = Some "aaa"%string
  ∧ handle okEnv 5 O demoChunk (set_seen {[1 := "aaa"%string]} demoWriter) =
    Done (Some O) (set_seen {[1 := "aaa"%string]} demoWriter).
Proof.
  split; [reflexivity|].
  exact (proj1 (seen_chunk_skipped_or_fatal okEnv 5 O demoChunk
                  (set_seen {[1 := "aaa"%string]} demoWriter) "aaa"%string eq_refl)).
Defined.

Lemma backoff_schedule_witness :
  partRetried flakyEnv 0 (wb_Len (buf demoChunk)) = true
  ∧ partFailed flakyEnv 1 (wb_Len (buf demoChunk)) = false
  ∧ ∃ s' : Writer,
      redo_part flakyEnv 5 demoChunk (int_mul Millisecond 15) O demoWriter =
        Done (Some O) s'
      ∧ calls is_uploadPart (events s') = 2%nat
      ∧ calls is_getUploadPartURL (events s') = 1%nat
      ∧ sleeps (events s') = [15 * Millisecond]
      ∧ err s' = None
      ∧ calls is_cancel (events s') = O.
Proof.
  split; [reflexivity|]. split; [reflexivity|].
  apply (backoff_schedule flakyEnv 1 5 demoChunk O demoWriter).
  - intros i Hi. inversion Hi as [|j Hj]; [split; reflexivity | inversion Hj].
  - repeat constructor.
  - reflexivity.
Defined.

Lemma simple_retry_rotates_without_backoff_witness :
  (∀ i : nat,
     fileVerdict flakyEnv (calls is_uploadFile (events demoWriter) + i) =
     partVerdict flakyEnv (calls is_uploadPart (events demoWriter) + i)
       (wb_Len (buf demoChunk)))
  ∧ fileDone (redo_file flakyEnv 5 O (bytes 3) "aaa" "t" demoWriter) =
    partDone (redo_part flakyEnv 5 demoChunk 15000000 O demoWriter).
Proof.
  assert (Hv : ∀ i : nat,
     fileVerdict flakyEnv (calls is_uploadFile (events demoWriter) + i) =
     partVerdict flakyEnv (calls is_uploadPart (events demoWriter) + i)
       (wb_Len (buf demoChunk))) by (intros [|i]; reflexivity).
  split; [exact Hv|].
  exact (proj1 (proj2 (simple_retry_rotates_without_backoff flakyEnv 5 O (bytes 3)
           "aaa" "t" demoWriter demoChunk 15000000 demoWriter Hv (λ i, eq_refl)))).
Defined.

Lemma stored_error_short_circuits_witness :
  err (set_err (Some "boom"%string) demoWriter) = Some "boom"%string
  ∧ Write okEnv 6 (bytes 1) (set_err (Some "boom"%string) demoWriter) =
    Done (0, Some "boom"%string) (set_err (Some "boom"%string) demoWriter).
Proof.
  split; [reflexivity|].
  exact (proj1 (stored_error_short_circuits okEnv 5 (bytes 1)
                  (set_err (Some "boom"%string) demoWriter) "boom"%string eq_refl)).
Defined.

Lemma WithAttrs_copies_witness :
  (∀ l : loc, Info demoAttrs = Some l →
     (l < length (heap (set_heap [{["k"%string := "v"%string]}] demoWriter)))%nat)
  ∧ ∃ s' : Writer,
      WithAttrs (Some demoAttrs) (set_heap [{["k"%string := "v"%string]}] demoWriter) =
        Done tt s'
      ∧ deref s' (info s') =
        metadata (deref (set_heap [{["k"%string := "v"%string]}] demoWriter)
                    (Info demoAttrs)) demoAttrs.
Proof.
  assert (Hwf : ∀ l : loc, Info demoAttrs = Some l →
     (l < length (heap (set_heap [{["k"%string := "v"%string]}] demoWriter)))%nat).
  { intros l Hl. injection Hl as <-. repeat constructor. }
  split; [exact Hwf|].
  destruct (WithAttrs_copies demoAttrs
              (set_heap [{["k"%string := "v"%string]}] demoWriter) Hwf)
    as (s' & H1 & _ & _ & H2 & _).
  exists s'. by split.
Defined.

Lemma Write_count_witness :
  (start demoWriter = false → w demoWriter = None)
  ∧ Write noStartEnv 5 (bytes 5) demoWriter =
      Done (3, Some "start failed"%string) (final (Write noStartEnv 5 (bytes 5) demoWriter))
  ∧ 0 ≤ 3 ≤ Z.of_nat (length (bytes 5)).
Proof.
  split; [done|]. split; [vm_compute; reflexivity|].
  apply (Write_count noStartEnv 5 (bytes 5) demoWriter 3 (Some "start failed"%string)
           (final (Write noStartEnv 5 (bytes 5) demoWriter))).
  - done.
  - vm_compute. discriminate.
  - vm_compute. reflexivity.
Defined.

Lemma Write_appends_to_stream_witness :
  (start demoWriter = false → w demoWriter = None)
  ∧ stream (final (Write noStartEnv 5 (bytes 5) demoWriter)) =
    stream demoWriter ++ firstn (Z.to_nat 3) (bytes 5).
Proof.
  split; [done|].
  apply (Write_appends_to_stream noStartEnv 5 (bytes 5) demoWriter 3
           (Some "start failed"%string)).
  - done.
  - vm_compute. discriminate.
  - vm_compute. reflexivity.
Defined.

Lemma Write_negative_ChunkSize_panics_witness :
  - 2 ^ 63 ≤ ChunkSize (newWriter "f" 1 false (-1)) < 0
  ∧ Write okEnv 1 (bytes 1) (newWriter "f" 1 false (-1)) =
    Abort Panicked (startDo (newWriter "f" 1 false (-1))).
Proof.
  split; [vm_compute; split; [discriminate | reflexivity]|].
  apply (Write_negative_ChunkSize_panics okEnv 0 (bytes 1) (newWriter "f" 1 false (-1)));
    [reflexivity | reflexivity | vm_compute; split; [discriminate | reflexivity]].
Defined.


Lemma upload_cancels_once_witness :
  settled demoWriter
  ∧ err (final (writeAll noStartEnv 5 demoWrites demoWriter)) =
    Some "start failed"%string
  ∧ settled (final (writeAll noStartEnv 5 demoWrites demoWriter))
  ∧ settled (final (Close noStartEnv 5
               (final (writeAll noStartEnv 5 demoWrites demoWriter)))).
Proof.
  split; [reflexivity|]. split; [vm_compute; reflexivity|].
  apply (upload_cancels_once noStartEnv 5 demoWrites demoWriter). reflexivity.
Defined.

Lemma startPool_starts_pool_witness :
  startPool lateEnv 3 (newWriter "f" 2 false 3) =
    Done None (final (startPool lateEnv 3 (newWriter "f" 2 false 3)))
  ∧ ConcurrentUploads (final (startPool lateEnv 3 (newWriter "f" 2 false 3))) =
    Z.max (ConcurrentUploads (newWriter "f" 2 false 3)) 1
  ∧ ready (final (startPool lateEnv 3 (newWriter "f" 2 false 3))) = ChanOpen
  ∧ ∃ m : nat,
      calls is_getUploadPartURL
        (events (final (startPool lateEnv 3 (newWriter "f" 2 false 3)))) =
        (calls is_getUploadPartURL (events (newWriter "f" 2 false 3)) + m)%nat
      ∧ (starting (final (startPool lateEnv 3 (newWriter "f" 2 false 3))) + m =
         starting (newWriter "f" 2 false 3)
         + Z.to_nat (Z.max (ConcurrentUploads (newWriter "f" 2 false 3)) 1))%nat
      ∧ length (workers (final (startPool lateEnv 3 (newWriter "f" 2 false 3)))) =
        (length (workers (newWriter "f" 2 false 3))
         + granted lateEnv
             (calls is_getUploadPartURL (events (newWriter "f" 2 false 3))) m)%nat.
Proof.
  split; [vm_compute; reflexivity|].
  apply (startPool_starts_pool lateEnv 3 (newWriter "f" 2 false 3)).
  vm_compute. reflexivity.
Defined.

Lemma getLargeFile_drains_listing_witness :
  ∃ s' : Writer,
    getLargeFile resumeEnv 2 (newWriter "f" 1 true 3) =
      Done (inr (CompiledParts 7%nat 3 {[ 1 := "aaa"%string ]})) s'
    ∧ seen s' = {[ 1 := "aaa"%string ]}
    ∧ cursors (events s') = [1; 2].
Proof.
  apply (getLargeFile_drains_listing resumeEnv 0 7%nat
           [([{| p_number := 1; p_sha1 := "aaa"; p_size := 3 |}], 2)]
           (newWriter "f" 1 true 3) [] 0).
  - reflexivity.
  - intros i _. eexists _, _. split; [reflexivity|]. split; reflexivity.
  - intros [|i] pg Hpg; [|discriminate].
    injection Hpg as <-. split; [reflexivity|]. split; discriminate.
  - reflexivity.
  - by left.
Defined.

Lemma seen_parts_never_uploaded_witness :
  unseen (newWriter "f" 1 true 3)
  ∧ seen (final (Close resumeEnv 9
            (final (writeAll resumeEnv 9 [bytes 6] (newWriter "f" 1 true 3))))) =
    {[ 1 := "aaa"%string ]}
  ∧ uploaded (events (final (Close resumeEnv 9
       (final (writeAll resumeEnv 9 [bytes 6] (newWriter "f" 1 true 3)))))) = [2]
  ∧ Forall
      (λ n, seen (final (Close resumeEnv 9
               (final (writeAll resumeEnv 9 [bytes 6] (newWriter "f" 1 true 3)))))
            !! n = None)
      (uploaded (events (final (Close resumeEnv 9
         (final (writeAll resumeEnv 9 [bytes 6] (newWriter "f" 1 true 3))))))).
Proof.
  split; [by split|]. split; [vm_compute; reflexivity|].
  split; [vm_compute; reflexivity|].
  apply (seen_parts_never_uploaded resumeEnv 9 [bytes 6] (newWriter "f" 1 true 3)).
  by split.
Defined.

Lemma Write_after_large_Close_panics_witness :
  fresh demoWriter ∧ unseen demoWriter
  ∧ chunkSizeOf demoWriter ≤ total demoWrites
  ∧ Close okEnv 9 (final (writeAll okEnv 9 demoWrites demoWriter)) =
      Done None (final (Close okEnv 9 (final (writeAll okEnv 9 demoWrites demoWriter))))
  ∧ Write okEnv 2 (bytes 3)
      (final (Close okEnv 9 (final (writeAll okEnv 9 demoWrites demoWriter)))) =
    Abort Panicked
      (set_w (Some (firstn (Z.to_nat (chunkSizeOf demoWriter)) (bytes 3)))
         (final (Close okEnv 9 (final (writeAll okEnv 9 demoWrites demoWriter))))).
Proof.
  split; [by split|]. split; [by split|]. split; [vm_compute; discriminate|].
  split; [vm_compute; reflexivity|].
  apply (Write_after_large_Close_panics okEnv 9 0 demoWrites (bytes 3) demoWriter
           (final (writeAll okEnv 9 demoWrites demoWriter))).
  - by split.
  - by split.
  - vm_compute. split; discriminate.
  - vm_compute. discriminate.
  - vm_compute. discriminate.
  - vm_compute. reflexivity.
  - vm_compute. reflexivity.
  - vm_compute. reflexivity.
  - vm_compute. discriminate.
Defined.

Lemma small_upload_is_one_request_witness :
  fresh demoWriter ∧ total [bytes 1; bytes 1] < chunkSizeOf demoWriter
  ∧ ∃ s1 s2 : Writer,
      writeAll okEnv 1 [bytes 1; bytes 1] demoWriter = Done tt s1
      ∧ events s1 = events demoWriter
      ∧ Close okEnv 1 s1 = Done None s2
      ∧ events s2 =
          EUploadFile O (concat [bytes 1; bytes 1]) (total [bytes 1; bytes 1])
            (name demoWriter) (ctype_of demoWriter)
            (Hash okEnv (concat [bytes 1; bytes 1]))
            (deref demoWriter (info demoWriter))
          :: EGetUploadURL :: events demoWriter
      ∧ o_f s2 = Some O.
Proof.
  split; [by split|]. split; [reflexivity|].
  apply (small_upload_is_one_request okEnv 0 0 [bytes 1; bytes 1] demoWriter O O).
  - by split.
  - vm_compute. split; discriminate.
  - discriminate.
  - reflexivity.
  - reflexivity.
  - reflexivity.
Defined.

Lemma short_upload_without_error_stalls_witness :
  uploadPart shortEnv 0 (wb_Len (bytes 3)) = (2, None)
  ∧ ∃ s1 : Writer,
      sendChunk shortEnv 1
        (set_w (Some (bytes 3))
           (final (startPool shortEnv 1 (set_once true demoWriter)))) =
        Done None s1
      ∧ err s1 =
        err (set_w (Some (bytes 3))
               (final (startPool shortEnv 1 (set_once true demoWriter))))
      ∧ calls is_cancel (events s1) =
        calls is_cancel
          (events (set_w (Some (bytes 3))
                     (final (startPool shortEnv 1 (set_once true demoWriter)))))
      ∧ workers s1 = [] ∧ starting s1 = O
      ∧ (ctxErr shortEnv s1 = None → sendChunk shortEnv 1 s1 = Abort Blocked s1).
Proof.
  split; [reflexivity|].
  apply (short_upload_without_error_stalls shortEnv 0 1 O (bytes 3) 2
           (set_w (Some (bytes 3))
              (final (startPool shortEnv 1 (set_once true demoWriter))))).
  - reflexivity.
  - reflexivity.
  - reflexivity.
  - reflexivity.
  - reflexivity.
  - reflexivity.
  - reflexivity.
  - reflexivity.
  - discriminate.
  - reflexivity.
Defined.


End b2.
